(** * lucida-sync: the request governor ([RateLimiter]) and the worker retry loop

    A shallow embedding of [src/lucida_client.py] and [src/lucida_sync.py].

    Conventions of the embedding:
    - Python [float] timestamps and durations are idealised as exact rationals
      ([Q]); Python [int]s are [Z].  [Binary64] holds the constructor and
      [wait] once more in the code's own binary64 arithmetic, for what depends
      on rounding.
    - [time.time()] and [time.sleep()] act on an explicit [World]: a clock, the
      log of the durations handed to [time.sleep], and the overshoot by which
      the operating system will prolong each coming sleep.
    - an exception is a [Raise] result.  Rounding of floats is outside the
      model; the [OverflowError] of converting a large [int] to [float] is in
      it.
    - what the code prints is left out of the governor and kept, as events, in
      the worker. *)

From Stdlib Require Import ZArith QArith Qminmax Lqa Lia List String Bool Sorted.
From Stdlib Require Floats.
Import ListNotations.

Open Scope Q_scope.

(** ** Results and the world *)

Inductive exn : Type :=
| ValueError (msg : string)
| OverflowError (msg : string).

Inductive result (A : Type) : Type :=
| Ok (a : A)
| Raise (e : exn).

Arguments Ok {A} a.
Arguments Raise {A} e.

(** The part of the environment that [RateLimiter] touches. *)
Record World : Type := mkWorld {
  clock : Q;             (* what [time.time()] returns now *)
  sleeps : list Q;       (* arguments of the [time.sleep] calls so far *)
  lateness : list Q      (* extra delay of each coming [time.sleep] *)
}.

Definition M (A : Type) : Type := World -> result (A * World).

Definition ret {A} (a : A) : M A := fun w => Ok (a, w).

(** A computation that does not touch the world. *)
Definition lift {A} (r : result A) : M A :=
  fun w => match r with
           | Ok a => Ok (a, w)
           | Raise e => Raise e
           end.

Definition bind {A B} (m : M A) (k : A -> M B) : M B :=
  fun w => match m w with
           | Ok (a, w') => k a w'
           | Raise e => Raise e
           end.

Notation "x <- c1 ;; c2" := (bind c1 (fun x => c2))
  (at level 61, c1 at next level, right associativity).
Notation "c1 ;; c2" := (bind c1 (fun _ => c2))
  (at level 61, right associativity).

Definition Qltb (x y : Q) : bool := negb (Qle_bool y x).

(** The least magnitude of an [int] that no [float] can hold: everything from
    [2**1024 - 2**970] on rounds past the largest double. *)
Definition float_int_limit : Z := (2 ^ 1024 - 2 ^ 970)%Z.

(** The conversion that a [float] operator applies to its [int] operand. *)
Definition float_of_int (n : Z) : result Q :=
  if (Z.abs n <? float_int_limit)%Z then Ok (inject_Z n)
  else Raise (OverflowError "int too large to convert to float").

(** [time.time()] *)
Definition time_time : M Q := fun w => Ok (clock w, w).

(** The world after a sleep of [secs]: the clock has moved by [secs] and by
    the lateness of this sleep. *)
Definition slept (secs : Q) (w : World) : World :=
  {| clock := clock w + secs + hd 0 (lateness w);
     sleeps := sleeps w ++ [secs];
     lateness := tl (lateness w) |}.

(** [time.sleep(secs)]: refuses a negative length, otherwise suspends for at
    least [secs]. *)
Definition time_sleep (secs : Q) : M unit :=
  fun w =>
    if Qltb secs 0 then Raise (ValueError "sleep length must be non-negative")
    else Ok (tt, slept secs w).

(** Time that passes between two calls on the governor. *)
Definition elapse (d : Q) : M unit :=
  fun w => Ok (tt, {| clock := clock w + d;
                      sleeps := sleeps w;
                      lateness := lateness w |}).

(** ** [collections.deque(maxlen=...)] *)

Record deque : Type := mkDeque {
  items : list Q;
  maxlen : Z
}.

(** [maxlen] is first converted to a C [ssize_t], which holds the integers
    from [-2**63] to [2**63 - 1]. *)
Definition ssize_t_fits (n : Z) : bool :=
  ((- 2 ^ 63 <=? n) && (n <? 2 ^ 63))%Z.

Definition deque_new (n : Z) : result deque :=
  if negb (ssize_t_fits n)
  then Raise (OverflowError "Python int too large to convert to C ssize_t")
  else if (n <? 0)%Z then Raise (ValueError "maxlen must be non-negative")
  else Ok {| items := []; maxlen := n |}.

(** [append] adds on the right, then drops the leftmost item when the
    deque has grown past [maxlen]. *)
Definition deque_append (d : deque) (x : Q) : deque :=
  let l := items d ++ [x] in
  {| items := if (maxlen d <? Z.of_nat (List.length l))%Z then tl l else l;
     maxlen := maxlen d |}.

Definition deque_len (d : deque) : Z := Z.of_nat (List.length (items d)).

(** [sum(1 for t in request_times if t > cutoff)] *)
Definition count_newer (cutoff : Q) (l : list Q) : Z :=
  Z.of_nat (List.length (filter (fun t => Qltb cutoff t) l)).

(** [min(iterable, default=d)]: the first least item, [d] when there is none. *)
Fixpoint min_from (m : Q) (l : list Q) : Q :=
  match l with
  | [] => m
  | t :: l' => min_from (if Qltb t m then t else m) l'
  end.

Definition py_min (l : list Q) (default : Q) : Q :=
  match l with
  | [] => default
  | t :: l' => min_from t l'
  end.

(** ** [class RateLimiter] *)

Record RateLimiter : Type := mkRateLimiter {
  requests_per_minute : Z;
  requests_per_hour : Z;
  min_delay : Q;
  request_times : deque;
  last_request_time : Q;
  consecutive_errors : Z;
  max_backoff : Z
}.

Definition with_default {A} (d : A) (o : option A) : A :=
  match o with Some a => a | None => d end.

(** [RateLimiter.__init__]: three keyword arguments, [None] standing for an
    argument the caller leaves out. *)
Definition RateLimiter_init (requests_per_minute requests_per_hour : option Z)
    (min_delay : option Q) : result RateLimiter :=
  let rpm := with_default 30%Z requests_per_minute in
  let rph := with_default 500%Z requests_per_hour in
  let md := with_default 2 min_delay in
  match deque_new rph with
  | Raise e => Raise e
  | Ok dq =>
      Ok {| requests_per_minute := rpm;
            requests_per_hour := rph;
            min_delay := md;
            request_times := dq;
            last_request_time := 0;
            consecutive_errors := 0;
            max_backoff := 300 |}
  end.

(** The blocks of [RateLimiter.wait], in source order.  Each takes the value
    of the local [current_time] and returns its new value. *)

(** "Enforce minimum delay between requests" *)
Definition enforce_min_delay (self : RateLimiter) (current_time : Q) : M Q :=
  let time_since_last := current_time - last_request_time self in
  if Qltb time_since_last (min_delay self) then
    let sleep_time := min_delay self - time_since_last in
    time_sleep sleep_time ;;
    time_time
  else ret current_time.

(** "Check per-minute limit (sliding window)" *)
Definition check_per_minute (self : RateLimiter) (current_time : Q) : M Q :=
  let one_minute_ago := current_time - 60 in
  let recent_requests := count_newer one_minute_ago (items (request_times self)) in
  if (requests_per_minute self <=? recent_requests)%Z then
    let oldest_in_window :=
      py_min (filter (fun t => Qltb one_minute_ago t) (items (request_times self)))
             one_minute_ago in
    let wait_time := 60 - (current_time - oldest_in_window) + 1 in
    time_sleep wait_time ;;
    time_time
  else ret current_time.

(** "Check per-hour limit" *)
Definition check_per_hour (self : RateLimiter) (current_time : Q) : M Q :=
  let one_hour_ago := current_time - 3600 in
  let hour_requests := count_newer one_hour_ago (items (request_times self)) in
  if (requests_per_hour self <=? hour_requests)%Z then
    let oldest_in_hour :=
      py_min (filter (fun t => Qltb one_hour_ago t) (items (request_times self)))
             one_hour_ago in
    let wait_time := 3600 - (current_time - oldest_in_hour) + 1 in
    time_sleep wait_time ;;
    time_time
  else ret current_time.

(** "Exponential backoff for consecutive errors".  [min_delay] is a [float],
    so the product first converts the [int] [2**consecutive_errors]. *)
Definition exponential_backoff (self : RateLimiter) (current_time : Q) : M Q :=
  if (0 <? consecutive_errors self)%Z then
    power <- lift (float_of_int (2 ^ consecutive_errors self)) ;;
    let backoff := Qmin (min_delay self * power)
                        (inject_Z (max_backoff self)) in
    time_sleep backoff ;;
    time_time
  else ret current_time.

(** The length of the backoff sleep when the power fits a [float]:
    [min(min_delay * 2**k, max_backoff)]. *)
Definition backoff_of (self : RateLimiter) : Q :=
  Qmin (min_delay self * inject_Z (2 ^ consecutive_errors self))
       (inject_Z (max_backoff self)).

(** "Record this request" *)
Definition record_request (self : RateLimiter) (current_time : Q) : RateLimiter :=
  {| requests_per_minute := requests_per_minute self;
     requests_per_hour := requests_per_hour self;
     min_delay := min_delay self;
     request_times := deque_append (request_times self) current_time;
     last_request_time := current_time;
     consecutive_errors := consecutive_errors self;
     max_backoff := max_backoff self |}.

(** [RateLimiter.wait]; the result is [self] after the call. *)
Definition wait (self : RateLimiter) : M RateLimiter :=
  current_time <- time_time ;;
  current_time <- enforce_min_delay self current_time ;;
  current_time <- check_per_minute self current_time ;;
  current_time <- check_per_hour self current_time ;;
  current_time <- exponential_backoff self current_time ;;
  ret (record_request self current_time).

(** Steps 1 to 3 of [wait] alone: everything before the backoff block. *)
Definition wait_windows (self : RateLimiter) : M Q :=
  current_time <- time_time ;;
  current_time <- enforce_min_delay self current_time ;;
  current_time <- check_per_minute self current_time ;;
  check_per_hour self current_time.

Definition set_consecutive_errors (k : Z) (self : RateLimiter) : RateLimiter :=
  {| requests_per_minute := requests_per_minute self;
     requests_per_hour := requests_per_hour self;
     min_delay := min_delay self;
     request_times := request_times self;
     last_request_time := last_request_time self;
     consecutive_errors := k;
     max_backoff := max_backoff self |}.

(** [RateLimiter.record_success] *)
Definition record_success (self : RateLimiter) : RateLimiter :=
  set_consecutive_errors 0 self.

(** [RateLimiter.record_error] *)
Definition record_error (self : RateLimiter) : RateLimiter :=
  set_consecutive_errors (consecutive_errors self + 1) self.

(** The dictionary that [get_stats] returns, keys in insertion order. *)
Definition Stats : Type := list (string * Z).

(** [RateLimiter.get_stats]: the returned dictionary and [self] after the call. *)
Definition get_stats (self : RateLimiter) : M (Stats * RateLimiter) :=
  current_time <- time_time ;;
  let one_minute_ago := current_time - 60 in
  let one_hour_ago := current_time - 3600 in
  ret ([ ("requests_last_minute"%string,
            count_newer one_minute_ago (items (request_times self)));
         ("requests_last_hour"%string,
            count_newer one_hour_ago (items (request_times self)));
         ("consecutive_errors"%string, consecutive_errors self);
         ("total_requests"%string, deque_len (request_times self)) ],
       self).

(** Dictionary lookup, [d[key]]. *)
Fixpoint stat (key : string) (d : Stats) : option Z :=
  match d with
  | [] => None
  | (k, v) :: d' => if String.eqb k key then Some v else stat key d'
  end.

(** ** Sequences of calls on one governor *)

Inductive call : Type :=
| CallWait
| CallRecordSuccess
| CallRecordError
| CallGetStats
| Elapse (d : Q).

Definition step (c : call) (self : RateLimiter) : M RateLimiter :=
  match c with
  | CallWait => wait self
  | CallRecordSuccess => ret (record_success self)
  | CallRecordError => ret (record_error self)
  | CallGetStats => r <- get_stats self ;; ret (snd r)
  | Elapse d => elapse d ;; ret self
  end.

Fixpoint run (cs : list call) (self : RateLimiter) : M RateLimiter :=
  match cs with
  | [] => ret self
  | c :: cs' => self' <- step c self ;; run cs' self'
  end.

(** Time only moves forward: between calls and when a sleep overshoots. *)
Definition call_ok (c : call) : Prop :=
  match c with
  | Elapse d => 0 <= d
  | _ => True
  end.

Definition world_ok (w : World) : Prop :=
  Forall (fun d => 0 <= d) (lateness w).

Definition is_stats_call (c : call) : bool :=
  match c with CallGetStats => true | _ => false end.

Definition is_wait_call (c : call) : bool :=
  match c with CallWait => true | _ => false end.

Definition is_error_call (c : call) : bool :=
  match c with CallRecordError => true | _ => false end.

(** The backoff computation goes through: there is none to do, or the power
    fits a [float] and the sleep is not of negative length. *)
Definition backoff_fits (self : RateLimiter) : Prop :=
  (consecutive_errors self <= 0)%Z \/
  ((consecutive_errors self < 1024)%Z /\ 0 <= backoff_of self).

(** A sequence of calls with its [get_stats] calls taken out. *)
Definition without_stats (cs : list call) : list call :=
  filter (fun c => negb (is_stats_call c)) cs.

(** What holds of the log and the error counter whatever the clock does. *)
Definition log_inv (self : RateLimiter) : Prop :=
  maxlen (request_times self) = requests_per_hour self /\
  (deque_len (request_times self) <= maxlen (request_times self))%Z /\
  (0 <= consecutive_errors self)%Z.

(** What holds of every governor that a successful construction and any
    calls lead to. *)
Record governor_inv (self : RateLimiter) (w : World) : Prop := mkInv {
  inv_world : world_ok w;
  inv_maxlen : maxlen (request_times self) = requests_per_hour self;
  inv_length : (deque_len (request_times self) <= maxlen (request_times self))%Z;
  inv_errors : (0 <= consecutive_errors self)%Z;
  inv_cap : (0 <= max_backoff self)%Z
}.

(** The per-minute window is within its limit. *)
Definition minute_ok (self : RateLimiter) (w : World) : Prop :=
  (count_newer (clock w - 60) (items (request_times self))
   <= requests_per_minute self)%Z.

(** The per-hour window is within its limit. *)
Definition hour_ok (self : RateLimiter) (w : World) : Prop :=
  (count_newer (clock w - 3600) (items (request_times self))
   <= requests_per_hour self)%Z.

(** Two governors with the same configuration. *)
Definition same_config (a b : RateLimiter) : Prop :=
  requests_per_minute a = requests_per_minute b /\
  requests_per_hour a = requests_per_hour b /\
  min_delay a = min_delay b /\
  max_backoff a = max_backoff b.

(** ** The world after each block of [wait]

    The three blocks before the backoff never fail, so each is a function on
    worlds; [wait_windows_eq] and [wait_eq] below show that [wait] is their
    composition. *)

Definition after_min_delay (self : RateLimiter) (w : World) : World :=
  if Qltb (clock w - last_request_time self) (min_delay self)
  then slept (min_delay self - (clock w - last_request_time self)) w
  else w.

Definition after_window (limit : Z) (span : Q) (self : RateLimiter) (w : World)
    : World :=
  let cutoff := clock w - span in
  if (limit <=? count_newer cutoff (items (request_times self)))%Z
  then slept (span
              - (clock w
                 - py_min (filter (fun t => Qltb cutoff t)
                             (items (request_times self))) cutoff)
              + 1) w
  else w.

Definition after_windows (self : RateLimiter) (w : World) : World :=
  after_window (requests_per_hour self) 3600 self
    (after_window (requests_per_minute self) 60 self
       (after_min_delay self w)).

(** The total time asked of [time.sleep] so far. *)
Definition total_sleep (w : World) : Q := fold_right Qplus 0 (sleeps w).

(** The governor as [RateLimiter_init] leaves it, with all its arguments given. *)
Definition fresh (rpm rph : Z) (md : Q) : RateLimiter :=
  {| requests_per_minute := rpm;
     requests_per_hour := rph;
     min_delay := md;
     request_times := {| items := []; maxlen := rph |};
     last_request_time := 0;
     consecutive_errors := 0;
     max_backoff := 300 |}.

(** ** The governor in binary64

    The definitions above take a Python [float] for a rational.  Here
    [RateLimiter.__init__] and [RateLimiter.wait] are written once more with
    IEEE 754 binary64 numbers, the [float] of Python itself: [time.time()]
    returns a double, and every operation of [wait] rounds as Python's does.
    The clock of this world holds the reading of [time.time()]; a sleep moves
    it by the length asked for and by the lateness of the sleep, rounded to
    the nearest double as a reading is. *)

Module Binary64.
Import PrimFloat.

Declare Scope b64_scope.
Delimit Scope b64_scope with b64.

Record World : Type := mkWorld {
  clock : float;
  sleeps : list float;
  lateness : list float
}.

Definition M (A : Type) : Type := World -> result (A * World).

Definition ret {A} (a : A) : M A := fun w => Ok (a, w).

Definition lift {A} (r : result A) : M A :=
  fun w => match r with
           | Ok a => Ok (a, w)
           | Raise e => Raise e
           end.

Definition bind {A B} (m : M A) (k : A -> M B) : M B :=
  fun w => match m w with
           | Ok (a, w') => k a w'
           | Raise e => Raise e
           end.

Notation "x <- c1 ;; c2" := (bind c1 (fun x => c2))
  (at level 61, c1 at next level, right associativity) : b64_scope.
Notation "c1 ;; c2" := (bind c1 (fun _ => c2))
  (at level 61, right associativity) : b64_scope.

Local Open Scope b64_scope.
Local Open Scope float_scope.

(** [time.time()] *)
Definition time_time : M float := fun w => Ok (clock w, w).

Definition slept (secs : float) (w : World) : World :=
  {| clock := clock w + secs + hd 0 (lateness w);
     sleeps := sleeps w ++ [secs];
     lateness := tl (lateness w) |}.

(** [time.sleep(secs)].  CPython refuses a NaN, then a length whose
    nanoseconds leave the range of 64 bits, then a negative length; a length
    of [2**63] nanoseconds itself passes the range check and comes out
    negative. *)
Definition time_sleep (secs : float) : M unit :=
  fun w =>
    let nanos := secs * 1000000000 in
    if is_nan secs
    then Raise (ValueError "Invalid value NaN (not a number)")
    else if (nanos <? - 9223372036854775808) || (9223372036854775808 <? nanos)
    then Raise (OverflowError "timestamp too large to convert to C _PyTime_t")
    else if (secs <? 0) || (nanos =? 9223372036854775808)
    then Raise (ValueError "sleep length must be non-negative")
    else Ok (tt, slept secs w).

(** Time that passes between two calls on the governor. *)
Definition elapse (d : float) (w : World) : World :=
  {| clock := clock w + d; sleeps := sleeps w; lateness := lateness w |}.

Record deque : Type := mkDeque {
  items : list float;
  maxlen : Z
}.

Definition deque_new (n : Z) : result deque :=
  if negb (ssize_t_fits n)
  then Raise (OverflowError "Python int too large to convert to C ssize_t")
  else if (n <? 0)%Z then Raise (ValueError "maxlen must be non-negative")
  else Ok {| items := []; maxlen := n |}.

Definition deque_append (d : deque) (x : float) : deque :=
  let l := (items d ++ [x])%list in
  {| items := if (maxlen d <? Z.of_nat (List.length l))%Z then tl l else l;
     maxlen := maxlen d |}.

(** [sum(1 for t in request_times if t > cutoff)] *)
Definition count_newer (cutoff : float) (l : list float) : Z :=
  Z.of_nat (List.length (filter (fun t => cutoff <? t) l)).

(** [min(iterable, default=d)] *)
Fixpoint min_from (m : float) (l : list float) : float :=
  match l with
  | [] => m
  | t :: l' => min_from (if t <? m then t else m) l'
  end.

Definition py_min (l : list float) (default : float) : float :=
  match l with
  | [] => default
  | t :: l' => min_from t l'
  end.

Record RateLimiter : Type := mkRateLimiter {
  requests_per_minute : Z;
  requests_per_hour : Z;
  min_delay : float;
  request_times : deque;
  last_request_time : float;
  consecutive_errors : Z;
  max_backoff : Z
}.

(** [RateLimiter.__init__] *)
Definition RateLimiter_init (requests_per_minute requests_per_hour : option Z)
    (min_delay : option float) : result RateLimiter :=
  let rpm := with_default 30%Z requests_per_minute in
  let rph := with_default 500%Z requests_per_hour in
  let md := with_default 2 min_delay in
  match deque_new rph with
  | Raise e => Raise e
  | Ok dq =>
      Ok {| requests_per_minute := rpm;
            requests_per_hour := rph;
            min_delay := md;
            request_times := dq;
            last_request_time := 0;
            consecutive_errors := 0;
            max_backoff := 300 |}
  end.

(** "Enforce minimum delay between requests" *)
Definition enforce_min_delay (self : RateLimiter) (current_time : float)
    : M float :=
  let time_since_last := current_time - last_request_time self in
  if time_since_last <? min_delay self then
    let sleep_time := min_delay self - time_since_last in
    time_sleep sleep_time ;;
    time_time
  else ret current_time.

(** "Check per-minute limit (sliding window)" *)
Definition check_per_minute (self : RateLimiter) (current_time : float)
    : M float :=
  let one_minute_ago := current_time - 60 in
  let recent_requests :=
    count_newer one_minute_ago (items (request_times self)) in
  if (requests_per_minute self <=? recent_requests)%Z then
    let oldest_in_window :=
      py_min (filter (fun t => one_minute_ago <? t)
                (items (request_times self)))
             one_minute_ago in
    let wait_time := 60 - (current_time - oldest_in_window) + 1 in
    time_sleep wait_time ;;
    time_time
  else ret current_time.

(** "Check per-hour limit" *)
Definition check_per_hour (self : RateLimiter) (current_time : float)
    : M float :=
  let one_hour_ago := current_time - 3600 in
  let hour_requests :=
    count_newer one_hour_ago (items (request_times self)) in
  if (requests_per_hour self <=? hour_requests)%Z then
    let oldest_in_hour :=
      py_min (filter (fun t => one_hour_ago <? t)
                (items (request_times self)))
             one_hour_ago in
    let wait_time := 3600 - (current_time - oldest_in_hour) + 1 in
    time_sleep wait_time ;;
    time_time
  else ret current_time.

(** [float(2**k)], the conversion that [min_delay * (2**k)] applies: exact up
    to [2**1023], an [OverflowError] beyond. *)
Definition float_of_pow2 (k : Z) : result float :=
  if (k <? 1024)%Z then Ok (FloatOps.Z.ldexp 1 k)
  else Raise (OverflowError "int too large to convert to float").

(** An [int] as a [float]: exact for the integers from 0 to [2**53], which
    hold the one value, 300, that the class gives [max_backoff]. *)
Definition float_of_small_int (n : Z) : float := of_uint63 (Uint63.of_Z n).

(** "Exponential backoff for consecutive errors"; [min(x, cap)] is [cap] when
    [cap < x] and [x] otherwise. *)
Definition exponential_backoff (self : RateLimiter) (current_time : float)
    : M float :=
  if (0 <? consecutive_errors self)%Z then
    power <- lift (float_of_pow2 (consecutive_errors self)) ;;
    let product := min_delay self * power in
    let cap := float_of_small_int (max_backoff self) in
    let backoff := if cap <? product then cap else product in
    time_sleep backoff ;;
    time_time
  else ret current_time.

(** "Record this request" *)
Definition record_request (self : RateLimiter) (current_time : float)
    : RateLimiter :=
  {| requests_per_minute := requests_per_minute self;
     requests_per_hour := requests_per_hour self;
     min_delay := min_delay self;
     request_times := deque_append (request_times self) current_time;
     last_request_time := current_time;
     consecutive_errors := consecutive_errors self;
     max_backoff := max_backoff self |}.

(** [RateLimiter.wait] *)
Definition wait (self : RateLimiter) : M RateLimiter :=
  current_time <- time_time ;;
  current_time <- enforce_min_delay self current_time ;;
  current_time <- check_per_minute self current_time ;;
  current_time <- check_per_hour self current_time ;;
  current_time <- exponential_backoff self current_time ;;
  ret (record_request self current_time).

End Binary64.

(** ** The client and the worker: [LucidaClient], [SpotifyToFlac]

    The browser, the file system and the console are external.  What the code
    does to them is recorded as the list of events it emits; what they answer
    is read from a script given in advance. *)

Module Sync.

Inductive message : Type :=
| MsgNavigating (url : string)
| MsgWaitingForButton
| MsgCaptcha
| MsgClicking
| MsgDownloadStarting (filename : string)
| MsgSearching (query : string)
| MsgSearchFailed (query err : string)
| MsgProcessing (name : string)
| MsgRetryingSearch (attempt : nat)
| MsgSkipping (name : string)
| MsgRetryingDownload (attempt : nat)
| MsgCompleted (safe_name : string)
| MsgAttemptFailed (attempt : nat) (err : string)
| MsgPermanentFailure (safe_name : string)
| MsgWorkerError (name err : string).

Inductive event : Type :=
| Governor (c : call)            (* a call on [client.rate_limiter] *)
| AsyncSleep (secs : Q)          (* [await asyncio.sleep(secs)] *)
| SemaphoreEnter
| SemaphoreExit
| NewPage
| PageSetup
| Goto (url : string)            (* [page.goto(url)] *)
| WaitForSelector
| ListLinks
| Click
| MakeDirs (path : string)       (* [os.makedirs(path, exist_ok=True)] *)
| MakeParentDirs (path : string) (* [os.makedirs(os.path.dirname(path), ...)] *)
| SaveAs (path : string)
| ClosePage
| Print (m : message)
| PlaywrightStart                (* entering [async with async_playwright()] *)
| BrowserLaunch                  (* [p.chromium.launch(headless=True)] *)
| BrowserClose                   (* [browser.close()] *)
| PlaywrightStop.                (* leaving the [async with] block *)

Inductive outcome (A : Type) : Type :=
| Returned (a : A)
| Raised (err : string).

Arguments Returned {A} a.
Arguments Raised {A} err.

(** A task is what it returns or raises, with the events it emitted. *)
Definition Task (A : Type) : Type := (outcome A * list event)%type.

Definition done {A} (a : A) : Task A := (Returned a, []).

Definition raise {A} (err : string) : Task A := (Raised err, []).

Definition andthen {A B} (m : Task A) (k : A -> Task B) : Task B :=
  match m with
  | (Returned a, evs) => let (r, evs') := k a in (r, evs ++ evs')
  | (Raised err, evs) => (Raised err, evs)
  end.

(** [try: m  except Exception as e: h e] *)
Definition try_except {A} (m : Task A) (h : string -> Task A) : Task A :=
  match m with
  | (Returned a, evs) => (Returned a, evs)
  | (Raised err, evs) => let (r, evs') := h err in (r, evs ++ evs')
  end.

(** [try: m  finally: f], for an [f] that swallows its own exceptions. *)
Definition try_finally {A} (m : Task A) (f : Task unit) : Task A :=
  let (r, evs) := m in (r, evs ++ snd f).

Notation "x <~ c1 ;; c2" := (andthen c1 (fun x => c2))
  (at level 61, c1 at next level, right associativity).
Notation "c1 ;;; c2" := (andthen c1 (fun _ => c2))
  (at level 61, right associativity).

Definition emit (e : event) : Task unit := (Returned tt, [e]).

(** An external operation: it is attempted, and raises when the script says so. *)
Definition external (e : event) (answer : option string) : Task unit :=
  emit e ;;;
  match answer with
  | None => done tt
  | Some err => raise err
  end.

(** [class LucidaClient] (the HTTP session is left out: no method uses it). *)
Record LucidaClient : Type := mkLucidaClient {
  base_url : string;
  timeout : Z;
  rate_limiter : RateLimiter
}.

(** [LucidaClient.__init__] *)
Definition LucidaClient_init (base_url : option string) (timeout : option Z)
    (requests_per_minute requests_per_hour : option Z) : result LucidaClient :=
  match RateLimiter_init
          (Some (with_default 30%Z requests_per_minute))
          (Some (with_default 500%Z requests_per_hour))
          (Some 2) with
  | Raise e => Raise e
  | Ok rl => Ok {| base_url := with_default "https://lucida.to"%string base_url;
                   timeout := with_default 30%Z timeout;
                   rate_limiter := rl |}
  end.

(** [LucidaClient._rate_limit], "Apply rate limiting before making requests":
    the one place of the client that calls [rate_limiter.wait()]. *)
Definition _rate_limit (self : LucidaClient) : Task unit :=
  emit (Governor CallWait).

(** What the browser and the file system answer during one call of
    [download_track].  An [option string] is [None] when the operation
    succeeds and [Some err] when it raises [err].  The two visibility checks
    of a poll are taken to answer. *)
Record DownloadScript : Type := mkDownloadScript {
  makedirs_raises : option string;
  goto_raises : option string;
  button_visible : nat -> bool;        (* at poll [i] *)
  captcha_visible : nat -> bool;       (* at poll [i] *)
  captcha_wait_raises : option string;
  selector_wait_raises : option string;
  click_raises : option string;        (* the click, or the wait for the
                                          download that it starts *)
  suggested_filename : string;
  parent_makedirs_raises : option string;
  save_raises : option string;
  file_exists : bool;
  getsize_raises : option string;
  file_size : Z;
  own_start_raises : option string;    (* the four steps of a call without *)
  own_launch_raises : option string;   (* a page: starting Playwright,     *)
  own_new_page_raises : option string; (* launching the browser, opening   *)
  own_close_raises : option string     (* its page and closing the browser *)
}.

(** The dictionary returned by [download_track]. *)
Inductive DownloadResult : Type :=
| DownloadOk (filepath : string) (size : Z)
| DownloadFailed (error : string).

Definition success (r : DownloadResult) : bool :=
  match r with DownloadOk _ _ => true | DownloadFailed _ => false end.

Definition error_of (r : DownloadResult) : string :=
  match r with DownloadOk _ _ => "None"%string | DownloadFailed e => e end.

(** [for i in range(150)]: the wait for the download button; [n] polls are
    left and [i] is the loop index.  Returns [button_found]. *)
Fixpoint poll_button (s : DownloadScript) (n i : nat) : Task bool :=
  match n with
  | O => done false
  | S n' =>
      if button_visible s i then done true
      else if captcha_visible s i then
        emit (Print MsgCaptcha) ;;;
        external WaitForSelector (captcha_wait_raises s) ;;;
        done true
      else
        emit (AsyncSleep (1 # 10)) ;;;
        poll_button s n' (S i)
  end.

(** [os.path.join], and [os.path.abspath] taken as the identity. *)
Definition path_join (dir name : string) : string :=
  (dir ++ "/" ++ name)%string.

(** [_perform_download_async], the inner function of [download_track]. *)
Definition _perform_download_async (self : LucidaClient) (download_dir url : string)
    (output_path : option string) (s : DownloadScript) : Task DownloadResult :=
  try_except
    (external (MakeDirs download_dir) (makedirs_raises s) ;;;
     emit (Print (MsgNavigating url)) ;;;
     external (Goto (base_url self ++ "?url=" ++ url)%string) (goto_raises s) ;;;
     emit (Print MsgWaitingForButton) ;;;
     button_found <~ poll_button s 150 0 ;;
     if negb button_found then
       done (DownloadFailed "Download button never appeared.")
     else
       external WaitForSelector (selector_wait_raises s) ;;;
       emit (AsyncSleep (3 # 10)) ;;;
       emit (Print MsgClicking) ;;;
       external Click (click_raises s) ;;;
       emit (Print (MsgDownloadStarting (suggested_filename s))) ;;;
       let final_path :=
         match output_path with
         | Some p => p
         | None => path_join download_dir (suggested_filename s)
         end in
       external (MakeParentDirs final_path) (parent_makedirs_raises s) ;;;
       external (SaveAs final_path) (save_raises s) ;;;
       if file_exists s then
         match getsize_raises s with
         | Some err => raise err
         | None => done (DownloadOk final_path (file_size s))
         end
       else done (DownloadFailed ("File saved but not found at: " ++ final_path)))
    (fun e => done (DownloadFailed e)).

(** [LucidaClient.download_track].  With no [page] the source starts
    Playwright, launches a browser of its own, opens a page, runs the same
    inner function and closes the browser; none of these four steps is inside
    a [try], and leaving the [async with] block stops Playwright on every
    path. *)
Definition download_track (self : LucidaClient) (download_dir url : string)
    (output_path : option string) (page : bool) (s : DownloadScript)
    : Task DownloadResult :=
  if page then _perform_download_async self download_dir url output_path s
  else
    external PlaywrightStart (own_start_raises s) ;;;
    try_finally
      (external BrowserLaunch (own_launch_raises s) ;;;
       external NewPage (own_new_page_raises s) ;;;
       result <~ _perform_download_async self download_dir url output_path s ;;
       external BrowserClose (own_close_raises s) ;;;
       done result)
      (emit PlaywrightStop).

(** What Amazon's page answers during one search. *)
Record SearchScript : Type := mkSearchScript {
  search_goto_raises : option string;
  links : string + list string           (* [inl err]: listing the links raises *)
}.

Definition contains (needle s : string) : bool :=
  match String.index 0 needle s with Some _ => true | None => false end.

(** [urllib.parse.quote] is not modelled: the query goes into the URL as it is. *)
Definition search_url (query : string) : string :=
  ("https://music.amazon.com/search/" ++ query)%string.

(** [SpotifyToFlac.get_direct_amazon_link_async] *)
Definition get_direct_amazon_link_async (query : string) (s : SearchScript)
    : Task (option string) :=
  emit (Print (MsgSearching query)) ;;;
  try_except
    (external (Goto (search_url query)) (search_goto_raises s) ;;;
     try_except (emit WaitForSelector) (fun _ => done tt) ;;;
     hrefs <~ (emit ListLinks ;;;
               match links s with
               | inl err => raise err
               | inr l => done l
               end) ;;
     match find (contains "trackAsin=") hrefs with
     | Some href => done (Some href)
     | None =>
         match find (contains "/tracks/") hrefs with
         | Some href => done (Some href)
         | None => done None
         end
     end)
    (fun e => emit (Print (MsgSearchFailed query e)) ;;; done None).

Record Track : Type := mkTrack {
  query : string;
  name : string;
  artist : string
}.

(** Everything the outside answers while one track is processed. *)
Record TrackScript : Type := mkTrackScript {
  new_page_raises : option string;
  page_setup_raises : option string;
  searches : nat -> SearchScript;        (* by search attempt *)
  downloads : nat -> DownloadScript;     (* by download attempt *)
  blank_raises : nat -> option string;   (* [page.goto("about:blank")] *)
  close_raises : option string
}.

(** "RETRY LOOP FOR SEARCH": [for attempt in range(3)], with [n] rounds left.
    Returns [amazon_url]. *)
Fixpoint search_loop (t : Track) (s : TrackScript) (n attempt : nat)
    : Task (option string) :=
  match n with
  | O => done None
  | S n' =>
      (if (0 <? attempt)%nat then emit (Print (MsgRetryingSearch (attempt + 1)))
       else done tt) ;;;
      amazon_url <~ get_direct_amazon_link_async (query t) (searches s attempt) ;;
      match amazon_url with
      | Some u => done (Some u)
      | None =>
          emit (AsyncSleep 2) ;;;
          search_loop t s n' (S attempt)
      end
  end.

Definition removed_char (c : Ascii.ascii) : bool :=
  existsb (Ascii.eqb c)
    (map Ascii.ascii_of_nat [60; 62; 58; 34; 47; 92; 124; 63; 42])%nat.

(** The white space that [str.strip] removes.  A character of a [string]
    stands for the code point of its number, so the strings of the model are
    the Python strings of code points below 256; among these the white space
    is tab to carriage return, the four separators 28 to 31, the space, and
    the next-line and no-break-space characters 133 and 160. *)
Definition is_space (c : Ascii.ascii) : bool :=
  existsb (Ascii.eqb c)
    (map Ascii.ascii_of_nat [9; 10; 11; 12; 13; 28; 29; 30; 31; 32; 133; 160])%nat.

Fixpoint lstrip (l : list Ascii.ascii) : list Ascii.ascii :=
  match l with
  | c :: l' => if is_space c then lstrip l' else l
  | [] => []
  end.

(** [SpotifyToFlac._sanitize_filename]: the characters of the class
    (less-than, greater-than, colon, double quote, slash, backslash, bar,
    question mark, star) are deleted, then the result is stripped. *)
Definition _sanitize_filename (name : string) : string :=
  let kept := filter (fun c => negb (removed_char c)) (list_ascii_of_string name) in
  string_of_list_ascii (rev (lstrip (rev (lstrip kept)))).

(** "RETRY LOOP FOR DOWNLOAD": [for attempt in range(2)], with [n] rounds
    left.  Returns [success]. *)
Fixpoint download_loop (client : LucidaClient) (download_dir amazon_url
    output_path safe_name : string) (s : TrackScript) (n attempt : nat) : Task bool :=
  match n with
  | O => done false
  | S n' =>
      (if (0 <? attempt)%nat then emit (Print (MsgRetryingDownload (attempt + 1)))
       else done tt) ;;;
      result <~ download_track client download_dir amazon_url (Some output_path)
                  true (downloads s attempt) ;;
      if success result then
        emit (Print (MsgCompleted safe_name)) ;;;
        done true
      else
        emit (Print (MsgAttemptFailed (attempt + 1) (error_of result))) ;;;
        external (Goto "about:blank") (blank_raises s attempt) ;;;
        emit (AsyncSleep 2) ;;;
        download_loop client download_dir amazon_url output_path safe_name s
          n' (S attempt)
  end.

(** [SpotifyToFlac.process_track_async]; the place of the worker in the queue
    of the semaphore is not modelled. *)
Definition process_track_async (client : LucidaClient) (download_dir : string)
    (track_info : Track) (index : nat) (s : TrackScript) : Task unit :=
  emit (AsyncSleep (inject_Z (Z.of_nat index) * 5)) ;;;
  emit SemaphoreEnter ;;;
  try_finally
    (try_except
      (external NewPage (new_page_raises s) ;;;
       external PageSetup (page_setup_raises s) ;;;
       emit (Print (MsgProcessing (name track_info))) ;;;
       amazon_url <~ search_loop track_info s 3 0 ;;
       match amazon_url with
       | None =>
           emit (Print (MsgSkipping (name track_info)))
       | Some amazon_url =>
           let safe_name :=
             _sanitize_filename
               (artist track_info ++ " - " ++ name track_info ++ ".flac") in
           let output_path := path_join download_dir safe_name in
           ok <~ download_loop client download_dir amazon_url output_path
                   safe_name s 2 0 ;;
           if negb ok then emit (Print (MsgPermanentFailure safe_name))
           else done tt
       end)
      (fun e => emit (Print (MsgWorkerError (name track_info) e))))
    (match new_page_raises s with
     | None => try_except (external ClosePage (close_raises s)) (fun _ => done tt)
     | Some _ => done tt
     end) ;;;
  emit SemaphoreExit.

(** The body of [sync_playlist_async] from the creation of the tasks to
    [asyncio.gather]: one worker per track, numbered in playlist order.  The
    workers are run one after the other here; their interleaving is not
    modelled. *)
Fixpoint gather (client : LucidaClient) (download_dir : string)
    (tracks : list Track) (i : nat) (scripts : nat -> TrackScript)
    : Task unit :=
  match tracks with
  | [] => done tt
  | track :: rest =>
      process_track_async client download_dir track i (scripts i) ;;;
      gather client download_dir rest (S i) scripts
  end.

(** *** Reading a trace *)

(** The calls on the governor that a trace contains, in order. *)
Fixpoint governor_calls (tr : list event) : list call :=
  match tr with
  | [] => []
  | Governor c :: tr' => c :: governor_calls tr'
  | _ :: tr' => governor_calls tr'
  end.

Definition count_events (p : event -> bool) (tr : list event) : nat :=
  List.length (filter p tr).

(** A request sent to the rate-limited service at [base]. *)
Definition is_request_to (base : string) (e : event) : bool :=
  match e with
  | Goto url => String.prefix base url
  | _ => false
  end.

(** The start of a resolution attempt: the first thing
    [get_direct_amazon_link_async] does. *)
Definition is_search (e : event) : bool :=
  match e with Print (MsgSearching _) => true | _ => false end.

(** The start of a download attempt: the first thing [download_track] does. *)
Definition is_download (e : event) : bool :=
  match e with MakeDirs _ => true | _ => false end.

(** The pause of the retry loops, [asyncio.sleep(2)]. *)
Definition is_pause (e : event) : bool :=
  match e with AsyncSleep d => Qeq_bool d 2 | _ => false end.

Definition is_retry (e : event) : bool :=
  match e with
  | Print (MsgRetryingSearch _) | Print (MsgRetryingDownload _) => true
  | _ => false
  end.

Definition is_governor (e : event) : bool :=
  match e with Governor _ => true | _ => false end.

(** The messages that report how the work on a track ended. *)
Definition is_skipped (e : event) : bool :=
  match e with Print (MsgSkipping _) => true | _ => false end.

Definition is_permanent_failure (e : event) : bool :=
  match e with Print (MsgPermanentFailure _) => true | _ => false end.

Definition is_completed (e : event) : bool :=
  match e with Print (MsgCompleted _) => true | _ => false end.

Definition is_worker_error (e : event) : bool :=
  match e with Print (MsgWorkerError _ _) => true | _ => false end.

Definition is_worker_start (e : event) : bool :=
  match e with SemaphoreEnter => true | _ => false end.

(** The events that the retry policy is about. *)
Definition landmark (e : event) : bool :=
  is_search e || is_download e || is_pause e || is_retry e || is_governor e
  || is_skipped e || is_permanent_failure e || is_completed e
  || is_worker_error e || is_worker_start e.

Definition landmarks (tr : list event) : list event := filter landmark tr.

End Sync.

(** ** The history of a governor *)

(** The times that the [wait] calls of a sequence record, in order; a call
    that raises ends the sequence. *)
Fixpoint admissions (cs : list call) (self : RateLimiter) (w : World) : list Q :=
  match cs with
  | [] => []
  | c :: cs' =>
      match step c self w with
      | Ok (self', w') =>
          (if is_wait_call c then [last_request_time self'] else [])
          ++ admissions cs' self' w'
      | Raise _ => []
      end
  end.

(** The number of times in [l] that lie in the interval from [a] (excluded)
    to [b] (included). *)
Definition count_within (a b : Q) (l : list Q) : Z :=
  Z.of_nat (List.length (filter (fun t => Qltb a t && Qle_bool t b) l)).

Definition count_waits (cs : list call) : Z :=
  Z.of_nat (List.length (filter is_wait_call cs)).

(** The log is in the order of time, holds nothing from the future, and its
    newest entry is the last request time. *)
Record chrono (self : RateLimiter) (w : World) : Prop := mkChrono {
  chrono_sorted : StronglySorted Qle (items (request_times self));
  chrono_past : Forall (fun t => t <= clock w) (items (request_times self));
  chrono_last : last_request_time self <= clock w;
  chrono_newest :
    items (request_times self) <> [] ->
    last (items (request_times self)) 0 = last_request_time self
}.

(** No sleep is needed: the spacing is respected, both windows have room and
    no error is pending. *)
Definition clear_to_go (self : RateLimiter) (w : World) : Prop :=
  min_delay self <= clock w - last_request_time self /\
  (count_newer (clock w - 60) (items (request_times self))
   < requests_per_minute self)%Z /\
  (count_newer (clock w - 3600) (items (request_times self))
   < requests_per_hour self)%Z /\
  (consecutive_errors self <= 0)%Z.

(** What links the log to the history [hist] of all recorded times: the log
    is the newest part of the history, what it has dropped is more than an
    hour old, and no window of the history is over its limit. *)
Record hist_inv (self : RateLimiter) (w : World) (hist : list Q) : Prop :=
  mkHistInv {
  hist_gov : governor_inv self w;
  hist_chrono : chrono self w;
  hist_minute : minute_ok self w;
  hist_split :
    exists old, hist = old ++ items (request_times self) /\
                Forall (fun t => t <= clock w - 3600) old;
  hist_per_minute :
    forall a, (count_within a (a + 60) hist <= requests_per_minute self)%Z;
  hist_per_hour :
    forall a, (count_within a (a + 3600) hist <= requests_per_hour self)%Z
}.

(** ** More ways to read a trace *)


Definition is_save (e : Sync.event) : bool :=
  match e with Sync.SaveAs _ => true | _ => false end.

Definition is_new_page (e : Sync.event) : bool :=
  match e with Sync.NewPage => true | _ => false end.

Definition is_close_page (e : Sync.event) : bool :=
  match e with Sync.ClosePage => true | _ => false end.

Definition is_semaphore_exit (e : Sync.event) : bool :=
  match e with Sync.SemaphoreExit => true | _ => false end.

(** The landmarks, and the events that take and give back a resource. *)
Definition notable (e : Sync.event) : bool :=
  Sync.landmark e || is_new_page e || is_close_page e || is_semaphore_exit e.


(** What a worker may save and report for a track with the given output path
    and safe name. *)
Definition saved_as (path safe_name : string) (e : Sync.event) : Prop :=
  match e with
  | Sync.SaveAs q => q = path
  | Sync.Print (Sync.MsgCompleted n) => n = safe_name
  | Sync.Print (Sync.MsgPermanentFailure n) => n = safe_name
  | _ => True
  end.

(** No file is reported without having been saved, and every file goes to
    the one path. *)
Definition saves_in_place (path safe_name : string) (tr : list Sync.event)
    : Prop :=
  Forall (saved_as path safe_name) tr /\
  (Sync.count_events Sync.is_completed tr <= Sync.count_events is_save tr)%nat.

(** ** The playlist and the prompt loop: [get_playlist_tracks],
    [sync_playlist_async]

    Spotify, the prompt and the browser are external.  The lines typed at the
    prompt are given in advance, and so is what Spotify and the browser answer
    in each round of the loop. *)

Module Driver.
Import Sync.

(** [s.split(sep)[0]]: what comes before the first [sep]. *)
Fixpoint before_first (sep : Ascii.ascii) (l : list Ascii.ascii)
    : list Ascii.ascii :=
  match l with
  | [] => []
  | c :: l' => if Ascii.eqb c sep then [] else c :: before_first sep l'
  end.

(** [s.split(sep)[-1]]: what comes after the last [sep]. *)
Definition after_last (sep : Ascii.ascii) (l : list Ascii.ascii)
    : list Ascii.ascii :=
  rev (before_first sep (rev l)).

Definition slash : Ascii.ascii := Ascii.ascii_of_nat 47.

Definition question_mark : Ascii.ascii := Ascii.ascii_of_nat 63.

(** [playlist_url.split("/")[-1].split("?")[0]] *)
Definition playlist_id (playlist_url : string) : string :=
  string_of_list_ascii
    (before_first question_mark
       (after_last slash (list_ascii_of_string playlist_url))).

(** A track as Spotify describes it: [track['name']] and the names of
    [track['artists']].  The answers of Spotify are taken to have the keys the
    code reads. *)
Record SpotifyTrack : Type := mkSpotifyTrack {
  track_name : string;
  artist_names : list string
}.

(** The loop over [results['items']]; an item is [None] where [item['track']]
    is null.  [track['artists'][0]] raises on a track without artists. *)
Fixpoint collect_tracks (items : list (option SpotifyTrack))
    : outcome (list Track) :=
  match items with
  | [] => Returned []
  | None :: rest => collect_tracks rest
  | Some track :: rest =>
      match artist_names track with
      | [] => Raised "list index out of range"
      | first_artist :: _ =>
          match collect_tracks rest with
          | Returned tracks =>
              Returned ({| query := first_artist ++ " " ++ track_name track;
                           name := track_name track;
                           artist := first_artist |} :: tracks)
          | Raised err => Raised err
          end
      end
  end.

(** What the prompt loop does, seen from outside. *)
Inductive action : Type :=
| Ask                                   (* [Prompt.ask]: one line is read *)
| PrintInvalidUrl
| PrintFetching (id : string)
| PlaylistItems (id : string)           (* [sp.playlist_items(id)] *)
| PrintPlaylistError (err : string)
| StartPlaywright                       (* entering [async with async_playwright()] *)
| LaunchContext                         (* [launch_persistent_context] *)
| PrintSyncing (n : nat)
| InBrowser (e : event)                 (* what the workers do *)
| CloseContext                          (* [context.close()] *)
| PrintComplete
| StopPlaywright.                       (* leaving the [async with] block *)

(** [SpotifyToFlac.get_playlist_tracks]; [sp] is [self.sp.playlist_items],
    answering [inl err] when it raises. *)
Definition get_playlist_tracks
    (sp : string -> string + list (option SpotifyTrack))
    (playlist_url : string) : list Track * list action :=
  let id := playlist_id playlist_url in
  match sp id with
  | inl err => ([], [PrintFetching id; PlaylistItems id; PrintPlaylistError err])
  | inr items =>
      match collect_tracks items with
      | Returned tracks => (tracks, [PrintFetching id; PlaylistItems id])
      | Raised err =>
          ([], [PrintFetching id; PlaylistItems id; PrintPlaylistError err])
      end
  end.

(** What the outside answers during one round of the loop. *)
Record RoundScript : Type := mkRoundScript {
  playlist_items : string -> string + list (option SpotifyTrack);
  start_raises : option string;
  launch_raises : option string;
  workers : nat -> TrackScript;
  context_close_raises : option string
}.

(** The [async with async_playwright()] block of [sync_playlist_async]: the
    exception that leaves it, if any, and what it did.  Leaving the block
    stops Playwright on every path. *)
Definition sync_batch (client : LucidaClient) (download_dir : string)
    (tracks : list Track) (s : RoundScript) : option string * list action :=
  match start_raises s with
  | Some err => (Some err, [StartPlaywright])
  | None =>
      let (r, acts) :=
        match launch_raises s with
        | Some err => (Some err, [LaunchContext])
        | None =>
            let (r, evs) := gather client download_dir tracks 0 (workers s) in
            let before :=
              LaunchContext :: PrintSyncing (List.length tracks)
              :: map InBrowser evs in
            match r with
            | Raised err => (Some err, before)
            | Returned _ =>
                match context_close_raises s with
                | Some err => (Some err, before ++ [CloseContext])
                | None => (None, before ++ [CloseContext; PrintComplete])
                end
            end
        end in
      (r, StartPlaywright :: acts ++ [StopPlaywright])
  end.

Definition lower_char (c : Ascii.ascii) : Ascii.ascii :=
  let n := Ascii.nat_of_ascii c in
  if ((65 <=? n) && (n <=? 90))%nat then Ascii.ascii_of_nat (n + 32) else c.

(** [str.lower], on the letters A to Z; no other character becomes a [q]. *)
Fixpoint lower (s : string) : string :=
  match s with
  | EmptyString => EmptyString
  | String c s' => String (lower_char c) (lower s')
  end.

(** How the loop ends: by the answer [q], by an exception, or still at the
    prompt when the given answers are used up. *)
Inductive ending : Type :=
| Quit
| Crashed (err : string)
| OutOfAnswers.

(** [SpotifyToFlac.sync_playlist_async], on the lines typed at the prompt;
    [round] counts the prompts. *)
Fixpoint sync_playlist_async (client : LucidaClient) (download_dir : string)
    (outside : nat -> RoundScript) (answers : list string) (round : nat)
    : ending * list action :=
  match answers with
  | [] => (OutOfAnswers, [Ask])
  | playlist_url :: rest =>
      let again :=
        sync_playlist_async client download_dir outside rest (S round) in
      if String.eqb (lower playlist_url) "q" then (Quit, [Ask])
      else if negb (contains "spotify.com/playlist" playlist_url) then
        (fst again, Ask :: PrintInvalidUrl :: snd again)
      else
        let (tracks, fetched) :=
          get_playlist_tracks (playlist_items (outside round)) playlist_url in
        match tracks with
        | [] => (fst again, Ask :: fetched ++ snd again)
        | _ :: _ =>
            let (e, acts) :=
              sync_batch client download_dir tracks (outside round) in
            match e with
            | Some err => (Crashed err, Ask :: fetched ++ acts)
            | None => (fst again, Ask :: fetched ++ acts ++ snd again)
            end
        end
  end.

(** *** Reading what the loop did *)

(** Where the loop stands with respect to the browser. *)
Inductive phase : Type :=
| AtPrompt
| Started
| ContextOpen
| ContextClosed.

(** The order in which the browser may be used: Playwright is started from
    the prompt, the launch of a context is asked of it, the workers run and
    the count is printed only after that and before the context is closed,
    completion is printed only after the context was closed, and Playwright is
    stopped before the next prompt or request to Spotify. *)
Definition next_phase (p : phase) (a : action) : option phase :=
  match a, p with
  | (Ask | PrintInvalidUrl | PrintFetching _ | PlaylistItems _
     | PrintPlaylistError _), AtPrompt => Some AtPrompt
  | StartPlaywright, AtPrompt => Some Started
  | LaunchContext, Started => Some ContextOpen
  | (PrintSyncing _ | InBrowser _), ContextOpen => Some ContextOpen
  | CloseContext, ContextOpen => Some ContextClosed
  | PrintComplete, ContextClosed => Some ContextClosed
  | StopPlaywright, (ContextOpen | ContextClosed) => Some AtPrompt
  | _, _ => None
  end.

Fixpoint end_phase (p : phase) (tr : list action) : option phase :=
  match tr with
  | [] => Some p
  | a :: tr' =>
      match next_phase p a with
      | Some p' => end_phase p' tr'
      | None => None
      end
  end.

Definition count_actions (f : action -> bool) (tr : list action) : nat :=
  List.length (filter f tr).

Definition is_ask (a : action) : bool :=
  match a with Ask => true | _ => false end.

Definition is_fetch (a : action) : bool :=
  match a with PlaylistItems _ => true | _ => false end.

Definition is_start (a : action) : bool :=
  match a with StartPlaywright => true | _ => false end.

Definition is_stop (a : action) : bool :=
  match a with StopPlaywright => true | _ => false end.

Definition is_launch (a : action) : bool :=
  match a with LaunchContext => true | _ => false end.

Definition is_context_close (a : action) : bool :=
  match a with CloseContext => true | _ => false end.

(** The items of a playlist that hold a track. *)
Fixpoint present (items : list (option SpotifyTrack)) : list SpotifyTrack :=
  match items with
  | [] => []
  | None :: rest => present rest
  | Some t :: rest => t :: present rest
  end.

End Driver.

(** ** Scripts for worked examples *)

Module Scripts.
Import Sync.

(** A download on which every step succeeds at once. *)
Definition smooth_download : DownloadScript :=
  {| makedirs_raises := None;
     goto_raises := None;
     button_visible := fun _ => true;
     captcha_visible := fun _ => false;
     captcha_wait_raises := None;
     selector_wait_raises := None;
     click_raises := None;
     suggested_filename := "track.flac";
     parent_makedirs_raises := None;
     save_raises := None;
     file_exists := true;
     getsize_raises := None;
     file_size := 1024;
     own_start_raises := None;
     own_launch_raises := None;
     own_new_page_raises := None;
     own_close_raises := None |}.

(** A download on which navigation times out. *)
Definition stuck_download : DownloadScript :=
  {| makedirs_raises := None;
     goto_raises := Some "Timeout 90000ms exceeded."%string;
     button_visible := fun _ => false;
     captcha_visible := fun _ => false;
     captcha_wait_raises := None;
     selector_wait_raises := None;
     click_raises := None;
     suggested_filename := "track.flac";
     parent_makedirs_raises := None;
     save_raises := None;
     file_exists := false;
     getsize_raises := None;
     file_size := 0;
     own_start_raises := None;
     own_launch_raises := None;
     own_new_page_raises := None;
     own_close_raises := None |}.

Definition found_search : SearchScript :=
  {| search_goto_raises := None;
     links := inr ["https://music.amazon.com/help";
                   "https://music.amazon.com/albums/B0?trackAsin=B1"]%string |}.

Definition empty_search : SearchScript :=
  {| search_goto_raises := None; links := inr [] |}.

(** Every search finds the link and every download goes through. *)
Definition smooth_track : TrackScript :=
  {| new_page_raises := None;
     page_setup_raises := None;
     searches := fun _ => found_search;
     downloads := fun _ => smooth_download;
     blank_raises := fun _ => None;
     close_raises := None |}.

(** No search ever finds a link. *)
Definition unresolved_track : TrackScript :=
  {| new_page_raises := None;
     page_setup_raises := None;
     searches := fun _ => empty_search;
     downloads := fun _ => smooth_download;
     blank_raises := fun _ => None;
     close_raises := None |}.

(** The link is found at once but no download goes through. *)
Definition undownloadable_track : TrackScript :=
  {| new_page_raises := None;
     page_setup_raises := None;
     searches := fun _ => found_search;
     downloads := fun _ => stuck_download;
     blank_raises := fun _ => None;
     close_raises := None |}.

Definition a_client : LucidaClient :=
  {| base_url := "https://lucida.to";
     timeout := 30;
     rate_limiter := fresh 30 500 2 |}.

Definition a_track : Track :=
  {| query := "Jake Cornell Back To You";
     name := "Back To You";
     artist := "Jake Cornell" |}.

End Scripts.

(** * Properties of the governor *)

(** ** Comparisons, counting and the deque *)

Lemma Qltb_lt (x y : Q) : Qltb x y = true <-> x < y.
Proof.
  unfold Qltb. rewrite negb_true_iff.
  destruct (Qle_bool y x) eqn:E.
  - apply Qle_bool_iff in E. split; [discriminate | intro; lra].
  - split; [intros _ | reflexivity].
    apply Qnot_le_lt. intro H. apply Qle_bool_iff in H. congruence.
Qed.

Lemma Qltb_ge (x y : Q) : Qltb x y = false <-> y <= x.
Proof.
  destruct (Qltb x y) eqn:E.
  - apply Qltb_lt in E. split; [discriminate | intro; lra].
  - split; [intros _ | reflexivity].
    apply Qnot_lt_le. intro H. apply Qltb_lt in H. congruence.
Qed.

Lemma count_newer_nonneg (c : Q) (l : list Q) : (0 <= count_newer c l)%Z.
Proof. unfold count_newer. lia. Qed.

Lemma count_newer_le_length (c : Q) (l : list Q) :
  (count_newer c l <= Z.of_nat (List.length l))%Z.
Proof.
  unfold count_newer. apply inj_le. apply filter_length_le.
Qed.

Lemma count_newer_cons (c t : Q) (l : list Q) :
  count_newer c (t :: l) =
  ((if Qltb c t then 1 else 0) + count_newer c l)%Z.
Proof.
  unfold count_newer. simpl. destruct (Qltb c t); simpl List.length; lia.
Qed.

Lemma count_newer_app (c : Q) (l1 l2 : list Q) :
  count_newer c (l1 ++ l2) = (count_newer c l1 + count_newer c l2)%Z.
Proof.
  unfold count_newer. rewrite filter_app, length_app. lia.
Qed.

(** A later cutoff keeps fewer entries. *)
Lemma count_newer_mono (c1 c2 : Q) (l : list Q) :
  c1 <= c2 -> (count_newer c2 l <= count_newer c1 l)%Z.
Proof.
  intro H. induction l as [|t l IH].
  - reflexivity.
  - rewrite !count_newer_cons.
    destruct (Qltb c2 t) eqn:E2; destruct (Qltb c1 t) eqn:E1; try lia.
    apply Qltb_lt in E2. apply Qltb_ge in E1. lra.
Qed.

(** Moving the cutoff up to an entry of the window loses that entry. *)
Lemma count_newer_drop (c x : Q) (l : list Q) :
  In x l -> c < x -> (count_newer x l + 1 <= count_newer c l)%Z.
Proof.
  intros Hin Hc. induction l as [|t l IH]; [contradiction|].
  rewrite !count_newer_cons. destruct Hin as [->|Hin].
  - assert (E1 : Qltb x x = false) by (apply Qltb_ge; lra).
    assert (E2 : Qltb c x = true) by (apply Qltb_lt; exact Hc).
    rewrite E1, E2.
    assert (Hle : c <= x) by lra.
    pose proof (count_newer_mono c x l Hle). lia.
  - specialize (IH Hin).
    destruct (Qltb x t) eqn:E1; destruct (Qltb c t) eqn:E2; try lia.
    apply Qltb_lt in E1. apply Qltb_ge in E2. lra.
Qed.

Lemma count_newer_tl (c : Q) (l : list Q) :
  (count_newer c (tl l) <= count_newer c l)%Z.
Proof.
  destruct l as [|t l]; [reflexivity|]. simpl tl. rewrite count_newer_cons.
  destruct (Qltb c t); lia.
Qed.

Lemma min_from_in (m : Q) (l : list Q) : In (min_from m l) (m :: l).
Proof.
  revert m. induction l as [|t l IH]; intro m; simpl.
  - now left.
  - destruct (IH (if Qltb t m then t else m)) as [H|H].
    + destruct (Qltb t m); [right; left | left]; exact H.
    + right; right; exact H.
Qed.

Lemma py_min_in (l : list Q) (d : Q) : l <> [] -> In (py_min l d) l.
Proof.
  destruct l as [|t l]; [congruence|]. intros _. apply min_from_in.
Qed.

(** The oldest entry of a window is newer than the window's start; with an
    empty window it is the start itself. *)
Lemma oldest_in_window_bound (cutoff : Q) (l : list Q) :
  cutoff <= py_min (filter (fun t => Qltb cutoff t) l) cutoff.
Proof.
  destruct (filter (fun t => Qltb cutoff t) l) as [|t f] eqn:E.
  - simpl. lra.
  - assert (H : In (py_min (t :: f) cutoff) (t :: f))
      by (apply py_min_in; congruence).
    rewrite <- E in H. apply filter_In in H. destruct H as [_ H].
    apply Qltb_lt in H. rewrite <- E. lra.
Qed.

Lemma deque_append_maxlen (d : deque) (x : Q) :
  maxlen (deque_append d x) = maxlen d.
Proof. reflexivity. Qed.

Lemma deque_append_length (d : deque) (x : Q) :
  (deque_len d <= maxlen d)%Z ->
  (deque_len (deque_append d x) <= maxlen d)%Z.
Proof.
  unfold deque_len, deque_append. simpl. intro H.
  destruct (maxlen d <? Z.of_nat (List.length (items d ++ [x])))%Z eqn:E.
  - apply Z.ltb_lt in E. rewrite length_app in E.
    destruct (items d) as [|t l]; simpl List.length in *; [lia|].
    rewrite length_app. simpl List.length. lia.
  - apply Z.ltb_ge in E. exact E.
Qed.

Lemma deque_append_count (c : Q) (d : deque) (x : Q) :
  (count_newer c (items (deque_append d x)) <= count_newer c (items d) + 1)%Z.
Proof.
  unfold deque_append. simpl.
  assert (H : (count_newer c (items d ++ [x]) <= count_newer c (items d) + 1)%Z).
  { rewrite count_newer_app, count_newer_cons.
    destruct (Qltb c x); unfold count_newer; simpl; lia. }
  destruct (maxlen d <? Z.of_nat (List.length (items d ++ [x])))%Z; [|exact H].
  pose proof (count_newer_tl c (items d ++ [x])). lia.
Qed.

(** ** Sleeping *)

Lemma time_sleep_ok (d : Q) (w : World) :
  0 <= d -> time_sleep d w = Ok (tt, slept d w).
Proof.
  intro H. unfold time_sleep.
  assert (E : Qltb d 0 = false) by (apply Qltb_ge; exact H).
  now rewrite E.
Qed.

Lemma time_sleep_negative (d : Q) (w : World) :
  d < 0 -> exists e, time_sleep d w = Raise e.
Proof.
  intro H. unfold time_sleep.
  assert (E : Qltb d 0 = true) by (apply Qltb_lt; exact H).
  rewrite E. eauto.
Qed.

Lemma slept_world_ok (d : Q) (w : World) :
  world_ok w -> world_ok (slept d w).
Proof.
  unfold world_ok, slept. simpl. intro H.
  destruct (lateness w) as [|x l]; simpl; [constructor|].
  now inversion H.
Qed.

Lemma slept_clock (d : Q) (w : World) :
  world_ok w -> clock w + d <= clock (slept d w).
Proof.
  unfold world_ok, slept. simpl. intro H.
  destruct (lateness w) as [|x l]; simpl; [lra|].
  inversion H; subst. lra.
Qed.

(** ** The blocks of [wait] as functions on worlds *)

Lemma window_wait_time_pos (span c : Q) (l : list Q) :
  1 <= span - (c - py_min (filter (fun t => Qltb (c - span) t) l) (c - span)) + 1.
Proof.
  pose proof (oldest_in_window_bound (c - span) l). lra.
Qed.

Lemma enforce_min_delay_eq (self : RateLimiter) (w : World) :
  enforce_min_delay self (clock w) w =
  Ok (clock (after_min_delay self w), after_min_delay self w).
Proof.
  unfold enforce_min_delay, after_min_delay.
  destruct (Qltb (clock w - last_request_time self) (min_delay self)) eqn:E.
  - apply Qltb_lt in E. unfold bind. rewrite time_sleep_ok by lra. reflexivity.
  - reflexivity.
Qed.

Lemma check_per_minute_eq (self : RateLimiter) (w : World) :
  check_per_minute self (clock w) w =
  Ok (clock (after_window (requests_per_minute self) 60 self w),
      after_window (requests_per_minute self) 60 self w).
Proof.
  unfold check_per_minute, after_window. cbv zeta.
  destruct (requests_per_minute self <=? _)%Z; [|reflexivity].
  unfold bind. rewrite time_sleep_ok; [reflexivity|].
  pose proof (window_wait_time_pos 60 (clock w) (items (request_times self))). lra.
Qed.

Lemma check_per_hour_eq (self : RateLimiter) (w : World) :
  check_per_hour self (clock w) w =
  Ok (clock (after_window (requests_per_hour self) 3600 self w),
      after_window (requests_per_hour self) 3600 self w).
Proof.
  unfold check_per_hour, after_window. cbv zeta.
  destruct (requests_per_hour self <=? _)%Z; [|reflexivity].
  unfold bind. rewrite time_sleep_ok; [reflexivity|].
  pose proof (window_wait_time_pos 3600 (clock w) (items (request_times self))). lra.
Qed.

(** Steps 1 to 3 always go through. *)
Lemma wait_windows_eq (self : RateLimiter) (w : World) :
  wait_windows self w = Ok (clock (after_windows self w), after_windows self w).
Proof.
  unfold wait_windows, after_windows, bind at 1, time_time.
  unfold bind at 1. rewrite enforce_min_delay_eq.
  unfold bind at 1. rewrite check_per_minute_eq.
  apply check_per_hour_eq.
Qed.

(** [wait] is steps 1 to 3, then the backoff sleep if there were errors, then
    the recording of the request. *)
Lemma wait_eq (self : RateLimiter) (w : World) :
  wait self w =
  let w3 := after_windows self w in
  if (0 <? consecutive_errors self)%Z then
    if (Z.abs (2 ^ consecutive_errors self) <? float_int_limit)%Z then
      if Qltb (backoff_of self) 0
      then Raise (ValueError "sleep length must be non-negative")
      else Ok (record_request self (clock (slept (backoff_of self) w3)),
               slept (backoff_of self) w3)
    else Raise (OverflowError "int too large to convert to float")
  else Ok (record_request self (clock w3), w3).
Proof.
  unfold wait, after_windows, bind at 1, time_time.
  unfold bind at 1. rewrite enforce_min_delay_eq.
  unfold bind at 1. rewrite check_per_minute_eq.
  unfold bind at 1. rewrite check_per_hour_eq.
  unfold exponential_backoff, float_of_int. cbv zeta.
  destruct (0 <? consecutive_errors self)%Z; [|reflexivity].
  destruct (Z.abs (2 ^ consecutive_errors self) <? float_int_limit)%Z;
    [|reflexivity].
  unfold bind, lift, ret, time_sleep, time_time. fold (backoff_of self).
  destruct (Qltb (backoff_of self) 0); reflexivity.
Qed.

Lemma after_min_delay_ok (self : RateLimiter) (w : World) :
  world_ok w ->
  world_ok (after_min_delay self w) /\
  clock w <= clock (after_min_delay self w) /\
  last_request_time self + min_delay self <= clock (after_min_delay self w).
Proof.
  intro H. unfold after_min_delay.
  destruct (Qltb _ _) eqn:E.
  - apply Qltb_lt in E.
    pose proof (slept_clock (min_delay self - (clock w - last_request_time self)) w H).
    split; [now apply slept_world_ok | split; lra].
  - apply Qltb_ge in E. split; [exact H | split; lra].
Qed.

Lemma after_window_ok (limit : Z) (span : Q) (self : RateLimiter) (w : World) :
  world_ok w ->
  world_ok (after_window limit span self w) /\
  clock w <= clock (after_window limit span self w).
Proof.
  intro H. unfold after_window. cbv zeta.
  destruct (limit <=? _)%Z.
  - pose proof (window_wait_time_pos span (clock w) (items (request_times self))).
    split; [now apply slept_world_ok|].
    eapply Qle_trans; [|apply (slept_clock _ w H)]. lra.
  - split; [exact H | lra].
Qed.

(** After a window check the window has room for one more request, provided
    it was not over its limit before. *)
Lemma after_window_room (limit : Z) (span : Q) (self : RateLimiter) (w : World) :
  world_ok w -> (1 <= limit)%Z ->
  (count_newer (clock w - span) (items (request_times self)) <= limit)%Z ->
  (count_newer (clock (after_window limit span self w) - span)
     (items (request_times self)) < limit)%Z.
Proof.
  intros Hw Hl Hc. unfold after_window. cbv zeta.
  set (l := items (request_times self)) in *.
  set (cutoff := clock w - span) in *.
  destruct (limit <=? count_newer cutoff l)%Z eqn:E.
  - apply Z.leb_le in E.
    set (oldest := py_min (filter (fun t => Qltb cutoff t) l) cutoff).
    assert (Hin : In oldest (filter (fun t => Qltb cutoff t) l)).
    { apply py_min_in. intro Hnil. unfold count_newer in E.
      rewrite Hnil in E. simpl in E. lia. }
    apply filter_In in Hin. destruct Hin as [Hin Hlt]. apply Qltb_lt in Hlt.
    pose proof (count_newer_drop cutoff oldest l Hin Hlt) as Hd.
    pose proof (slept_clock (span - (clock w - oldest) + 1) w Hw) as Hs.
    assert (Hle : oldest <= clock (slept (span - (clock w - oldest) + 1) w) - span)
      by lra.
    pose proof (count_newer_mono _ _ l Hle). lia.
  - apply Z.leb_gt in E. exact E.
Qed.

(** ** Invariants along a sequence of calls *)

Lemma inject_Z_nonneg (z : Z) : (0 <= z)%Z -> 0 <= inject_Z z.
Proof. intro H. unfold Qle. simpl. lia. Qed.

Lemma backoff_nonneg (self : RateLimiter) :
  0 <= min_delay self -> (0 <= max_backoff self)%Z -> 0 <= backoff_of self.
Proof.
  intros Hd Hc. unfold backoff_of.
  assert (H1 : 0 <= min_delay self * inject_Z (2 ^ consecutive_errors self)).
  { apply Qmult_le_0_compat; [exact Hd|].
    apply inject_Z_nonneg. apply Z.pow_nonneg. lia. }
  pose proof (inject_Z_nonneg _ Hc) as H2.
  apply Q.min_glb; assumption.
Qed.

Lemma init_fresh (rpm rph : option Z) (md : option Q) (self : RateLimiter) :
  RateLimiter_init rpm rph md = Ok self ->
  self = fresh (with_default 30%Z rpm) (with_default 500%Z rph) (with_default 2 md)
  /\ (0 <= requests_per_hour self)%Z.
Proof.
  unfold RateLimiter_init, deque_new. intro H.
  destruct (negb (ssize_t_fits (with_default 500%Z rph))); [discriminate|].
  destruct (with_default 500%Z rph <? 0)%Z eqn:E; [discriminate|].
  apply Z.ltb_ge in E. inversion H; subst; clear H. split; [reflexivity | exact E].
Qed.

Lemma fresh_inv (rpm rph : Z) (md : Q) (w : World) :
  (0 <= rph)%Z -> world_ok w -> governor_inv (fresh rpm rph md) w.
Proof.
  intros H Hw. constructor; simpl; try assumption; try reflexivity; try lia.
Qed.

Lemma after_windows_ok (self : RateLimiter) (w : World) :
  world_ok w ->
  world_ok (after_windows self w) /\
  clock w <= clock (after_windows self w) /\
  last_request_time self + min_delay self <= clock (after_windows self w).
Proof.
  intro Hw. unfold after_windows.
  destruct (after_min_delay_ok self w Hw) as (H1 & C1 & D1).
  destruct (after_window_ok (requests_per_minute self) 60 self _ H1) as (H2 & C2).
  destruct (after_window_ok (requests_per_hour self) 3600 self _ H2) as (H3 & C3).
  split; [exact H3 | split; lra].
Qed.

Lemma wait_records (self self' : RateLimiter) (w w' : World) :
  wait self w = Ok (self', w') -> self' = record_request self (clock w').
Proof.
  rewrite wait_eq. cbv zeta. intro H.
  destruct (0 <? consecutive_errors self)%Z.
  - destruct (Z.abs _ <? float_int_limit)%Z; [|discriminate].
    destruct (Qltb (backoff_of self) 0); [discriminate|].
    now inversion H.
  - now inversion H.
Qed.

(** A [wait] that returns has recorded the time of its return, which is not
    before the end of steps 1 to 3. *)
Lemma wait_result (self self' : RateLimiter) (w w' : World) :
  world_ok w -> wait self w = Ok (self', w') ->
  self' = record_request self (clock w') /\ world_ok w' /\
  clock (after_windows self w) <= clock w'.
Proof.
  intros Hw H. rewrite wait_eq in H. cbv zeta in H.
  destruct (after_windows_ok self w Hw) as (H3 & _ & _).
  destruct (0 <? consecutive_errors self)%Z.
  - destruct (Z.abs _ <? float_int_limit)%Z; [|discriminate].
    destruct (Qltb (backoff_of self) 0) eqn:E; [discriminate|].
    apply Qltb_ge in E. inversion H; subst; clear H.
    pose proof (slept_clock (backoff_of self) _ H3).
    split; [reflexivity | split; [now apply slept_world_ok | lra]].
  - inversion H; subst; clear H. split; [reflexivity | split; [exact H3 | lra]].
Qed.

(** Powers of two up to [2**1023] convert to [float]; from [2**1024] on they
    do not. *)
Lemma pow2_fits (k : Z) :
  (k < 1024)%Z -> (Z.abs (2 ^ k) <? float_int_limit)%Z = true.
Proof.
  intro H. apply Z.ltb_lt.
  rewrite Z.abs_eq by (apply Z.pow_nonneg; lia).
  apply Z.le_lt_trans with (2 ^ 1023)%Z.
  - destruct (Z.neg_nonneg_cases k) as [Hn|Hp].
    + rewrite (Z.pow_neg_r 2 k Hn). apply Z.pow_nonneg. lia.
    + apply Z.pow_le_mono_r; lia.
  - apply Z.ltb_lt. vm_compute. reflexivity.
Qed.

Lemma pow2_overflows (k : Z) :
  (1024 <= k)%Z -> (Z.abs (2 ^ k) <? float_int_limit)%Z = false.
Proof.
  intro H. apply Z.ltb_ge.
  rewrite Z.abs_eq by (apply Z.pow_nonneg; lia).
  apply Z.le_trans with (2 ^ 1024)%Z.
  - apply Z.leb_le. vm_compute. reflexivity.
  - apply Z.pow_le_mono_r; lia.
Qed.

(** [wait] returns whenever its backoff computation goes through. *)
Lemma wait_returns (self : RateLimiter) (w : World) :
  backoff_fits self -> exists self' w', wait self w = Ok (self', w').
Proof.
  intros Hb. rewrite wait_eq. cbv zeta.
  destruct (0 <? consecutive_errors self)%Z eqn:Ek; [|eauto].
  apply Z.ltb_lt in Ek. destruct Hb as [Hb|(Hk & Hb)]; [lia|].
  rewrite (pow2_fits _ Hk).
  assert (E : Qltb (backoff_of self) 0 = false) by (now apply Qltb_ge).
  rewrite E. eauto.
Qed.

Lemma fits_without_errors (self : RateLimiter) :
  consecutive_errors self = 0%Z -> backoff_fits self.
Proof. intro H. left. lia. Qed.

Lemma fits_below_limit (self : RateLimiter) :
  (consecutive_errors self < 1024)%Z ->
  0 <= min_delay self -> (0 <= max_backoff self)%Z -> backoff_fits self.
Proof. intros Hk Hd Hc. right. split; [exact Hk | now apply backoff_nonneg]. Qed.

Lemma wait_inv (self self' : RateLimiter) (w w' : World) :
  governor_inv self w -> wait self w = Ok (self', w') ->
  governor_inv self' w' /\ same_config self self' /\ clock w <= clock w' /\
  ((1 <= requests_per_minute self)%Z -> minute_ok self w -> minute_ok self' w').
Proof.
  intros [Hw Hm Hl He Hc] H.
  destruct (wait_result _ _ _ _ Hw H) as (-> & Hw' & Hclk).
  destruct (after_windows_ok self w Hw) as (_ & C3 & _).
  split; [|split; [|split]].
  - constructor; [exact Hw' | exact Hm | | exact He | exact Hc].
    apply (deque_append_length (request_times self) (clock w') Hl).
  - repeat split.
  - lra.
  - intros Hrpm Hmin. unfold minute_ok in *.
    unfold record_request. cbn [request_times requests_per_minute].
    destruct (after_min_delay_ok self w Hw) as (H1 & C1 & _).
    assert (Hmin1 : (count_newer (clock (after_min_delay self w) - 60)
                       (items (request_times self))
                     <= requests_per_minute self)%Z).
    { assert (Hle : clock w - 60 <= clock (after_min_delay self w) - 60) by lra.
      pose proof (count_newer_mono _ _ (items (request_times self)) Hle). lia. }
    pose proof (after_window_room _ 60 self _ H1 Hrpm Hmin1) as Hroom.
    destruct (after_window_ok (requests_per_minute self) 60 self _ H1) as (H2 & _).
    destruct (after_window_ok (requests_per_hour self) 3600 self _ H2) as (_ & C3').
    fold (after_windows self w) in C3'.
    assert (Hle : clock (after_window (requests_per_minute self) 60 self
                           (after_min_delay self w)) - 60 <= clock w' - 60) by lra.
    pose proof (count_newer_mono _ _ (items (request_times self)) Hle).
    pose proof (deque_append_count (clock w' - 60) (request_times self) (clock w')).
    lia.
Qed.

Lemma step_inv (c : call) (self self' : RateLimiter) (w w' : World) :
  governor_inv self w -> call_ok c -> step c self w = Ok (self', w') ->
  governor_inv self' w' /\ same_config self self' /\ clock w <= clock w' /\
  ((1 <= requests_per_minute self)%Z -> minute_ok self w -> minute_ok self' w').
Proof.
  intros Hinv Hc H. destruct c; simpl in H.
  - now apply wait_inv.
  - inversion H; subst; clear H. destruct Hinv.
    split; [constructor; simpl; try assumption; lia|].
    split; [repeat split | split; [lra | auto]].
  - inversion H; subst; clear H. destruct Hinv.
    split; [constructor; simpl; try assumption; lia|].
    split; [repeat split | split; [lra | auto]].
  - inversion H; subst; clear H.
    split; [exact Hinv | split; [repeat split | split; [lra | auto]]].
  - inversion H; subst; clear H. simpl in Hc. destruct Hinv.
    split; [constructor; simpl; assumption|].
    split; [repeat split | split; [simpl; lra|]].
    intros _ Hmin. unfold minute_ok in *. simpl.
    assert (Hle : clock w - 60 <= clock w + d - 60) by lra.
    pose proof (count_newer_mono _ _ (items (request_times self')) Hle). lia.
Qed.

Lemma step_returns (c : call) (self : RateLimiter) (w : World) :
  backoff_fits self -> exists self' w', step c self w = Ok (self', w').
Proof.
  intros Hb. destruct c; [now apply wait_returns | ..];
    do 2 eexists; reflexivity.
Qed.

(** Without a reported error the counter stays at 0. *)
Lemma step_no_error (c : call) (self self' : RateLimiter) (w w' : World) :
  is_error_call c = false -> consecutive_errors self = 0%Z ->
  step c self w = Ok (self', w') -> consecutive_errors self' = 0%Z.
Proof.
  intros Hc He H. destruct c; try discriminate; simpl in H.
  - apply wait_records in H. now subst.
  - now inversion H.
  - now inversion H; subst.
  - now inversion H; subst.
Qed.

Lemma run_cons (c : call) (cs : list call) (self : RateLimiter) (w : World) :
  run (c :: cs) self w =
  match step c self w with
  | Ok (self', w') => run cs self' w'
  | Raise e => Raise e
  end.
Proof. reflexivity. Qed.

Lemma run_app (cs1 cs2 : list call) (self : RateLimiter) (w : World) :
  run (cs1 ++ cs2) self w =
  match run cs1 self w with
  | Ok (self', w') => run cs2 self' w'
  | Raise e => Raise e
  end.
Proof.
  revert self w. induction cs1 as [|c cs1 IH]; intros self w.
  - reflexivity.
  - simpl app. rewrite !run_cons.
    destruct (step c self w) as [[self1 w1]|e]; [apply IH | reflexivity].
Qed.

Lemma run_inv (cs : list call) (self self' : RateLimiter) (w w' : World) :
  governor_inv self w -> Forall call_ok cs -> run cs self w = Ok (self', w') ->
  governor_inv self' w' /\ same_config self self' /\ clock w <= clock w' /\
  ((1 <= requests_per_minute self)%Z -> minute_ok self w -> minute_ok self' w').
Proof.
  revert self w. induction cs as [|c cs IH]; intros self w Hinv Hcs H.
  - inversion H; subst; clear H.
    split; [exact Hinv | split; [repeat split | split; [lra | auto]]].
  - rewrite run_cons in H.
    destruct (step c self w) as [[self1 w1]|e] eqn:E; [|discriminate].
    inversion Hcs as [|c0 cs0 Hc Hcs']; subst.
    destruct (step_inv _ _ _ _ _ Hinv Hc E) as (I1 & (S1 & S2 & S3 & S4) & C1 & M1).
    destruct (IH _ _ I1 Hcs' H) as (I2 & (T1 & T2 & T3 & T4) & C2 & M2).
    split; [exact I2|]. split; [repeat split; congruence|]. split; [lra|].
    intros Hrpm Hmin. apply M2; [lia | now apply M1].
Qed.

(** A sequence of calls that reports no error runs to its end. *)
Lemma run_returns (cs : list call) (self : RateLimiter) (w : World) :
  consecutive_errors self = 0%Z ->
  forallb (fun c => negb (is_error_call c)) cs = true ->
  exists self' w', run cs self w = Ok (self', w').
Proof.
  revert self w. induction cs as [|c cs IH]; intros self w He Hcs.
  - simpl. unfold ret. eauto.
  - rewrite run_cons. simpl in Hcs. apply andb_true_iff in Hcs.
    destruct Hcs as [Hc Hcs]. apply negb_true_iff in Hc.
    destruct (step_returns c self w (fits_without_errors _ He))
      as (self1 & w1 & E).
    rewrite E. apply IH; [|exact Hcs].
    eapply step_no_error; eassumption.
Qed.

(** The hourly bound is the capacity of the deque. *)
Lemma inv_hour_ok (self : RateLimiter) (w : World) :
  governor_inv self w -> hour_ok self w.
Proof.
  intros [_ Hm Hl _ _]. unfold hour_ok.
  pose proof (count_newer_le_length (clock w - 3600) (items (request_times self))).
  unfold deque_len in Hl. lia.
Qed.

(** ** The windowed limits (C1) *)

(** C1, as stated, fails for a limit of zero: with [requests_per_minute = 0]
    the per-minute block sleeps one second and the request is then admitted
    and recorded, one entry in the last minute against a limit of zero. *)
Lemma window_limits_counterexample :
  exists self self' w',
    RateLimiter_init (Some 0%Z) None None = Ok self /\
    run [CallWait] self (mkWorld 1000 [] []) = Ok (self', w') /\
    sleeps w' = [1] /\
    (requests_per_minute self'
     < count_newer (clock w' - 60) (items (request_times self')))%Z.
Proof.
  do 3 eexists. split; [reflexivity|]. split; [reflexivity|].
  split; [reflexivity|]. vm_compute. reflexivity.
Qed.

(** C1 (amended): for a governor built with [requests_per_minute >= 1], after
    any sequence of [wait] calls (with time passing between them, and with
    [record_success] and [get_stats] calls among them) a further [wait]
    returns, and at its return the log holds at most [requests_per_minute]
    entries newer than now - 60 and at most [requests_per_hour] entries newer
    than now - 3600. *)
Theorem wait_keeps_window_limits :
  forall (rpm rph : option Z) (md : option Q) (self : RateLimiter)
         (cs : list call) (w : World),
    RateLimiter_init rpm rph md = Ok self ->
    (1 <= requests_per_minute self)%Z ->
    world_ok w ->
    Forall call_ok cs ->
    forallb (fun c => negb (is_error_call c)) cs = true ->
    exists self' w',
      run (cs ++ [CallWait]) self w = Ok (self', w') /\
      requests_per_minute self' = requests_per_minute self /\
      requests_per_hour self' = requests_per_hour self /\
      (count_newer (clock w' - 60) (items (request_times self'))
       <= requests_per_minute self')%Z /\
      (count_newer (clock w' - 3600) (items (request_times self'))
       <= requests_per_hour self')%Z.
Proof.
  intros rpm rph md self cs w Hinit Hrpm Hw Hcs Hne.
  destruct (init_fresh _ _ _ _ Hinit) as (Hf & Hrph).
  assert (Hinv : governor_inv self w).
  { rewrite Hf. apply fresh_inv; [|exact Hw]. rewrite Hf in Hrph. exact Hrph. }
  assert (Hmin : minute_ok self w).
  { unfold minute_ok. rewrite Hf at 1. simpl. unfold count_newer. simpl. lia. }
  assert (Hall : Forall call_ok (cs ++ [CallWait])).
  { apply Forall_app. split; [exact Hcs | repeat constructor]. }
  assert (Hne' : forallb (fun c => negb (is_error_call c)) (cs ++ [CallWait])
                 = true).
  { rewrite forallb_app, Hne. reflexivity. }
  assert (He : consecutive_errors self = 0%Z) by (now rewrite Hf).
  destruct (run_returns _ _ w He Hne') as (self' & w' & Hrun).
  destruct (run_inv _ _ _ _ _ Hinv Hall Hrun) as (I & (S1 & S2 & _) & _ & M).
  exists self', w'. split; [exact Hrun|].
  split; [now symmetry|]. split; [now symmetry|]. split.
  - apply M; assumption.
  - now apply (inv_hour_ok self' w').
Qed.

Lemma wait_keeps_window_limits_witness :
  exists self' w',
    run ([CallWait; Elapse 1; CallWait] ++ [CallWait]) (fresh 2 500 0)
        (mkWorld 0 [] []) = Ok (self', w') /\
    requests_per_minute self' = requests_per_minute (fresh 2 500 0) /\
    requests_per_hour self' = requests_per_hour (fresh 2 500 0) /\
    (count_newer (clock w' - 60) (items (request_times self'))
     <= requests_per_minute self')%Z /\
    (count_newer (clock w' - 3600) (items (request_times self'))
     <= requests_per_hour self')%Z.
Proof.
  apply (wait_keeps_window_limits (Some 2%Z) None (Some 0)).
  - reflexivity.
  - simpl. lia.
  - constructor.
  - repeat constructor. simpl. lra.
  - reflexivity.
Defined.

(** The scenario of the specification: with [requests_per_minute = 2] and
    [min_delay = 0], the third of three immediate calls is admitted 61 seconds
    after the first. *)
Example three_immediate_calls :
  exists self' w',
    run [CallWait; CallWait; CallWait] (fresh 2 500 0) (mkWorld 1000 [] [])
    = Ok (self', w') /\
    sleeps w' = [61] /\
    map (fun t => Qminus t 1000) (items (request_times self')) = [0; 0; 61]
    /\ clock w' == 1061.
Proof.
  do 2 eexists. split; [reflexivity|]. vm_compute. auto.
Qed.

(** ** [get_stats] (C7, C9) *)

Lemma step_log_inv (c : call) (self self' : RateLimiter) (w w' : World) :
  step c self w = Ok (self', w') -> log_inv self -> log_inv self'.
Proof.
  intros H (Hm & Hl & He). destruct c; simpl in H.
  - apply wait_records in H. subst self'. repeat split; try assumption.
    apply (deque_append_length (request_times self) (clock w') Hl).
  - inversion H; subst. repeat split; simpl; try assumption. lia.
  - inversion H; subst. repeat split; simpl; try assumption. lia.
  - inversion H; subst. repeat split; assumption.
  - inversion H; subst. repeat split; assumption.
Qed.

Lemma run_log_inv (cs : list call) (self self' : RateLimiter) (w w' : World) :
  run cs self w = Ok (self', w') -> log_inv self -> log_inv self'.
Proof.
  revert self w. induction cs as [|c cs IH]; intros self w H Hinv.
  - now inversion H; subst.
  - rewrite run_cons in H.
    destruct (step c self w) as [[self1 w1]|e] eqn:E; [|discriminate].
    eapply IH; [exact H|]. eapply step_log_inv; eassumption.
Qed.

Lemma init_log_inv (rpm rph : option Z) (md : option Q) (self : RateLimiter) :
  RateLimiter_init rpm rph md = Ok self -> log_inv self.
Proof.
  intro H. destruct (init_fresh _ _ _ _ H) as (-> & Hrph).
  simpl in Hrph. repeat split; simpl; try lia. unfold deque_len. simpl. lia.
Qed.

Lemma run_without_stats (cs : list call) (self : RateLimiter) (w : World) :
  run (without_stats cs) self w = run cs self w.
Proof.
  revert self w. induction cs as [|c cs IH]; intros self w; [reflexivity|].
  unfold without_stats in *. simpl filter.
  destruct c; simpl negb; cbv iota; rewrite ?run_cons;
    try (destruct (step _ self w) as [[self1 w1]|e]; [apply IH | reflexivity]).
  simpl. apply IH.
Qed.

(** C7: [get_stats] returns the governor and the world as it found them,
    together with exactly four entries: the number of log entries newer than
    now - 60, the number newer than now - 3600, [consecutive_errors] and the
    length of the log, none of them negative.  Hence a sequence of calls ends
    in the same state whether or not [get_stats] calls are put into it; in
    particular a [wait] after any number of [get_stats] calls is the [wait]
    without them. *)
Theorem get_stats_read_only :
  forall (rpm rph : option Z) (md : option Q) (self0 self : RateLimiter)
         (cs0 : list call) (w0 w : World),
    RateLimiter_init rpm rph md = Ok self0 ->
    run cs0 self0 w0 = Ok (self, w) ->
    exists m h e t : Z,
      get_stats self w =
        Ok (([("requests_last_minute"%string, m);
              ("requests_last_hour"%string, h);
              ("consecutive_errors"%string, e);
              ("total_requests"%string, t)], self), w) /\
      m = count_newer (clock w - 60) (items (request_times self)) /\
      h = count_newer (clock w - 3600) (items (request_times self)) /\
      e = consecutive_errors self /\
      t = Z.of_nat (List.length (items (request_times self))) /\
      (0 <= m)%Z /\ (0 <= h)%Z /\ (0 <= e)%Z /\ (0 <= t)%Z /\
      (forall cs, run cs self w = run (without_stats cs) self w) /\
      (forall n, run (repeat CallGetStats n ++ [CallWait]) self w = wait self w).
Proof.
  intros rpm rph md self0 self cs0 w0 w Hinit Hrun.
  pose proof (run_log_inv _ _ _ _ _ Hrun (init_log_inv _ _ _ _ Hinit))
    as (_ & _ & He).
  exists (count_newer (clock w - 60) (items (request_times self))),
         (count_newer (clock w - 3600) (items (request_times self))),
         (consecutive_errors self),
         (Z.of_nat (List.length (items (request_times self)))).
  split; [reflexivity|]. do 4 (split; [reflexivity|]).
  split; [apply count_newer_nonneg|]. split; [apply count_newer_nonneg|].
  split; [exact He|]. split; [lia|]. split.
  - intro cs. symmetry. apply run_without_stats.
  - intro n. rewrite <- run_without_stats. unfold without_stats.
    rewrite filter_app.
    replace (filter (fun c => negb (is_stats_call c)) (repeat CallGetStats n))
      with (@nil call) by (induction n; simpl; auto).
    simpl. unfold bind, ret. destruct (wait self w) as [[a b]|]; reflexivity.
Qed.

Lemma get_stats_read_only_witness :
  exists self w,
    run [CallWait; CallRecordError] (fresh 30 500 2) (mkWorld 1000 [] [])
    = Ok (self, w) /\
    exists m h e t : Z,
      get_stats self w =
        Ok (([("requests_last_minute"%string, m);
              ("requests_last_hour"%string, h);
              ("consecutive_errors"%string, e);
              ("total_requests"%string, t)], self), w) /\
      m = count_newer (clock w - 60) (items (request_times self)) /\
      h = count_newer (clock w - 3600) (items (request_times self)) /\
      e = consecutive_errors self /\
      t = Z.of_nat (List.length (items (request_times self))) /\
      (0 <= m)%Z /\ (0 <= h)%Z /\ (0 <= e)%Z /\ (0 <= t)%Z /\
      (forall cs, run cs self w = run (without_stats cs) self w) /\
      (forall n, run (repeat CallGetStats n ++ [CallWait]) self w = wait self w).
Proof.
  do 2 eexists. split; [reflexivity|].
  apply (get_stats_read_only None None None (fresh 30 500 2) _
           [CallWait; CallRecordError] (mkWorld 1000 [] [])); reflexivity.
Defined.

(** C9: in every state that a constructed governor reaches, the snapshot of
    [get_stats] is ordered: entries of the last minute, at most entries of the
    last hour, at most retained entries, at most [requests_per_hour]; and no
    field is negative. *)
Theorem stats_ordered :
  forall (rpm rph : option Z) (md : option Q) (self0 self : RateLimiter)
         (cs : list call) (w0 w : World),
    RateLimiter_init rpm rph md = Ok self0 ->
    run cs self0 w0 = Ok (self, w) ->
    exists (d : Stats) (m h e t : Z),
      get_stats self w = Ok ((d, self), w) /\
      stat "requests_last_minute" d = Some m /\
      stat "requests_last_hour" d = Some h /\
      stat "consecutive_errors" d = Some e /\
      stat "total_requests" d = Some t /\
      (0 <= m)%Z /\ (m <= h)%Z /\ (h <= t)%Z /\
      (t <= requests_per_hour self)%Z /\ (0 <= e)%Z.
Proof.
  intros rpm rph md self0 self cs w0 w Hinit Hrun.
  pose proof (run_log_inv _ _ _ _ _ Hrun (init_log_inv _ _ _ _ Hinit))
    as (Hm & Hl & He).
  unfold get_stats, bind, time_time, ret. cbv beta iota zeta. eexists.
  exists (count_newer (clock w - 60) (items (request_times self))),
         (count_newer (clock w - 3600) (items (request_times self))),
         (consecutive_errors self),
         (deque_len (request_times self)).
  split; [reflexivity|]. do 4 (split; [reflexivity|]).
  split; [apply count_newer_nonneg|]. split; [|split; [|split]].
  - apply count_newer_mono. lra.
  - apply count_newer_le_length.
  - unfold deque_len in *. lia.
  - exact He.
Qed.

Lemma stats_ordered_witness :
  exists self w,
    run [CallWait; Elapse 100; CallWait; CallRecordError] (fresh 30 500 2)
        (mkWorld 1000 [] []) = Ok (self, w) /\
    exists (d : Stats) (m h e t : Z),
      get_stats self w = Ok ((d, self), w) /\
      stat "requests_last_minute" d = Some m /\
      stat "requests_last_hour" d = Some h /\
      stat "consecutive_errors" d = Some e /\
      stat "total_requests" d = Some t /\
      (0 <= m)%Z /\ (m <= h)%Z /\ (h <= t)%Z /\
      (t <= requests_per_hour self)%Z /\ (0 <= e)%Z.
Proof.
  do 2 eexists. split; [reflexivity|].
  apply (stats_ordered None None None (fresh 30 500 2) _
           [CallWait; Elapse 100; CallWait; CallRecordError]
           (mkWorld 1000 [] [])); reflexivity.
Defined.

(** ** Success and error reports (C5) *)

Lemma set_errors_twice (j k : Z) (self : RateLimiter) :
  set_consecutive_errors j (set_consecutive_errors k self)
  = set_consecutive_errors j self.
Proof. reflexivity. Qed.

Lemma run_record_errors (n : nat) (self : RateLimiter) (w : World) :
  run (repeat CallRecordError n) self w =
  Ok (set_consecutive_errors (consecutive_errors self + Z.of_nat n) self, w).
Proof.
  revert self. induction n as [|n IH]; intro self.
  - simpl. unfold ret. destruct self; unfold set_consecutive_errors; simpl.
    now rewrite Z.add_0_r.
  - cbn [repeat]. rewrite run_cons. cbn [step]. unfold ret.
    rewrite IH. unfold record_error. rewrite set_errors_twice.
    cbn [consecutive_errors set_consecutive_errors].
    do 3 f_equal. lia.
Qed.

(** C5: [record_success] sets [consecutive_errors] to 0 whatever it was,
    touches nothing else, cannot fail, and doing it twice is doing it once.
    After any number of [record_error] calls, one [record_success] and one
    [record_error], the counter is 1 and the next backoff is
    [min(min_delay * 2, max_backoff)]. *)
Theorem record_success_resets :
  forall (self : RateLimiter) (w : World) (n : nat),
    consecutive_errors (record_success self) = 0%Z /\
    record_success self = set_consecutive_errors 0 self /\
    record_success (record_success self) = record_success self /\
    step CallRecordSuccess self w = Ok (record_success self, w) /\
    run (repeat CallRecordError n ++ [CallRecordSuccess; CallRecordError]) self w
      = Ok (set_consecutive_errors 1 self, w) /\
    consecutive_errors (set_consecutive_errors 1 self) = 1%Z /\
    backoff_of (set_consecutive_errors 1 self)
      = Qmin (min_delay self * inject_Z (2 ^ 1)) (inject_Z (max_backoff self)).
Proof.
  intros self w n. do 4 (split; [reflexivity|]). split; [|split; reflexivity].
  rewrite run_app, run_record_errors. reflexivity.
Qed.

(** The scenario of the specification: two errors, a success and an error,
    with [min_delay = 2]: the next [wait] backs off for 4 seconds. *)
Example backoff_after_reset :
  exists self' w',
    run [CallRecordError; CallRecordError; CallRecordSuccess; CallRecordError;
         CallWait] (fresh 30 500 2) (mkWorld 1000 [] []) = Ok (self', w') /\
    consecutive_errors self' = 1%Z /\ sleeps w' = [4].
Proof.
  do 2 eexists. split; [reflexivity|]. split; reflexivity.
Qed.

(** ** The backoff (C4) *)

Lemma total_sleep_slept (d : Q) (w : World) :
  total_sleep (slept d w) == total_sleep w + d.
Proof.
  unfold total_sleep, slept. simpl.
  induction (sleeps w) as [|x l IH]; simpl; [lra|]. rewrite IH. lra.
Qed.

(** C4 holds on the code up to 1023 consecutive errors and fails from 1024
    on.  With [consecutive_errors = k > 0], [wait] first runs steps 1 to 3 as
    a governor without errors would, ending at time [c3].  For [k < 1024] it
    then sleeps [min(min_delay * 2^k, max_backoff)] on top of whatever those
    steps slept and records a time at least that much after [c3].  For
    [k >= 1024] the product [min_delay * 2**k] cannot convert [2**k] to
    [float]: [wait] raises [OverflowError] before the cap is applied, and
    neither sleeps nor admits. *)
Theorem backoff_stacks_until_overflow :
  forall (self : RateLimiter) (w : World) (k : Z),
    consecutive_errors self = k -> (0 < k)%Z -> world_ok w ->
    exists (c3 : Q) (w3 : World),
      wait_windows self w = Ok (c3, w3) /\
      wait (record_success self) w
        = Ok (record_request (record_success self) c3, w3) /\
      backoff_of self
        = Qmin (min_delay self * inject_Z (2 ^ k)) (inject_Z (max_backoff self)) /\
      ((k < 1024)%Z -> 0 <= backoff_of self ->
       exists self' w', wait self w = Ok (self', w')) /\
      (forall self' w', wait self w = Ok (self', w') ->
         sleeps w' = sleeps w3 ++ [backoff_of self] /\
         total_sleep w' == total_sleep w3 + backoff_of self /\
         c3 + backoff_of self <= clock w' /\
         last_request_time self' = clock w') /\
      ((1024 <= k)%Z ->
       wait self w = Raise (OverflowError "int too large to convert to float")).
Proof.
  intros self w k Hk Hpos Hw.
  exists (clock (after_windows self w)), (after_windows self w).
  destruct (after_windows_ok self w Hw) as (H3 & _ & _).
  assert (E : (0 <? consecutive_errors self)%Z = true)
    by (apply Z.ltb_lt; lia).
  split; [apply wait_windows_eq|]. split; [|split; [|split; [|split]]].
  - rewrite wait_eq. reflexivity.
  - unfold backoff_of. now rewrite Hk.
  - intros Hlt Hb. apply wait_returns. right. split; [lia | exact Hb].
  - intros self' w' H. rewrite wait_eq in H. cbv zeta in H. rewrite E in H.
    destruct (Z.abs _ <? float_int_limit)%Z; [|discriminate].
    destruct (Qltb (backoff_of self) 0) eqn:E'; [discriminate|].
    inversion H; subst; clear H.
    split; [reflexivity|]. split; [apply total_sleep_slept|].
    split; [now apply slept_clock | reflexivity].
  - intro Hge. rewrite wait_eq. cbv zeta. rewrite E.
    rewrite pow2_overflows by lia. reflexivity.
Qed.

Lemma backoff_stacks_until_overflow_witness :
  exists (c3 : Q) (w3 : World),
    wait_windows (set_consecutive_errors 1024 (fresh 30 500 2))
      (mkWorld 1000 [] []) = Ok (c3, w3) /\
    wait (record_success (set_consecutive_errors 1024 (fresh 30 500 2)))
      (mkWorld 1000 [] [])
      = Ok (record_request
              (record_success (set_consecutive_errors 1024 (fresh 30 500 2)))
              c3, w3) /\
    backoff_of (set_consecutive_errors 1024 (fresh 30 500 2))
      = Qmin (min_delay (set_consecutive_errors 1024 (fresh 30 500 2))
              * inject_Z (2 ^ 1024))
             (inject_Z (max_backoff (set_consecutive_errors 1024
                                       (fresh 30 500 2)))) /\
    ((1024 < 1024)%Z ->
     0 <= backoff_of (set_consecutive_errors 1024 (fresh 30 500 2)) ->
     exists self' w',
       wait (set_consecutive_errors 1024 (fresh 30 500 2)) (mkWorld 1000 [] [])
       = Ok (self', w')) /\
    (forall self' w',
       wait (set_consecutive_errors 1024 (fresh 30 500 2)) (mkWorld 1000 [] [])
       = Ok (self', w') ->
       sleeps w'
       = sleeps w3
         ++ [backoff_of (set_consecutive_errors 1024 (fresh 30 500 2))] /\
       total_sleep w'
       == total_sleep w3
          + backoff_of (set_consecutive_errors 1024 (fresh 30 500 2)) /\
       c3 + backoff_of (set_consecutive_errors 1024 (fresh 30 500 2))
       <= clock w' /\
       last_request_time self' = clock w') /\
    ((1024 <= 1024)%Z ->
     wait (set_consecutive_errors 1024 (fresh 30 500 2)) (mkWorld 1000 [] [])
     = Raise (OverflowError "int too large to convert to float")).
Proof.
  apply (backoff_stacks_until_overflow
           (set_consecutive_errors 1024 (fresh 30 500 2))
           (mkWorld 1000 [] []) 1024).
  - reflexivity.
  - lia.
  - constructor.
Defined.

(** The same from the constructor on: 1023 reported errors are followed by a
    backoff of [max_backoff] seconds, 1024 by an exception. *)
Example backoff_at_the_float_limit :
  (exists self' w',
     run (repeat CallRecordError 1023 ++ [CallWait]) (fresh 30 500 2)
         (mkWorld 1000 [] []) = Ok (self', w') /\
     sleeps w' = [300]) /\
  run (repeat CallRecordError 1024 ++ [CallWait]) (fresh 30 500 2)
      (mkWorld 1000 [] [])
  = Raise (OverflowError "int too large to convert to float").
Proof.
  split.
  - do 2 eexists. split; vm_compute; reflexivity.
  - vm_compute. reflexivity.
Qed.

(** The scenario of the specification: one error, then [wait] with
    [min_delay = 2], one second after the previous request: 1 second of
    spacing, then 4 seconds of backoff. *)
Example backoff_after_one_error :
  exists self' w',
    run [CallWait; CallRecordError; Elapse 1; CallWait] (fresh 30 500 2)
        (mkWorld 1000 [] []) = Ok (self', w') /\
    sleeps w' = [1; 4] /\ clock w' == 1006.
Proof.
  do 2 eexists. split; [reflexivity|]. vm_compute. auto.
Qed.

(** ** Minimum spacing (C3) *)

(** *** The spacing in exact arithmetic *)

Lemma after_window_sleeps (limit : Z) (span : Q) (self : RateLimiter) (w : World) :
  exists ds, sleeps (after_window limit span self w) = sleeps w ++ ds.
Proof.
  unfold after_window. cbv zeta. destruct (limit <=? _)%Z.
  - eexists. reflexivity.
  - exists []. now rewrite app_nil_r.
Qed.

(** Calls other than [wait] leave the last request time and the sleeps alone. *)
Lemma run_between_waits (cs : list call) (self self' : RateLimiter) (w w' : World) :
  Forall call_ok cs ->
  forallb (fun c => negb (is_wait_call c)) cs = true ->
  run cs self w = Ok (self', w') ->
  last_request_time self' = last_request_time self /\
  min_delay self' = min_delay self /\
  clock w <= clock w' /\ sleeps w' = sleeps w /\ lateness w' = lateness w.
Proof.
  revert self w. induction cs as [|c cs IH]; intros self w Hok Hnw H.
  - inversion H; subst. repeat split; try reflexivity. lra.
  - rewrite run_cons in H. simpl in Hnw. apply andb_true_iff in Hnw.
    destruct Hnw as [Hc Hnw]. inversion Hok as [|c0 cs0 Hc0 Hok']; subst.
    destruct c; try discriminate; simpl in H;
      match type of H with
      | run cs ?s ?v = _ =>
          destruct (IH s v Hok' Hnw H) as (A & B & C & D & E)
      end; simpl in *; repeat split; try assumption; lra.
Qed.

(** In exact arithmetic, that is with times taken as rationals, there are at
    least [min_delay] seconds between the times recorded by two consecutive
    [wait] calls on one governor, and when the second call starts less than
    [min_delay] after the first was admitted, its first sleep is exactly the
    remaining time. *)
Theorem consecutive_waits_spaced :
  forall (self self1 self2 : RateLimiter) (w w1 w2 : World) (between : list call),
    world_ok w ->
    wait self w = Ok (self1, w1) ->
    Forall call_ok between ->
    forallb (fun c => negb (is_wait_call c)) between = true ->
    run between self1 w1 = Ok (self2, w2) ->
    last_request_time self1 = clock w1 /\
    (backoff_fits self2 ->
     exists self3 w3, wait self2 w2 = Ok (self3, w3)) /\
    (forall self3 w3,
       wait self2 w2 = Ok (self3, w3) ->
       last_request_time self3 = clock w3 /\
       last_request_time self1 + min_delay self1 <= last_request_time self3 /\
       (clock w2 - last_request_time self1 < min_delay self1 ->
        exists rest,
          sleeps w3 =
          sleeps w2
          ++ (min_delay self1 - (clock w2 - last_request_time self1)) :: rest)).
Proof.
  intros self self1 self2 w w1 w2 between Hw H1 Hok Hnw Hrun.
  destruct (wait_result _ _ _ _ Hw H1) as (-> & Hw1 & _).
  destruct (run_between_waits _ _ _ _ _ Hok Hnw Hrun) as (HL & HD & HC & HS & HT).
  assert (Hw2 : world_ok w2) by (unfold world_ok in *; now rewrite HT).
  cbn [record_request last_request_time min_delay] in *.
  split; [reflexivity|]. split; [intros; now apply wait_returns|].
  intros self3 w3 H3.
  destruct (wait_result _ _ _ _ Hw2 H3) as (-> & Hw3 & Hclk).
  destruct (after_windows_ok self2 w2 Hw2) as (_ & _ & Hsp).
  cbn [record_request last_request_time].
  split; [reflexivity|]. split; [rewrite HL, HD in Hsp; lra|].
  intro Hlt. rewrite wait_eq in H3. cbv zeta in H3.
  assert (Hs : exists ds,
             sleeps (after_windows self2 w2) =
             sleeps w2 ++ (min_delay self - (clock w2 - clock w1)) :: ds).
  { unfold after_windows.
    destruct (after_window_sleeps (requests_per_hour self2) 3600 self2
                (after_window (requests_per_minute self2) 60 self2
                   (after_min_delay self2 w2))) as (d2 & ->).
    destruct (after_window_sleeps (requests_per_minute self2) 60 self2
                (after_min_delay self2 w2)) as (d1 & ->).
    unfold after_min_delay. rewrite HL, HD.
    assert (E : Qltb (clock w2 - clock w1) (min_delay self) = true)
      by (now apply Qltb_lt).
    rewrite E. simpl sleeps. exists (d1 ++ d2).
    now rewrite <- !app_assoc. }
  destruct Hs as (ds & Hs).
  destruct (0 <? consecutive_errors self2)%Z.
  - destruct (Z.abs _ <? float_int_limit)%Z; [|discriminate].
    destruct (Qltb (backoff_of self2) 0); [discriminate|].
    inversion H3; subst. simpl sleeps. rewrite Hs.
    exists (ds ++ [backoff_of self2]). now rewrite <- app_assoc.
  - inversion H3; subst. exists ds. exact Hs.
Qed.

Lemma consecutive_waits_spaced_witness :
  exists self1 w1 self2 w2,
    wait (fresh 30 500 2) (mkWorld 1000 [] []) = Ok (self1, w1) /\
    run [CallGetStats; Elapse (1 # 2)] self1 w1 = Ok (self2, w2) /\
    last_request_time self1 = clock w1 /\
    (backoff_fits self2 ->
     exists self3 w3, wait self2 w2 = Ok (self3, w3)) /\
    (forall self3 w3,
       wait self2 w2 = Ok (self3, w3) ->
       last_request_time self3 = clock w3 /\
       last_request_time self1 + min_delay self1 <= last_request_time self3 /\
       (clock w2 - last_request_time self1 < min_delay self1 ->
        exists rest,
          sleeps w3 =
          sleeps w2
          ++ (min_delay self1 - (clock w2 - last_request_time self1)) :: rest)).
Proof.
  do 4 eexists. split; [reflexivity|]. split; [reflexivity|].
  apply (consecutive_waits_spaced (fresh 30 500 2) _ _ (mkWorld 1000 [] []) _ _
           [CallGetStats; Elapse (1 # 2)]).
  - constructor.
  - reflexivity.
  - repeat constructor. simpl. lra.
  - reflexivity.
  - reflexivity.
Defined.

(** *** The spacing in the code's own arithmetic *)

Section Binary64Run.

Import PrimFloat.
Local Open Scope float_scope.


End Binary64Run.

(** ** The first call (C10) *)

(** C10, as stated, fails when a limit is zero: with [requests_per_minute = 0]
    the first [wait] sleeps one second in the per-minute block; with
    [requests_per_hour = 0] it sleeps one second in the per-hour block and,
    the deque having no room, records no log entry. *)
Lemma first_wait_counterexample :
  (exists self self' w',
      RateLimiter_init (Some 0%Z) None None = Ok self /\
      min_delay self <= clock (mkWorld 1000 [] []) /\
      wait self (mkWorld 1000 [] []) = Ok (self', w') /\
      sleeps w' = [1]) /\
  (exists self self' w',
      RateLimiter_init None (Some 0%Z) None = Ok self /\
      min_delay self <= clock (mkWorld 1000 [] []) /\
      wait self (mkWorld 1000 [] []) = Ok (self', w') /\
      sleeps w' = [1] /\ items (request_times self') = []).
Proof.
  split.
  - do 3 eexists. split; [reflexivity|]. split; [simpl; lra|].
    split; reflexivity.
  - do 3 eexists. split; [reflexivity|]. split; [simpl; lra|].
    split; [reflexivity|]. split; reflexivity.
Qed.

(** C10 (amended): on a governor just built with [requests_per_minute >= 1]
    and [requests_per_hour >= 1], when the clock is at least [min_delay], the
    first [wait] sleeps in none of its four blocks: it returns in the world it
    was called in, with the current time as the only log entry and as the
    last request time. *)
Theorem first_wait_is_immediate :
  forall (rpm rph : option Z) (md : option Q) (self : RateLimiter) (w : World),
    RateLimiter_init rpm rph md = Ok self ->
    (1 <= requests_per_minute self)%Z ->
    (1 <= requests_per_hour self)%Z ->
    min_delay self <= clock w ->
    exists self',
      wait self w = Ok (self', w) /\
      items (request_times self') = [clock w] /\
      last_request_time self' = clock w /\
      consecutive_errors self' = 0%Z.
Proof.
  intros rpm rph md self w Hinit Hrpm Hrph Hmd.
  destruct (init_fresh _ _ _ _ Hinit) as (-> & _).
  set (a := with_default 30%Z rpm) in *. set (b := with_default 500%Z rph) in *.
  set (d := with_default 2 md) in *. simpl in Hrpm, Hrph, Hmd.
  exists (record_request (fresh a b d) (clock w)).
  assert (E1 : after_min_delay (fresh a b d) w = w).
  { unfold after_min_delay. simpl.
    assert (E : Qltb (clock w - 0) d = false) by (apply Qltb_ge; lra).
    now rewrite E. }
  assert (E2 : forall limit span, (1 <= limit)%Z ->
                 after_window limit span (fresh a b d) w = w).
  { intros limit span Hl. unfold after_window. simpl.
    assert (E : (limit <=? count_newer (clock w - span) [])%Z = false)
      by (apply Z.leb_gt; unfold count_newer; simpl; lia).
    now rewrite E. }
  split; [|split; [|split; reflexivity]].
  - rewrite wait_eq. cbv zeta. unfold after_windows. rewrite E1.
    change (requests_per_minute (fresh a b d)) with a.
    change (requests_per_hour (fresh a b d)) with b.
    rewrite (E2 a 60 Hrpm), (E2 b 3600 Hrph). reflexivity.
  - unfold record_request, deque_append. simpl.
    assert (E : (b <? 1)%Z = false) by (apply Z.ltb_ge; lia).
    now rewrite E.
Qed.

Lemma first_wait_is_immediate_witness :
  exists self',
    wait (fresh 30 500 2) (mkWorld 1000 [] []) = Ok (self', mkWorld 1000 [] []) /\
    items (request_times self') = [clock (mkWorld 1000 [] [])] /\
    last_request_time self' = clock (mkWorld 1000 [] []) /\
    consecutive_errors self' = 0%Z.
Proof.
  apply (first_wait_is_immediate None None None (fresh 30 500 2)
           (mkWorld 1000 [] [])).
  - reflexivity.
  - simpl. lia.
  - simpl. lia.
  - simpl. lra.
Defined.

(** ** Construction (C8) *)

(** C8, as stated, fails: [max_backoff] is not an argument of the
    constructor, so no call of it yields a governor with, say,
    [max_backoff = 600]. *)
Lemma constructor_inputs_counterexample :
  ~ exists (rpm rph : option Z) (md : option Q) (self : RateLimiter),
      RateLimiter_init rpm rph md = Ok self /\ max_backoff self = 600%Z.
Proof.
  intros (rpm & rph & md & self & H & Hb).
  destruct (init_fresh _ _ _ _ H) as (-> & _). simpl in Hb. discriminate.
Qed.

(** C8 (amended): the constructor has three inputs, each optional:
    [requests_per_minute] (default 30), [requests_per_hour] (default 500) and
    [min_delay] (default 2).  [max_backoff] is always 300.  The governor
    starts with an empty log, no errors and a last request time of 0. *)
Theorem constructor_inputs :
  forall (rpm rph : option Z) (md : option Q) (self : RateLimiter),
    RateLimiter_init rpm rph md = Ok self ->
    requests_per_minute self = with_default 30%Z rpm /\
    requests_per_hour self = with_default 500%Z rph /\
    min_delay self = with_default 2 md /\
    max_backoff self = 300%Z /\
    items (request_times self) = [] /\
    maxlen (request_times self) = with_default 500%Z rph /\
    last_request_time self = 0 /\
    consecutive_errors self = 0%Z /\
    RateLimiter_init None None None = Ok (fresh 30 500 2).
Proof.
  intros rpm rph md self H. destruct (init_fresh _ _ _ _ H) as (-> & _).
  repeat split.
Qed.

Lemma constructor_inputs_witness :
  requests_per_minute (fresh 10 500 (1 # 2)) = with_default 30%Z (Some 10%Z) /\
  requests_per_hour (fresh 10 500 (1 # 2)) = with_default 500%Z None /\
  min_delay (fresh 10 500 (1 # 2)) = with_default 2 (Some (1 # 2)) /\
  max_backoff (fresh 10 500 (1 # 2)) = 300%Z /\
  items (request_times (fresh 10 500 (1 # 2))) = [] /\
  maxlen (request_times (fresh 10 500 (1 # 2))) = with_default 500%Z None /\
  last_request_time (fresh 10 500 (1 # 2)) = 0 /\
  consecutive_errors (fresh 10 500 (1 # 2)) = 0%Z /\
  RateLimiter_init None None None = Ok (fresh 30 500 2).
Proof.
  apply (constructor_inputs (Some 10%Z) None (Some (1 # 2))). reflexivity.
Defined.

(** * Properties of the client and the worker *)

Import Sync.

(** ** Reading traces *)

Lemma landmarks_app (a b : list event) :
  landmarks (a ++ b) = landmarks a ++ landmarks b.
Proof. apply filter_app. Qed.

Lemma count_events_app (p : event -> bool) (a b : list event) :
  count_events p (a ++ b) = (count_events p a + count_events p b)%nat.
Proof. unfold count_events. now rewrite filter_app, length_app. Qed.

(** A count of landmark events can be read off the landmarks alone. *)
Lemma count_landmarks (p : event -> bool) (tr : list event) :
  (forall e, p e = true -> landmark e = true) ->
  count_events p tr = count_events p (landmarks tr).
Proof.
  intro Hp. unfold count_events, landmarks.
  induction tr as [|e tr IH]; [reflexivity|]. simpl.
  destruct (p e) eqn:E.
  - rewrite (Hp e E). simpl. rewrite E. simpl. now rewrite IH.
  - destruct (landmark e); simpl; rewrite ?E; exact IH.
Qed.

Lemma governor_calls_landmarks (tr : list event) :
  governor_calls tr = governor_calls (landmarks tr).
Proof.
  unfold landmarks. induction tr as [|e tr IH]; [reflexivity|].
  destruct e; simpl; try exact IH; try (now rewrite IH);
    destruct (landmark _); simpl; try exact IH; now rewrite IH.
Qed.

Lemma stagger_not_landmark (index : nat) :
  landmark (AsyncSleep (inject_Z (Z.of_nat index) * 5)) = false.
Proof.
  unfold landmark. simpl. rewrite !orb_false_r.
  destruct (Qeq_bool (inject_Z (Z.of_nat index) * 5) 2) eqn:E; [|reflexivity].
  apply Qeq_bool_iff in E. unfold Qeq in E. simpl in E. lia.
Qed.

(** ** [download_track] *)

Lemma poll_button_landmarks (s : DownloadScript) (n i : nat) :
  landmarks (snd (poll_button s n i)) = [].
Proof.
  revert i. induction n as [|n IH]; intro i; simpl; [reflexivity|].
  destruct (button_visible s i); [reflexivity|].
  destruct (captcha_visible s i).
  - destruct (captcha_wait_raises s); reflexivity.
  - specialize (IH (S i)). unfold andthen, emit.
    destruct (poll_button s n (S i)) as [r evs]. simpl in *. exact IH.
Qed.

Ltac quiet_rest H :=
  unfold landmarks in *; simpl; rewrite ?filter_app; simpl; rewrite ?H;
  reflexivity.

(** [download_track] on a given page never raises.  It starts by making the
    download directory and, unless that fails, goes straight to the service;
    the rest of what it does is no landmark. *)
Lemma download_track_shape (self : LucidaClient) (download_dir url : string)
    (output_path : option string) (s : DownloadScript) :
  exists r rest,
    download_track self download_dir url output_path true s
    = (Returned r, MakeDirs download_dir :: rest) /\
    landmarks rest = [] /\
    (makedirs_raises s = None ->
     exists rest',
       rest = Print (MsgNavigating url)
              :: Goto (base_url self ++ "?url=" ++ url) :: rest').
Proof.
  unfold download_track, _perform_download_async.
  pose proof (poll_button_landmarks s 150 0) as Hp.
  destruct (poll_button s 150 0) as [[b|e] evs]; simpl in Hp;
    destruct s as [mk gt bv cv cw sw ck fn pm sv fe gs fs os ol op oc];
    cbn [makedirs_raises goto_raises selector_wait_raises click_raises
         suggested_filename parent_makedirs_raises save_raises file_exists
         getsize_raises file_size];
    destruct mk, gt; try destruct b; simpl;
    try (destruct sw; simpl; try (destruct ck; simpl;
         try (destruct pm; simpl;
         try (destruct sv; simpl; try (destruct fe; simpl;
         try (destruct gs; simpl))))));
    do 2 eexists; (split; [reflexivity|]);
    (split; [quiet_rest Hp | intro H; try discriminate H; eexists; reflexivity]).
Qed.

(** [get_direct_amazon_link_async] never raises; it announces the search
    first, and nothing else it does is a landmark. *)
Lemma search_shape (q : string) (s : SearchScript) :
  exists o rest,
    get_direct_amazon_link_async q s
    = (Returned o, Print (MsgSearching q) :: rest) /\
    landmarks rest = [].
Proof.
  unfold get_direct_amazon_link_async.
  destruct s as [g l]; cbn [search_goto_raises links].
  destruct g; [do 2 eexists; split; reflexivity|].
  destruct l as [err|hrefs]; [do 2 eexists; split; reflexivity|].
  simpl. destruct (find (contains "trackAsin=") hrefs).
  - do 2 eexists; split; reflexivity.
  - destruct (find (contains "/tracks/") hrefs);
      do 2 eexists; split; reflexivity.
Qed.

(** ** The worker *)

Lemma landmark_search e : is_search e = true -> landmark e = true.
Proof. unfold landmark. intros ->. reflexivity. Qed.

Lemma landmark_download e : is_download e = true -> landmark e = true.
Proof. unfold landmark. intros ->. now rewrite ?orb_true_r. Qed.

Lemma landmark_pause e : is_pause e = true -> landmark e = true.
Proof. unfold landmark. intros ->. now rewrite ?orb_true_r. Qed.

Lemma landmark_retry e : is_retry e = true -> landmark e = true.
Proof. unfold landmark. intros ->. now rewrite ?orb_true_r. Qed.

Lemma landmark_skipped e : is_skipped e = true -> landmark e = true.
Proof. unfold landmark. intros ->. now rewrite ?orb_true_r. Qed.

Lemma landmark_permanent_failure e :
  is_permanent_failure e = true -> landmark e = true.
Proof. unfold landmark. intros ->. now rewrite ?orb_true_r. Qed.

Lemma landmark_worker_start e : is_worker_start e = true -> landmark e = true.
Proof. unfold landmark. intros ->. now rewrite ?orb_true_r. Qed.

Lemma landmarks_cons (e : event) (tr : list event) :
  landmarks (e :: tr) = (if landmark e then [e] else []) ++ landmarks tr.
Proof. unfold landmarks. simpl. now destruct (landmark e). Qed.

(** Every count of the policy, read from the landmarks. *)
Ltac to_landmarks :=
  match goal with
  | |- context [governor_calls ?tr] =>
      rewrite (count_landmarks is_search tr landmark_search),
              (count_landmarks is_download tr landmark_download),
              (count_landmarks is_pause tr landmark_pause),
              (count_landmarks is_retry tr landmark_retry),
              (count_landmarks is_skipped tr landmark_skipped),
              (count_landmarks is_permanent_failure tr
                 landmark_permanent_failure),
              (count_landmarks is_worker_start tr landmark_worker_start),
              (governor_calls_landmarks tr)
  end.

Section Worker.

Variables (client : LucidaClient) (download_dir : string) (t : Track)
          (index : nat) (s : TrackScript).

Local Opaque get_direct_amazon_link_async download_track.

Ltac search_attempt a :=
  let o := fresh "o" in
  let r := fresh "r" in
  let E := fresh "E" in
  let Q := fresh "Q" in
  destruct (search_shape (query t) (searches s a)) as (o & r & E & Q);
  rewrite E; destruct o as [?u|]; simpl.

Ltac download_attempt a :=
  match goal with
  | |- context [download_track client download_dir ?u ?o true (downloads s a)] =>
      let res := fresh "res" in
      let d := fresh "d" in
      let D := fresh "D" in
      let QD := fresh "QD" in
      destruct (download_track_shape client download_dir u o (downloads s a))
        as (res & d & D & QD & _);
      rewrite D; destruct res; simpl
  end.

Ltac blank_attempt a :=
  let Eb := fresh "Eb" in
  destruct (blank_raises s a) eqn:Eb; simpl.

Ltac close_page :=
  destruct (close_raises s); simpl.

Ltac refute_search H :=
  match goal with
  | E : get_direct_amazon_link_async _ (searches s ?a) = (Returned (Some _), _)
    |- _ =>
      let Ha := fresh in
      assert (Ha : (a < 3)%nat) by lia;
      specialize (H a Ha); rewrite E in H; discriminate H
  end.

Ltac refute_found H :=
  let a := fresh "a" in
  let Ha := fresh in
  let Hn := fresh in
  destruct H as (a & Ha & Hn);
  destruct a as [|[|[|a]]]; [| | |lia];
  match goal with
  | E : get_direct_amazon_link_async _ (searches s ?b) = (Returned None, _)
    |- _ => rewrite E in Hn; now elim Hn
  end.

Ltac refute_download H :=
  match goal with
  | D : download_track _ _ ?u ?o true (downloads s ?a) = (Returned (DownloadOk ?p ?z), _)
    |- _ =>
      specialize (H u o a (DownloadOk p z)); rewrite D in H;
      specialize (H eq_refl); discriminate H
  end.

Ltac refute_blank H :=
  match goal with
  | Eb : blank_raises s ?a = Some _ |- _ =>
      specialize (H a); rewrite Eb in H; discriminate H
  end.

Ltac read_trace Hst :=
  eexists; split; [reflexivity|];
  to_landmarks;
  repeat (rewrite landmarks_cons || rewrite landmarks_app || rewrite Hst);
  repeat match goal with Q : landmarks _ = [] |- _ => rewrite Q; clear Q end;
  unfold count_events; simpl.

Ltac settle :=
  repeat match goal with |- _ /\ _ => split end;
  try solve [ reflexivity | lia | intros; lia | intros; discriminate
            | intros; congruence
            | let H := fresh in intros _ _ H; refute_search H
            | let H := fresh in intros _ _ H _ _; refute_found H
            | let H := fresh in intros _ _ _ H _; refute_download H
            | let H := fresh in intros _ _ _ _ H; refute_blank H ].

Ltac download_phase Hst :=
  download_attempt 0%nat;
  [ close_page; read_trace Hst; settle
  | blank_attempt 0%nat;
    [ close_page; read_trace Hst; settle
    | download_attempt 1%nat;
      [ close_page; read_trace Hst; settle
      | blank_attempt 1%nat; close_page; read_trace Hst; settle ] ] ].

Lemma process_track_policy :
  exists evs,
    process_track_async client download_dir t index s = (Returned tt, evs) /\
    (count_events is_search evs <= 3)%nat /\
    (count_events is_download evs <= 2)%nat /\
    (count_events is_retry evs <= count_events is_pause evs)%nat /\
    governor_calls evs = [] /\
    count_events is_worker_start evs = 1%nat /\
    (count_events is_skipped evs = 1%nat ->
     count_events is_search evs = 3%nat /\
     count_events is_download evs = 0%nat) /\
    (count_events is_permanent_failure evs = 1%nat ->
     count_events is_download evs = 2%nat) /\
    (new_page_raises s = None -> page_setup_raises s = None ->
     (forall a, (a < 3)%nat ->
        fst (get_direct_amazon_link_async (query t) (searches s a))
        = Returned None) ->
     count_events is_skipped evs = 1%nat) /\
    (new_page_raises s = None -> page_setup_raises s = None ->
     (exists a, (a < 3)%nat /\
        fst (get_direct_amazon_link_async (query t) (searches s a))
        <> Returned None) ->
     (forall u o a r,
        fst (download_track client download_dir u o true (downloads s a))
        = Returned r -> success r = false) ->
     (forall a, blank_raises s a = None) ->
     count_events is_permanent_failure evs = 1%nat).
Proof.
  pose proof (stagger_not_landmark index) as Hst.
  unfold process_track_async. cbv zeta.
  set (safe_name := _sanitize_filename _).
  set (output_path := path_join _ _).
  destruct (new_page_raises s) eqn:Enp.
  { simpl. read_trace Hst. settle. }
  destruct (page_setup_raises s) eqn:Eps.
  { simpl. close_page; read_trace Hst; settle. }
  simpl.
  search_attempt 0%nat;
    [ download_phase Hst
    | search_attempt 1%nat;
      [ download_phase Hst
      | search_attempt 2%nat;
        [ download_phase Hst
        | close_page; read_trace Hst; settle ] ] ].
Qed.

End Worker.

(** Every worker is run, whatever became of the tracks before it, and the
    whole run never calls the governor. *)
Lemma gather_runs_all (client : LucidaClient) (download_dir : string)
    (tracks : list Track) (first : nat) (scripts : nat -> TrackScript) :
  exists evs,
    gather client download_dir tracks first scripts = (Returned tt, evs) /\
    count_events is_worker_start evs = List.length tracks /\
    governor_calls evs = [].
Proof.
  revert first. induction tracks as [|t tracks IH]; intro first.
  - exists []. repeat split.
  - destruct (process_track_policy client download_dir t first (scripts first))
      as (e1 & E1 & _ & _ & _ & G1 & W1 & _).
    destruct (IH (S first)) as (e2 & E2 & W2 & G2).
    exists (e1 ++ e2). cbn [gather]. unfold andthen. rewrite E1, E2.
    split; [reflexivity|]. split.
    + rewrite count_events_app, W1, W2. reflexivity.
    + rewrite governor_calls_landmarks, landmarks_app.
      rewrite governor_calls_landmarks in G1, G2.
      induction (landmarks e1) as [|e l IHl]; [exact G2|].
      destruct e; simpl in *; try discriminate; now apply IHl.
Qed.

Lemma prefix_app (a b : string) : String.prefix a (a ++ b) = true.
Proof.
  induction a as [|c a IH]; simpl.
  - now destruct b.
  - destruct (Ascii.ascii_dec c c); [exact IH | contradiction].
Qed.

(** ** Requests and the governor (C2) *)

(** C2 fails on the code.  [download_track] makes the download directory and
    goes to the service at once; neither it nor the worker around it ever
    calls [wait], [record_success] or [record_error]: the trace of a whole run
    holds a request to the service and no call on the governor. *)
Theorem requests_bypass_governor :
  forall (client : LucidaClient) (download_dir url : string)
         (output_path : option string) (s : DownloadScript),
    makedirs_raises s = None ->
    (exists r rest,
       download_track client download_dir url output_path true s
       = (Returned r,
          MakeDirs download_dir :: Print (MsgNavigating url)
          :: Goto (base_url client ++ "?url=" ++ url) :: rest) /\
       is_request_to (base_url client)
         (Goto (base_url client ++ "?url=" ++ url)) = true /\
       governor_calls
         (snd (download_track client download_dir url output_path true s))
       = []) /\
    (forall (t : Track) (index : nat) (ts : TrackScript),
       governor_calls
         (snd (process_track_async client download_dir t index ts)) = []) /\
    (forall (tracks : list Track) (scripts : nat -> TrackScript),
       governor_calls (snd (gather client download_dir tracks 0 scripts)) = []).
Proof.
  intros client download_dir url output_path s Hmk. split; [|split].
  - destruct (download_track_shape client download_dir url output_path s)
      as (r & rest & E & Q & Hgo).
    destruct (Hgo Hmk) as (rest' & ->).
    exists r, rest'. split; [exact E|]. split.
    + simpl. apply prefix_app.
    + rewrite E. cbn [snd]. rewrite governor_calls_landmarks.
      rewrite landmarks_cons, Q. reflexivity.
  - intros t index ts.
    destruct (process_track_policy client download_dir t index ts)
      as (evs & E & _ & _ & _ & G & _).
    now rewrite E.
  - intros tracks scripts.
    destruct (gather_runs_all client download_dir tracks 0 scripts)
      as (evs & E & _ & G).
    now rewrite E.
Qed.

Lemma requests_bypass_governor_witness :
  (exists r rest,
     download_track Scripts.a_client "dl" "https://music.amazon.com/x"
       (Some "dl/a.flac"%string) true Scripts.smooth_download
     = (Returned r,
        MakeDirs "dl" :: Print (MsgNavigating "https://music.amazon.com/x")
        :: Goto (base_url Scripts.a_client ++ "?url="
                 ++ "https://music.amazon.com/x") :: rest) /\
     is_request_to (base_url Scripts.a_client)
       (Goto (base_url Scripts.a_client ++ "?url="
              ++ "https://music.amazon.com/x")) = true /\
     governor_calls
       (snd (download_track Scripts.a_client "dl" "https://music.amazon.com/x"
               (Some "dl/a.flac"%string) true Scripts.smooth_download))
     = []) /\
  (forall (t : Track) (index : nat) (ts : TrackScript),
     governor_calls
       (snd (process_track_async Scripts.a_client "dl" t index ts)) = []) /\
  (forall (tracks : list Track) (scripts : nat -> TrackScript),
     governor_calls (snd (gather Scripts.a_client "dl" tracks 0 scripts)) = []).
Proof.
  apply (requests_bypass_governor Scripts.a_client "dl"
           "https://music.amazon.com/x" (Some "dl/a.flac"%string)
           Scripts.smooth_download).
  reflexivity.
Defined.

(** The one method of the client that calls the governor; no other method
    calls it. *)
Example rate_limit_calls_wait :
  governor_calls (snd (_rate_limit Scripts.a_client)) = [CallWait].
Proof. reflexivity. Qed.

(** A whole run on one track that is found and downloaded at the first
    attempt: one request to the service, no call on the governor. *)
Example smooth_run_trace :
  let tr := snd (gather Scripts.a_client "dl" [Scripts.a_track] 0
                   (fun _ => Scripts.smooth_track)) in
  count_events (is_request_to "https://lucida.to") tr = 1%nat /\
  count_events is_completed tr = 1%nat /\
  governor_calls tr = [].
Proof. vm_compute. auto. Qed.

(** ** The retry policy of the worker (C6) *)

(** C6: a worker always returns.  It makes at most 3 resolution attempts and
    at most 2 download attempts; each retry comes after a pause of 2
    seconds, and the governor is not called.  When the three resolution
    attempts fail the track is reported as skipped, and that report means
    three resolution attempts and no download attempt; the report of a
    permanent failure means two download attempts, and is given when a link
    was found and both downloads failed.  Whatever happens to a track, the
    driver runs the worker of every track of the playlist. *)
Theorem worker_retry_policy :
  forall (client : LucidaClient) (download_dir : string),
    (forall (t : Track) (index : nat) (s : TrackScript),
      exists evs,
        process_track_async client download_dir t index s = (Returned tt, evs) /\
        (count_events is_search evs <= 3)%nat /\
        (count_events is_download evs <= 2)%nat /\
        (count_events is_retry evs <= count_events is_pause evs)%nat /\
        governor_calls evs = [] /\
        (count_events is_skipped evs = 1%nat ->
         count_events is_search evs = 3%nat /\
         count_events is_download evs = 0%nat) /\
        (count_events is_permanent_failure evs = 1%nat ->
         count_events is_download evs = 2%nat) /\
        (new_page_raises s = None -> page_setup_raises s = None ->
         (forall a, (a < 3)%nat ->
            fst (get_direct_amazon_link_async (query t) (searches s a))
            = Returned None) ->
         count_events is_skipped evs = 1%nat) /\
        (new_page_raises s = None -> page_setup_raises s = None ->
         (exists a, (a < 3)%nat /\
            fst (get_direct_amazon_link_async (query t) (searches s a))
            <> Returned None) ->
         (forall u o a r,
            fst (download_track client download_dir u o true (downloads s a))
            = Returned r -> success r = false) ->
         (forall a, blank_raises s a = None) ->
         count_events is_permanent_failure evs = 1%nat)) /\
    (forall (tracks : list Track) (scripts : nat -> TrackScript),
      exists evs,
        gather client download_dir tracks 0 scripts = (Returned tt, evs) /\
        count_events is_worker_start evs = List.length tracks).
Proof.
  intros client download_dir. split.
  - intros t index s.
    destruct (process_track_policy client download_dir t index s)
      as (evs & E & H1 & H2 & H3 & H4 & _ & H5 & H6 & H7 & H8).
    exists evs. repeat split; try assumption; now apply H5.
  - intros tracks scripts.
    destruct (gather_runs_all client download_dir tracks 0 scripts)
      as (evs & E & W & _).
    exists evs. split; assumption.
Qed.

(** The landmarks of a worker whose three searches find nothing, and of one
    whose two downloads fail. *)
Example unresolved_track_trace :
  landmarks (snd (process_track_async Scripts.a_client "dl" Scripts.a_track 0
                    Scripts.unresolved_track))
  = [ SemaphoreEnter;
      Print (MsgSearching "Jake Cornell Back To You"); AsyncSleep 2;
      Print (MsgRetryingSearch 2);
      Print (MsgSearching "Jake Cornell Back To You"); AsyncSleep 2;
      Print (MsgRetryingSearch 3);
      Print (MsgSearching "Jake Cornell Back To You"); AsyncSleep 2;
      Print (MsgSkipping "Back To You") ].
Proof. vm_compute. reflexivity. Qed.

Example undownloadable_track_trace :
  landmarks (snd (process_track_async Scripts.a_client "dl" Scripts.a_track 0
                    Scripts.undownloadable_track))
  = [ SemaphoreEnter;
      Print (MsgSearching "Jake Cornell Back To You");
      MakeDirs "dl"; AsyncSleep 2;
      Print (MsgRetryingDownload 2);
      MakeDirs "dl"; AsyncSleep 2;
      Print (MsgPermanentFailure "Jake Cornell - Back To You.flac") ].
Proof. vm_compute. reflexivity. Qed.

(** A playlist whose first track cannot be resolved and whose second cannot be
    downloaded: the third is still processed and completes. *)
Example failures_do_not_halt :
  let scripts := fun i => match i with
                          | O => Scripts.unresolved_track
                          | S O => Scripts.undownloadable_track
                          | _ => Scripts.smooth_track
                          end in
  let r := gather Scripts.a_client "dl"
             [Scripts.a_track; Scripts.a_track; Scripts.a_track] 0 scripts in
  fst r = Returned tt /\
  map (fun p => count_events p (snd r))
      [is_worker_start; is_skipped; is_permanent_failure; is_completed]
  = [3; 1; 1; 1]%nat.
Proof. vm_compute. auto. Qed.

(** * Further properties of the governor *)

(** ** The log in the order of time *)

Lemma sorted_app_last (l : list Q) (x : Q) :
  StronglySorted Qle l -> Forall (fun t => t <= x) l ->
  StronglySorted Qle (l ++ [x]).
Proof.
  induction l as [|t l IH]; intros Hs Hf; simpl.
  - constructor; constructor.
  - inversion Hs; subst. inversion Hf; subst. constructor.
    + now apply IH.
    + apply Forall_app. split; [assumption | now constructor].
Qed.

Lemma sorted_tl (l : list Q) :
  StronglySorted Qle l -> StronglySorted Qle (tl l).
Proof.
  intro H. destruct l; [exact H|]. now inversion H.
Qed.

Lemma Forall_tl {A} (P : A -> Prop) (l : list A) : Forall P l -> Forall P (tl l).
Proof.
  intro H. destruct l; [exact H|]. now inversion H.
Qed.

Lemma last_tl_app (l : list Q) (x d : Q) :
  tl (l ++ [x]) <> [] -> last (tl (l ++ [x])) d = x.
Proof.
  destruct l as [|t l]; simpl; [congruence|]. intros _. apply last_last.
Qed.

(** What [append] leaves in the deque: the old items and the new one, less
    the oldest when there was no room. *)
Lemma deque_append_items (d : deque) (x : Q) :
  items (deque_append d x) = items d ++ [x] \/
  items (deque_append d x) = tl (items d ++ [x]).
Proof.
  unfold deque_append. simpl. destruct (_ <? _)%Z; auto.
Qed.

Lemma Forall_le_mono (c1 c2 : Q) (l : list Q) :
  c1 <= c2 -> Forall (fun t => t <= c1) l -> Forall (fun t => t <= c2) l.
Proof.
  intros Hc H. eapply Forall_impl; [|exact H]. simpl. intros t Ht. lra.
Qed.

Lemma record_request_chrono (self : RateLimiter) (w w' : World) :
  chrono self w -> clock w <= clock w' ->
  chrono (record_request self (clock w')) w'.
Proof.
  intros [Hs Hp Hl Hn] Hc.
  assert (Hp' : Forall (fun t => t <= clock w') (items (request_times self)))
    by (now apply Forall_le_mono with (clock w)).
  assert (Hs' : StronglySorted Qle (items (request_times self) ++ [clock w']))
    by (now apply sorted_app_last).
  assert (Hf' : Forall (fun t => t <= clock w')
                  (items (request_times self) ++ [clock w'])).
  { apply Forall_app. split; [exact Hp'|]. constructor; [lra | constructor]. }
  unfold record_request. constructor; cbn [request_times last_request_time].
  - destruct (deque_append_items (request_times self) (clock w')) as [-> | ->];
      [exact Hs' | now apply sorted_tl].
  - destruct (deque_append_items (request_times self) (clock w')) as [-> | ->];
      [exact Hf' | now apply Forall_tl].
  - lra.
  - destruct (deque_append_items (request_times self) (clock w')) as [-> | ->].
    + intros _. apply last_last.
    + apply last_tl_app.
Qed.

Lemma step_chrono (c : call) (self self' : RateLimiter) (w w' : World) :
  world_ok w -> chrono self w -> call_ok c -> step c self w = Ok (self', w') ->
  world_ok w' /\ chrono self' w' /\ clock w <= clock w'.
Proof.
  intros Hw Hch Hc H. destruct c; simpl in H.
  - destruct (wait_result _ _ _ _ Hw H) as (-> & Hw' & Hclk).
    destruct (after_windows_ok self w Hw) as (_ & C3 & _).
    assert (Hle : clock w <= clock w') by lra.
    split; [exact Hw' | split; [exact (record_request_chrono self w w' Hch Hle) | exact Hle]].
  - inversion H; subst; clear H. split; [exact Hw|]. split; [|lra].
    destruct Hch. constructor; assumption.
  - inversion H; subst; clear H. split; [exact Hw|]. split; [|lra].
    destruct Hch. constructor; assumption.
  - inversion H; subst; clear H. split; [exact Hw|]. split; [exact Hch | lra].
  - inversion H; subst; clear H. simpl in Hc. split; [exact Hw|].
    split; [|simpl; lra]. destruct Hch as [Hs Hp Hl Hn].
    constructor; simpl; try assumption; [|lra].
    apply Forall_le_mono with (clock w); [lra | exact Hp].
Qed.

Lemma run_chrono (cs : list call) (self self' : RateLimiter) (w w' : World) :
  world_ok w -> chrono self w -> Forall call_ok cs ->
  run cs self w = Ok (self', w') ->
  world_ok w' /\ chrono self' w' /\ clock w <= clock w'.
Proof.
  revert self w. induction cs as [|c cs IH]; intros self w Hw Hch Hcs H.
  - inversion H; subst. split; [exact Hw | split; [exact Hch | lra]].
  - rewrite run_cons in H.
    destruct (step c self w) as [[self1 w1]|e] eqn:E; [|discriminate].
    inversion Hcs as [|c0 cs0 Hc Hcs']; subst.
    destruct (step_chrono _ _ _ _ _ Hw Hch Hc E) as (Hw1 & Hch1 & C1).
    destruct (IH _ _ Hw1 Hch1 Hcs' H) as (Hw2 & Hch2 & C2).
    split; [exact Hw2 | split; [exact Hch2 | lra]].
Qed.

Lemma fresh_chrono (rpm rph : Z) (md : Q) (w : World) :
  0 <= clock w -> chrono (fresh rpm rph md) w.
Proof.
  intro H. constructor; simpl; try constructor; try congruence; exact H.
Qed.

(** X1: the log of a governor is always in the order of time, with no entry
    later than the clock; the last request time is not later than the clock
    either, and whenever the log is not empty its newest entry is the last
    request time. *)
Theorem log_is_chronological :
  forall (rpm rph : option Z) (md : option Q) (self0 self : RateLimiter)
         (cs : list call) (w0 w : World),
    RateLimiter_init rpm rph md = Ok self0 ->
    0 <= clock w0 -> world_ok w0 -> Forall call_ok cs ->
    run cs self0 w0 = Ok (self, w) ->
    StronglySorted Qle (items (request_times self)) /\
    Forall (fun t => t <= clock w) (items (request_times self)) /\
    last_request_time self <= clock w /\
    (items (request_times self) <> [] ->
     last (items (request_times self)) 0 = last_request_time self).
Proof.
  intros rpm rph md self0 self cs w0 w Hinit Hc Hw Hcs Hrun.
  destruct (init_fresh _ _ _ _ Hinit) as (-> & _).
  destruct (run_chrono _ _ _ _ _ Hw (fresh_chrono _ _ _ _ Hc) Hcs Hrun)
    as (_ & [Hs Hp Hl Hn] & _).
  repeat split; assumption.
Qed.

Lemma log_is_chronological_witness :
  exists self w,
    run [CallWait; Elapse 1; CallWait; CallRecordError; CallWait]
        (fresh 2 2 0) (mkWorld 1000 [] []) = Ok (self, w) /\
    StronglySorted Qle (items (request_times self)) /\
    Forall (fun t => t <= clock w) (items (request_times self)) /\
    last_request_time self <= clock w /\
    (items (request_times self) <> [] ->
     last (items (request_times self)) 0 = last_request_time self).
Proof.
  do 2 eexists. split; [reflexivity|].
  apply (log_is_chronological (Some 2%Z) (Some 2%Z) (Some 0) (fresh 2 2 0) _
           [CallWait; Elapse 1; CallWait; CallRecordError; CallWait]
           (mkWorld 1000 [] [])).
  - reflexivity.
  - simpl. lra.
  - constructor.
  - repeat constructor. simpl. lra.
  - reflexivity.
Defined.

(** ** The size of the log *)

Lemma deque_append_len (d : deque) (x : Q) :
  (deque_len d <= maxlen d)%Z ->
  deque_len (deque_append d x) = Z.min (deque_len d + 1) (maxlen d).
Proof.
  unfold deque_len, deque_append. simpl. intro H.
  rewrite length_app. simpl List.length.
  destruct (maxlen d <? Z.of_nat (List.length (items d) + 1))%Z eqn:E.
  - apply Z.ltb_lt in E.
    destruct (items d) as [|t l]; simpl List.length in *; [lia|].
    rewrite length_app. simpl List.length. lia.
  - apply Z.ltb_ge in E. rewrite length_app. simpl List.length. lia.
Qed.

Lemma count_waits_cons (c : call) (cs : list call) :
  count_waits (c :: cs) =
  ((if is_wait_call c then 1 else 0) + count_waits cs)%Z.
Proof.
  unfold count_waits. simpl. destruct (is_wait_call c); simpl List.length; lia.
Qed.

Lemma run_log_length (cs : list call) (self self' : RateLimiter) (w w' : World) :
  run cs self w = Ok (self', w') ->
  (deque_len (request_times self) <= maxlen (request_times self))%Z ->
  maxlen (request_times self') = maxlen (request_times self) /\
  deque_len (request_times self')
  = Z.min (deque_len (request_times self) + count_waits cs)
          (maxlen (request_times self)).
Proof.
  revert self w. induction cs as [|c cs IH]; intros self w H Hl.
  - inversion H; subst. split; [reflexivity|]. unfold count_waits. simpl. lia.
  - rewrite run_cons in H.
    destruct (step c self w) as [[self1 w1]|e] eqn:E; [|discriminate].
    rewrite count_waits_cons.
    destruct c; simpl in E;
      try (inversion E; subst; clear E;
           destruct (IH _ _ H Hl) as (Hm & Hn); simpl in *;
           split; [exact Hm | rewrite Hn; f_equal; lia]).
    apply wait_records in E. subst self1.
    pose proof (deque_append_length (request_times self) (clock w1) Hl) as Hl1.
    pose proof (deque_append_len (request_times self) (clock w1) Hl) as Hn1.
    destruct (IH (record_request self (clock w1)) w1 H Hl1) as (Hm & Hn).
    cbn [record_request request_times] in *.
    rewrite deque_append_maxlen in *. split; [exact Hm|].
    rewrite Hn, Hn1. simpl is_wait_call. cbv iota.
    pose proof (Z.le_ge_cases (deque_len (request_times self) + 1)
                  (maxlen (request_times self))).
    unfold count_waits. lia.
Qed.

(** X2: the log holds one entry per [wait] that returned, up to its capacity
    [requests_per_hour]: after a sequence with [n] [wait] calls its length,
    which [get_stats] reports as [total_requests], is [min(n,
    requests_per_hour)]. *)
Theorem log_length_is_capped_count :
  forall (rpm rph : option Z) (md : option Q) (self0 self : RateLimiter)
         (cs : list call) (w0 w : World),
    RateLimiter_init rpm rph md = Ok self0 ->
    run cs self0 w0 = Ok (self, w) ->
    Z.of_nat (List.length (items (request_times self)))
    = Z.min (count_waits cs) (requests_per_hour self0) /\
    exists d, get_stats self w = Ok ((d, self), w) /\
              stat "total_requests" d
              = Some (Z.min (count_waits cs) (requests_per_hour self0)).
Proof.
  intros rpm rph md self0 self cs w0 w Hinit Hrun.
  destruct (init_fresh _ _ _ _ Hinit) as (-> & Hrph). simpl in Hrph.
  set (f := fresh _ _ _) in *.
  assert (Hl : (deque_len (request_times f) <= maxlen (request_times f))%Z).
  { unfold deque_len. simpl. lia. }
  destruct (run_log_length _ _ _ _ _ Hrun Hl) as (_ & Hn).
  unfold deque_len in Hn. simpl in Hn. simpl requests_per_hour.
  split; [exact Hn|].
  unfold get_stats, bind, time_time, ret. cbv beta iota zeta.
  eexists. split; [reflexivity|]. simpl. unfold deque_len. now rewrite Hn.
Qed.

Lemma log_length_is_capped_count_witness :
  exists self w,
    run [CallWait; CallWait; CallGetStats; CallWait] (fresh 30 2 0)
        (mkWorld 1000 [] []) = Ok (self, w) /\
    Z.of_nat (List.length (items (request_times self)))
    = Z.min (count_waits [CallWait; CallWait; CallGetStats; CallWait])
            (requests_per_hour (fresh 30 2 0)) /\
    exists d, get_stats self w = Ok ((d, self), w) /\
              stat "total_requests" d
              = Some (Z.min (count_waits [CallWait; CallWait; CallGetStats;
                                          CallWait])
                            (requests_per_hour (fresh 30 2 0))).
Proof.
  do 2 eexists. split; [reflexivity|].
  apply (log_length_is_capped_count None (Some 2%Z) (Some 0) (fresh 30 2 0) _
           [CallWait; CallWait; CallGetStats; CallWait] (mkWorld 1000 [] []));
    reflexivity.
Defined.

(** ** The size of the backoff *)

Lemma step_same_config (c : call) (self self' : RateLimiter) (w w' : World) :
  step c self w = Ok (self', w') -> same_config self self'.
Proof.
  intro H. destruct c; simpl in H.
  - apply wait_records in H. subst. repeat split.
  - inversion H; subst. repeat split.
  - inversion H; subst. repeat split.
  - inversion H; subst. repeat split.
  - inversion H; subst. repeat split.
Qed.

Lemma run_same_config (cs : list call) (self self' : RateLimiter) (w w' : World) :
  run cs self w = Ok (self', w') -> same_config self self'.
Proof.
  revert self w. induction cs as [|c cs IH]; intros self w H.
  - inversion H; subst. repeat split.
  - rewrite run_cons in H.
    destruct (step c self w) as [[self1 w1]|e] eqn:E; [|discriminate].
    destruct (step_same_config _ _ _ _ _ E) as (A1 & A2 & A3 & A4).
    destruct (IH _ _ H) as (B1 & B2 & B3 & B4).
    repeat split; congruence.
Qed.

Lemma inject_Z_pow2_succ (k : Z) :
  (0 <= k)%Z -> inject_Z (2 ^ (k + 1)) == 2 * inject_Z (2 ^ k).
Proof.
  intro H. rewrite Z.pow_add_r by lia.
  rewrite inject_Z_mult. change (inject_Z (2 ^ 1)) with 2. ring.
Qed.

(** X3: the backoff of a governor never exceeds 300 seconds.  With a
    non-negative [min_delay] it is not negative and one more reported error
    never shortens it; as long as the doubled delay stays within 300 seconds,
    one more error doubles it exactly. *)
Theorem backoff_capped_and_doubling :
  forall (rpm rph : option Z) (md : option Q) (self0 self : RateLimiter)
         (cs : list call) (w0 w : World),
    RateLimiter_init rpm rph md = Ok self0 ->
    run cs self0 w0 = Ok (self, w) ->
    backoff_of self <= 300 /\
    consecutive_errors (record_error self) = (consecutive_errors self + 1)%Z /\
    (0 <= min_delay self ->
     0 <= backoff_of self /\ backoff_of self <= backoff_of (record_error self)) /\
    (min_delay self * inject_Z (2 ^ (consecutive_errors self + 1)) <= 300 ->
     backoff_of (record_error self) == 2 * backoff_of self).
Proof.
  intros rpm rph md self0 self cs w0 w Hinit Hrun.
  pose proof (run_log_inv _ _ _ _ _ Hrun (init_log_inv _ _ _ _ Hinit))
    as (_ & _ & He).
  destruct (run_same_config _ _ _ _ _ Hrun) as (_ & _ & _ & Hcap).
  destruct (init_fresh _ _ _ _ Hinit) as (Hf & _).
  assert (Hc : max_backoff self = 300%Z) by (rewrite <- Hcap, Hf; reflexivity).
  unfold backoff_of, record_error.
  cbn [set_consecutive_errors min_delay consecutive_errors max_backoff].
  rewrite Hc. change (inject_Z 300) with 300.
  pose proof (inject_Z_pow2_succ _ He) as Hs.
  set (p := inject_Z (2 ^ consecutive_errors self)) in *.
  set (q := inject_Z (2 ^ (consecutive_errors self + 1))) in *.
  assert (Hp : 0 < p).
  { unfold p, Qlt. simpl. pose proof (Z.pow_pos_nonneg 2 _ ltac:(lia) He). lia. }
  assert (Hq : min_delay self * q == 2 * (min_delay self * p))
    by (rewrite Hs; ring).
  split; [apply Q.le_min_r|]. split; [reflexivity|]. split.
  - intro Hd.
    assert (H0 : 0 <= min_delay self * p)
      by (apply Qmult_le_0_compat; lra).
    destruct (Q.min_spec (min_delay self * p) 300) as [(A & ->)|(A & ->)];
      destruct (Q.min_spec (min_delay self * q) 300) as [(B & ->)|(B & ->)];
      split; lra.
  - intro Hle.
    destruct (Q.min_spec (min_delay self * p) 300) as [(A & ->)|(A & ->)];
      destruct (Q.min_spec (min_delay self * q) 300) as [(B & ->)|(B & ->)];
      lra.
Qed.

Lemma backoff_capped_and_doubling_witness :
  exists self w,
    run [CallRecordError; CallWait; CallRecordError] (fresh 30 500 2)
        (mkWorld 1000 [] []) = Ok (self, w) /\
    backoff_of self <= 300 /\
    consecutive_errors (record_error self) = (consecutive_errors self + 1)%Z /\
    (0 <= min_delay self ->
     0 <= backoff_of self /\ backoff_of self <= backoff_of (record_error self)) /\
    (min_delay self * inject_Z (2 ^ (consecutive_errors self + 1)) <= 300 ->
     backoff_of (record_error self) == 2 * backoff_of self).
Proof.
  do 2 eexists. split; [reflexivity|].
  eapply (backoff_capped_and_doubling None None None (fresh 30 500 2) _
            [CallRecordError; CallWait; CallRecordError] (mkWorld 1000 [] []));
    reflexivity.
Defined.

(** ** How long one [wait] can sleep *)

Lemma py_min_le (l : list Q) (d c : Q) :
  d <= c -> Forall (fun t => t <= c) l -> py_min l d <= c.
Proof.
  intros Hd Hl. destruct l as [|t l]; [exact Hd|].
  assert (Hin : In (py_min (t :: l) d) (t :: l))
    by (apply py_min_in; congruence).
  rewrite Forall_forall in Hl. now apply Hl.
Qed.

Lemma Forall_filter {A} (P : A -> Prop) (f : A -> bool) (l : list A) :
  Forall P l -> Forall P (filter f l).
Proof.
  intro H. rewrite Forall_forall in *. intros x Hx.
  apply filter_In in Hx. now apply H.
Qed.

Lemma after_min_delay_sleep (self : RateLimiter) (w : World) :
  last_request_time self <= clock w -> 0 <= min_delay self ->
  total_sleep (after_min_delay self w) <= total_sleep w + min_delay self /\
  (List.length (sleeps (after_min_delay self w))
   <= List.length (sleeps w) + 1)%nat.
Proof.
  intros Hl Hd. unfold after_min_delay. destruct (Qltb _ _).
  - rewrite total_sleep_slept. simpl sleeps. rewrite length_app. simpl.
    split; [lra | lia].
  - split; [lra | lia].
Qed.

Lemma after_window_sleep (limit : Z) (span : Q) (self : RateLimiter) (w : World) :
  0 <= span -> Forall (fun t => t <= clock w) (items (request_times self)) ->
  total_sleep (after_window limit span self w) <= total_sleep w + (span + 1) /\
  (List.length (sleeps (after_window limit span self w))
   <= List.length (sleeps w) + 1)%nat.
Proof.
  intros Hs Hp. unfold after_window. cbv zeta. destruct (limit <=? _)%Z.
  - rewrite total_sleep_slept. simpl sleeps. rewrite length_app. simpl.
    assert (Hm : py_min (filter (fun t => Qltb (clock w - span) t)
                           (items (request_times self))) (clock w - span)
                 <= clock w).
    { apply py_min_le; [lra | now apply Forall_filter]. }
    split; [lra | lia].
  - split; [lra | lia].
Qed.

(** X4: one [wait] asks for at most four sleeps, one per block, and for at
    most [min_delay + 61 + 3601 + 300] seconds of sleep in all: the spacing,
    a per-minute wait of at most 61 seconds, a per-hour wait of at most 3601
    seconds and a backoff of at most 300 seconds. *)
Theorem wait_sleep_is_bounded :
  forall (rpm rph : option Z) (md : option Q) (self0 self self' : RateLimiter)
         (cs : list call) (w0 w w' : World),
    RateLimiter_init rpm rph md = Ok self0 ->
    0 <= min_delay self0 ->
    0 <= clock w0 -> world_ok w0 -> Forall call_ok cs ->
    run cs self0 w0 = Ok (self, w) ->
    wait self w = Ok (self', w') ->
    total_sleep w' <= total_sleep w + (min_delay self0 + 61 + 3601 + 300) /\
    (List.length (sleeps w') <= List.length (sleeps w) + 4)%nat.
Proof.
  intros rpm rph md self0 self self' cs w0 w w' Hinit Hmd Hc Hw Hcs Hrun Hwait.
  destruct (init_fresh _ _ _ _ Hinit) as (Hf & _).
  assert (Hch0 : chrono self0 w0) by (rewrite Hf; now apply fresh_chrono).
  destruct (run_chrono _ _ _ _ _ Hw Hch0 Hcs Hrun) as (Hw1 & [_ Hp Hl _] & _).
  destruct (run_same_config _ _ _ _ _ Hrun) as (_ & _ & Hd & Hcap).
  assert (Hcap' : max_backoff self = 300%Z)
    by (rewrite <- Hcap, Hf; reflexivity).
  rewrite Hd in *.
  destruct (after_min_delay_sleep self w Hl Hmd) as (T1 & L1).
  destruct (after_min_delay_ok self w Hw1) as (K1 & C1 & _).
  set (w1 := after_min_delay self w) in *.
  assert (Hp1 : Forall (fun t => t <= clock w1) (items (request_times self)))
    by (now apply Forall_le_mono with (clock w)).
  assert (H60 : 0 <= 60) by lra.
  destruct (after_window_sleep (requests_per_minute self) 60 self w1 H60 Hp1)
    as (T2 & L2).
  destruct (after_window_ok (requests_per_minute self) 60 self w1 K1)
    as (K2 & C2).
  set (w2 := after_window (requests_per_minute self) 60 self w1) in *.
  assert (Hp2 : Forall (fun t => t <= clock w2) (items (request_times self)))
    by (now apply Forall_le_mono with (clock w1)).
  assert (H3600 : 0 <= 3600) by lra.
  destruct (after_window_sleep (requests_per_hour self) 3600 self w2 H3600 Hp2)
    as (T3 & L3).
  set (w3 := after_window (requests_per_hour self) 3600 self w2) in *.
  assert (Hb : backoff_of self <= 300).
  { unfold backoff_of. rewrite Hcap'. apply Q.le_min_r. }
  rewrite wait_eq in Hwait. cbv zeta in Hwait.
  change (after_windows self w) with w3 in Hwait.
  destruct (0 <? consecutive_errors self)%Z.
  - destruct (Z.abs _ <? float_int_limit)%Z; [|discriminate].
    destruct (Qltb (backoff_of self) 0); [discriminate|].
    inversion Hwait; subst; clear Hwait.
    rewrite total_sleep_slept. simpl sleeps. rewrite length_app. simpl.
    split; [lra | lia].
  - inversion Hwait; subst; clear Hwait. split; [lra | lia].
Qed.

Lemma wait_sleep_is_bounded_witness :
  exists self w self' w',
    run [CallWait; CallWait; CallRecordError] (fresh 2 500 2)
        (mkWorld 1000 [] []) = Ok (self, w) /\
    wait self w = Ok (self', w') /\
    total_sleep w'
    <= total_sleep w + (min_delay (fresh 2 500 2) + 61 + 3601 + 300) /\
    (List.length (sleeps w') <= List.length (sleeps w) + 4)%nat.
Proof.
  do 4 eexists. split; [reflexivity|]. split; [reflexivity|].
  eapply (wait_sleep_is_bounded (Some 2%Z) None None (fresh 2 500 2) _ _
            [CallWait; CallWait; CallRecordError] (mkWorld 1000 [] [])).
  - reflexivity.
  - simpl. lra.
  - simpl. lra.
  - constructor.
  - repeat constructor.
  - reflexivity.
  - reflexivity.
Defined.

(** ** When [wait] does not sleep *)

Lemma after_min_delay_cases (self : RateLimiter) (w : World) :
  (min_delay self <= clock w - last_request_time self /\
   after_min_delay self w = w) \/
  (~ min_delay self <= clock w - last_request_time self /\
   List.length (sleeps (after_min_delay self w))
   = S (List.length (sleeps w))).
Proof.
  unfold after_min_delay. destruct (Qltb _ _) eqn:E.
  - right. apply Qltb_lt in E. split; [lra|].
    simpl. rewrite length_app. simpl. lia.
  - left. apply Qltb_ge in E. split; [exact E | reflexivity].
Qed.

Lemma after_window_cases (limit : Z) (span : Q) (self : RateLimiter) (w : World) :
  ((count_newer (clock w - span) (items (request_times self)) < limit)%Z /\
   after_window limit span self w = w) \/
  (~ (count_newer (clock w - span) (items (request_times self)) < limit)%Z /\
   List.length (sleeps (after_window limit span self w))
   = S (List.length (sleeps w))).
Proof.
  unfold after_window. cbv zeta. destruct (limit <=? _)%Z eqn:E.
  - right. apply Z.leb_le in E. split; [lia|].
    simpl. rewrite length_app. simpl. lia.
  - left. apply Z.leb_gt in E. split; [exact E | reflexivity].
Qed.

(** X5: a [wait] that returns has slept in none of its blocks exactly when,
    at the call, the last request is at least [min_delay] old, both windows
    are below their limits and no error is pending; it then returns at the
    time of the call, in the world it was called in. *)
Theorem wait_sleeps_only_when_needed :
  forall (self self' : RateLimiter) (w w' : World),
    wait self w = Ok (self', w') ->
    (sleeps w' = sleeps w <-> clear_to_go self w) /\
    (clear_to_go self w ->
     w' = w /\ self' = record_request self (clock w)).
Proof.
  intros self self' w w' H. rewrite wait_eq in H. cbv zeta in H.
  unfold after_windows in H. unfold clear_to_go.
  destruct (after_min_delay_cases self w) as [(A1 & E1)|(A1 & L1)].
  - rewrite E1 in H.
    destruct (after_window_cases (requests_per_minute self) 60 self w)
      as [(A2 & E2)|(A2 & L2)].
    + rewrite E2 in H.
      destruct (after_window_cases (requests_per_hour self) 3600 self w)
        as [(A3 & E3)|(A3 & L3)].
      * rewrite E3 in H.
        destruct (0 <? consecutive_errors self)%Z eqn:E4.
        -- apply Z.ltb_lt in E4.
           destruct (Z.abs _ <? float_int_limit)%Z; [|discriminate].
           destruct (Qltb (backoff_of self) 0); [discriminate|].
           inversion H; subst; clear H. split; [split|].
           ++ simpl. intro Hs.
              apply (f_equal (@List.length Q)) in Hs.
              rewrite length_app in Hs. simpl in Hs. lia.
           ++ intros (_ & _ & _ & B). lia.
           ++ intros (_ & _ & _ & B). lia.
        -- apply Z.ltb_ge in E4. inversion H; subst; clear H.
           split; [split; [intros _; repeat split; assumption | reflexivity]|].
           intros _. split; reflexivity.
      * destruct (0 <? consecutive_errors self)%Z.
        -- destruct (Z.abs _ <? float_int_limit)%Z; [|discriminate].
           destruct (Qltb (backoff_of self) 0); [discriminate|].
           inversion H; subst; clear H. split; [split|].
           ++ simpl. intro Hs. apply (f_equal (@List.length Q)) in Hs.
              rewrite length_app, L3 in Hs. simpl in Hs. lia.
           ++ intros (_ & _ & B & _). contradiction.
           ++ intros (_ & _ & B & _). contradiction.
        -- inversion H; subst; clear H. split; [split|].
           ++ intro Hs. apply (f_equal (@List.length Q)) in Hs.
              rewrite L3 in Hs. lia.
           ++ intros (_ & _ & B & _). contradiction.
           ++ intros (_ & _ & B & _). contradiction.
    + pose proof (after_window_sleeps (requests_per_hour self) 3600 self
                    (after_window (requests_per_minute self) 60 self w))
        as (ds & Hds).
      assert (Hlen : (List.length (sleeps w)
                      < List.length (sleeps (after_window (requests_per_hour self)
                           3600 self (after_window (requests_per_minute self)
                                        60 self w))))%nat).
      { rewrite Hds, length_app, L2. lia. }
      destruct (0 <? consecutive_errors self)%Z.
      * destruct (Z.abs _ <? float_int_limit)%Z; [|discriminate].
        destruct (Qltb (backoff_of self) 0); [discriminate|].
        inversion H; subst; clear H. split; [split|].
        -- simpl. intro Hs. apply (f_equal (@List.length Q)) in Hs.
           rewrite length_app in Hs. simpl in Hs. lia.
        -- intros (_ & B & _ & _). contradiction.
        -- intros (_ & B & _ & _). contradiction.
      * inversion H; subst; clear H. split; [split|].
        -- intro Hs. apply (f_equal (@List.length Q)) in Hs. lia.
        -- intros (_ & B & _ & _). contradiction.
        -- intros (_ & B & _ & _). contradiction.
  - pose proof (after_window_sleeps (requests_per_minute self) 60 self
                  (after_min_delay self w)) as (d1 & Hd1).
    pose proof (after_window_sleeps (requests_per_hour self) 3600 self
                  (after_window (requests_per_minute self) 60 self
                     (after_min_delay self w))) as (d2 & Hd2).
    assert (Hlen : (List.length (sleeps w)
                    < List.length (sleeps (after_window (requests_per_hour self)
                         3600 self (after_window (requests_per_minute self)
                                      60 self (after_min_delay self w)))))%nat).
    { rewrite Hd2, Hd1, !length_app, L1. lia. }
    destruct (0 <? consecutive_errors self)%Z.
    + destruct (Z.abs _ <? float_int_limit)%Z; [|discriminate].
      destruct (Qltb (backoff_of self) 0); [discriminate|].
      inversion H; subst; clear H. split; [split|].
      * simpl. intro Hs. apply (f_equal (@List.length Q)) in Hs.
        rewrite length_app in Hs. simpl in Hs. lia.
      * intros (B & _). contradiction.
      * intros (B & _). contradiction.
    + inversion H; subst; clear H. split; [split|].
      * intro Hs. apply (f_equal (@List.length Q)) in Hs. lia.
      * intros (B & _). contradiction.
      * intros (B & _). contradiction.
Qed.

Lemma wait_sleeps_only_when_needed_witness :
  exists self' w',
    wait (fresh 30 500 2) (mkWorld 1000 [] []) = Ok (self', w') /\
    (sleeps w' = sleeps (mkWorld 1000 [] [])
     <-> clear_to_go (fresh 30 500 2) (mkWorld 1000 [] [])) /\
    (clear_to_go (fresh 30 500 2) (mkWorld 1000 [] []) ->
     w' = mkWorld 1000 [] [] /\
     self' = record_request (fresh 30 500 2) (clock (mkWorld 1000 [] []))).
Proof.
  do 2 eexists. split; [reflexivity|].
  apply (wait_sleeps_only_when_needed (fresh 30 500 2) _ (mkWorld 1000 [] []) _).
  reflexivity.
Defined.

(** ** The limits over the whole history *)

Lemma count_within_app (a b : Q) (l1 l2 : list Q) :
  count_within a b (l1 ++ l2) = (count_within a b l1 + count_within a b l2)%Z.
Proof.
  unfold count_within. rewrite filter_app, length_app. lia.
Qed.

Lemma count_within_le_newer (a b : Q) (l : list Q) :
  (count_within a b l <= count_newer a l)%Z.
Proof.
  unfold count_within, count_newer. apply inj_le.
  induction l as [|t l IH]; simpl; [lia|].
  destruct (Qltb a t); simpl; [|exact IH].
  destruct (Qle_bool t b); simpl; lia.
Qed.

Lemma count_within_one (a b t : Q) :
  count_within a b [t] = 1%Z /\ a < t /\ t <= b \/ count_within a b [t] = 0%Z.
Proof.
  unfold count_within. simpl.
  destruct (Qltb a t) eqn:E1; destruct (Qle_bool t b) eqn:E2; simpl; auto.
  left. apply Qltb_lt in E1. apply Qle_bool_iff in E2. auto.
Qed.

Lemma count_newer_none (c : Q) (l : list Q) :
  Forall (fun t => t <= c) l -> count_newer c l = 0%Z.
Proof.
  intro H. induction H as [|t l Ht Hl IH]; [reflexivity|].
  rewrite count_newer_cons, IH.
  assert (E : Qltb c t = false) by (now apply Qltb_ge). now rewrite E.
Qed.

Lemma count_newer_all (c : Q) (l : list Q) :
  Forall (fun t => c < t) l -> count_newer c l = Z.of_nat (List.length l).
Proof.
  intro H. induction H as [|t l Ht Hl IH]; [reflexivity|].
  rewrite count_newer_cons, IH.
  assert (E : Qltb c t = true) by (now apply Qltb_lt). rewrite E.
  simpl List.length. lia.
Qed.

(** In a sorted log with an entry that is not newer than [c], the oldest
    entry is not newer than [c]. *)
Lemma sorted_head_old (c x : Q) (l : list Q) :
  StronglySorted Qle (x :: l) ->
  (count_newer c (x :: l) < Z.of_nat (List.length (x :: l)))%Z ->
  x <= c.
Proof.
  intros Hs Hc. destruct (Qlt_le_dec c x) as [Hlt|Hle]; [|exact Hle].
  exfalso. inversion Hs as [|y l' Hs' Hall]; subst.
  assert (H : Forall (fun t => c < t) (x :: l)).
  { constructor; [exact Hlt|]. eapply Forall_impl; [|exact Hall].
    simpl. intros t Ht. lra. }
  rewrite (count_newer_all c _ H) in Hc. lia.
Qed.

(** When [wait] records the request, both windows of the log have room. *)
Lemma wait_rooms (self self' : RateLimiter) (w w' : World) :
  governor_inv self w -> minute_ok self w ->
  (1 <= requests_per_minute self)%Z -> (1 <= requests_per_hour self)%Z ->
  wait self w = Ok (self', w') ->
  (count_newer (clock w' - 60) (items (request_times self))
   < requests_per_minute self)%Z /\
  (count_newer (clock w' - 3600) (items (request_times self))
   < requests_per_hour self)%Z.
Proof.
  intros [Hw Hm Hl He Hc] Hmin Hrpm Hrph H.
  destruct (wait_result _ _ _ _ Hw H) as (_ & _ & Hclk).
  unfold after_windows in Hclk. unfold minute_ok in Hmin.
  destruct (after_min_delay_ok self w Hw) as (H1 & C1 & _).
  set (w1 := after_min_delay self w) in *.
  assert (Hmin1 : (count_newer (clock w1 - 60) (items (request_times self))
                   <= requests_per_minute self)%Z).
  { assert (Hle : clock w - 60 <= clock w1 - 60) by lra.
    pose proof (count_newer_mono _ _ (items (request_times self)) Hle). lia. }
  pose proof (after_window_room _ 60 self w1 H1 Hrpm Hmin1) as R2.
  destruct (after_window_ok (requests_per_minute self) 60 self w1 H1)
    as (H2 & C2).
  set (w2 := after_window (requests_per_minute self) 60 self w1) in *.
  assert (Hcap : (count_newer (clock w2 - 3600) (items (request_times self))
                  <= requests_per_hour self)%Z).
  { pose proof (count_newer_le_length (clock w2 - 3600)
                  (items (request_times self))).
    unfold deque_len in Hl. lia. }
  pose proof (after_window_room _ 3600 self w2 H2 Hrph Hcap) as R3.
  destruct (after_window_ok (requests_per_hour self) 3600 self w2 H2)
    as (H3 & C3).
  set (w3 := after_window (requests_per_hour self) 3600 self w2) in *.
  split.
  - assert (Hle : clock w2 - 60 <= clock w' - 60) by lra.
    pose proof (count_newer_mono _ _ (items (request_times self)) Hle). lia.
  - assert (Hle : clock w3 - 3600 <= clock w' - 3600) by lra.
    pose proof (count_newer_mono _ _ (items (request_times self)) Hle). lia.
Qed.

(** Adding a time [t] to a history keeps a window limit when fewer than
    [limit] entries of the history are within [span] of [t]. *)
Lemma window_limit_extends (span t : Q) (limit : Z) (hist : list Q) :
  (count_newer (t - span) hist < limit)%Z ->
  (forall a, (count_within a (a + span) hist <= limit)%Z) ->
  forall a, (count_within a (a + span) (hist ++ [t]) <= limit)%Z.
Proof.
  intros Hroom Hold a. rewrite count_within_app.
  destruct (count_within_one a (a + span) t) as [(-> & Ha & Hb)| ->].
  - pose proof (count_within_le_newer a (a + span) hist).
    assert (Hle : t - span <= a) by lra.
    pose proof (count_newer_mono _ _ hist Hle). lia.
  - specialize (Hold a). lia.
Qed.

Lemma wait_hist_inv (self self' : RateLimiter) (w w' : World) (hist : list Q) :
  (1 <= requests_per_minute self)%Z -> (1 <= requests_per_hour self)%Z ->
  hist_inv self w hist -> wait self w = Ok (self', w') ->
  hist_inv self' w' (hist ++ [last_request_time self']).
Proof.
  intros Hrpm Hrph [Hg Hch Hmin (old & Hsplit & Hold) H60 H3600] H.
  destruct (wait_rooms _ _ _ _ Hg Hmin Hrpm Hrph H) as (R60 & R3600).
  destruct (wait_inv _ _ _ _ Hg H) as (Hg' & _ & Hclk & Hmin').
  pose proof (inv_world _ _ Hg) as Hw.
  pose proof (inv_maxlen _ _ Hg) as Hmax.
  pose proof (inv_length _ _ Hg) as Hlen.
  destruct (wait_result _ _ _ _ Hw H) as (-> & _ & _).
  cbn [record_request last_request_time requests_per_minute requests_per_hour].
  assert (Hold' : Forall (fun t => t <= clock w' - 3600) old).
  { eapply Forall_impl; [|exact Hold]. simpl. intros t Ht. lra. }
  assert (N60 : (count_newer (clock w' - 60) hist
                 < requests_per_minute self)%Z).
  { rewrite Hsplit, count_newer_app, count_newer_none; [lia|].
    eapply Forall_impl; [|exact Hold']. simpl. intros t Ht. lra. }
  assert (N3600 : (count_newer (clock w' - 3600) hist
                   < requests_per_hour self)%Z).
  { rewrite Hsplit, count_newer_app, count_newer_none; [lia | exact Hold']. }
  constructor.
  - exact Hg'.
  - now apply (record_request_chrono self w w').
  - now apply Hmin'.
  - cbn [record_request request_times]. unfold deque_append. cbn [items].
    destruct (maxlen (request_times self)
              <? Z.of_nat (List.length (items (request_times self)
                                        ++ [clock w'])))%Z eqn:E.
    + apply Z.ltb_lt in E. rewrite length_app in E. simpl List.length in E.
      destruct (items (request_times self)) as [|x rest] eqn:Ei.
      * simpl List.length in E. lia.
      * exists (old ++ [x]). split.
        -- rewrite Hsplit, <- !app_assoc. reflexivity.
        -- apply Forall_app. split; [exact Hold'|].
           constructor; [|constructor].
           apply (sorted_head_old (clock w' - 3600) x rest).
           ++ pose proof (chrono_sorted _ _ Hch) as Hs. now rewrite Ei in Hs.
           ++ unfold deque_len in Hlen. rewrite Ei in Hlen.
              assert (Z.of_nat (List.length (x :: rest)) >=
                      maxlen (request_times self))%Z by lia.
              lia.
    + exists old. split; [|exact Hold'].
      rewrite Hsplit, <- app_assoc. reflexivity.
  - now apply window_limit_extends.
  - now apply window_limit_extends.
Qed.

Lemma quiet_step_hist_inv (c : call) (self self' : RateLimiter) (w w' : World)
    (hist : list Q) :
  is_wait_call c = false -> call_ok c ->
  hist_inv self w hist -> step c self w = Ok (self', w') ->
  hist_inv self' w' hist.
Proof.
  intros Hnw Hc [Hg Hch Hmin (old & Hsplit & Hold) H60 H3600] H.
  pose proof (inv_world _ _ Hg) as Hw.
  destruct (step_inv _ _ _ _ _ Hg Hc H) as (Hg' & (S1 & S2 & _) & Hclk & _).
  destruct (step_chrono _ _ _ _ _ Hw Hch Hc H) as (_ & Hch' & _).
  assert (Hitems : items (request_times self') = items (request_times self)).
  { destruct c; try discriminate; simpl in H; inversion H; reflexivity. }
  constructor.
  - exact Hg'.
  - exact Hch'.
  - unfold minute_ok in *. rewrite Hitems, <- S1.
    assert (Hle : clock w - 60 <= clock w' - 60) by lra.
    pose proof (count_newer_mono _ _ (items (request_times self)) Hle). lia.
  - exists old. rewrite Hitems. split; [exact Hsplit|].
    eapply Forall_impl; [|exact Hold]. simpl. intros t Ht. lra.
  - now rewrite <- S1.
  - now rewrite <- S2.
Qed.

Lemma admissions_keep_limits (cs : list call) :
  forall (self : RateLimiter) (w : World) (hist : list Q),
    (1 <= requests_per_minute self)%Z -> (1 <= requests_per_hour self)%Z ->
    Forall call_ok cs -> hist_inv self w hist ->
    forall a,
      (count_within a (a + 60) (hist ++ admissions cs self w)
       <= requests_per_minute self)%Z /\
      (count_within a (a + 3600) (hist ++ admissions cs self w)
       <= requests_per_hour self)%Z.
Proof.
  induction cs as [|c cs IH]; intros self w hist Hrpm Hrph Hcs Hinv a.
  - simpl. rewrite app_nil_r.
    split; [apply (hist_per_minute _ _ _ Hinv) | apply (hist_per_hour _ _ _ Hinv)].
  - cbn [admissions]. inversion Hcs as [|c0 cs0 Hc Hcs']; subst.
    destruct (step c self w) as [[self1 w1]|e] eqn:E.
    + destruct (step_same_config _ _ _ _ _ E) as (S1 & S2 & _).
      rewrite S1, S2 in *. rewrite app_assoc.
      apply IH; try assumption.
      destruct (is_wait_call c) eqn:Ew.
      * destruct c; try discriminate. simpl in E.
        apply wait_hist_inv with (w := w) (self := self); try assumption;
          now rewrite ?S1, ?S2.
      * rewrite app_nil_r.
        now apply (quiet_step_hist_inv c self self1 w w1).
    + rewrite app_nil_r.
      split; [apply (hist_per_minute _ _ _ Hinv)
             | apply (hist_per_hour _ _ _ Hinv)].
Qed.

(** X6: among all the times that the [wait] calls of a governor ever
    recorded, also those the log has dropped since, no interval of 60 seconds
    holds more than [requests_per_minute] and no interval of 3600 seconds more
    than [requests_per_hour], provided both limits are at least 1. *)
Theorem limits_hold_over_history :
  forall (rpm rph : option Z) (md : option Q) (self : RateLimiter)
         (cs : list call) (w : World) (a : Q),
    RateLimiter_init rpm rph md = Ok self ->
    (1 <= requests_per_minute self)%Z ->
    (1 <= requests_per_hour self)%Z ->
    0 <= clock w -> world_ok w -> Forall call_ok cs ->
    (count_within a (a + 60) (admissions cs self w)
     <= requests_per_minute self)%Z /\
    (count_within a (a + 3600) (admissions cs self w)
     <= requests_per_hour self)%Z.
Proof.
  intros rpm rph md self cs w a Hinit Hrpm Hrph Hc Hw Hcs.
  destruct (init_fresh _ _ _ _ Hinit) as (Hf & Hrph0).
  assert (Hinv : hist_inv self w []).
  { rewrite Hf in *. constructor.
    - apply fresh_inv; [exact Hrph0 | exact Hw].
    - now apply fresh_chrono.
    - unfold minute_ok, count_newer. simpl. simpl in Hrpm. lia.
    - exists []. split; [reflexivity | constructor].
    - intro b. unfold count_within. simpl. simpl in Hrpm. lia.
    - intro b. unfold count_within. simpl. simpl in Hrph. lia. }
  apply (admissions_keep_limits cs self w [] Hrpm Hrph Hcs Hinv a).
Qed.

Lemma limits_hold_over_history_witness :
  (count_within 999 (999 + 60)
     (admissions [CallWait; CallWait; CallWait; CallWait] (fresh 2 3 0)
        (mkWorld 1000 [] []))
   <= requests_per_minute (fresh 2 3 0))%Z /\
  (count_within 999 (999 + 3600)
     (admissions [CallWait; CallWait; CallWait; CallWait] (fresh 2 3 0)
        (mkWorld 1000 [] []))
   <= requests_per_hour (fresh 2 3 0))%Z.
Proof.
  apply (limits_hold_over_history (Some 2%Z) (Some 3%Z) (Some 0) (fresh 2 3 0)
           [CallWait; CallWait; CallWait; CallWait] (mkWorld 1000 [] []) 999).
  - reflexivity.
  - simpl. lia.
  - simpl. lia.
  - simpl. lra.
  - constructor.
  - repeat constructor.
Defined.

(** Four immediate calls with limits of 2 a minute and 3 an hour: the third
    waits for the minute, the fourth for the hour. *)
Example history_of_four_calls :
  map (fun t => Qred (t - 1000))
      (admissions [CallWait; CallWait; CallWait; CallWait] (fresh 2 3 0)
         (mkWorld 1000 [] []))
  = [0; 0; 61; 3601].
Proof. vm_compute. reflexivity. Qed.

(** * Further properties of the client and the worker *)

(** ** The search for a link *)


(** ** The download *)

(** While neither the button nor a captcha shows, the polling loop only
    sleeps. *)
Lemma poll_button_never (s : DownloadScript) (n i : nat) :
  (forall j, (i <= j < i + n)%nat ->
     button_visible s j = false /\ captcha_visible s j = false) ->
  poll_button s n i = (Returned false, repeat (AsyncSleep (1 # 10)) n).
Proof.
  revert i. induction n as [|n IH]; intros i H; [reflexivity|].
  cbn [poll_button repeat].
  destruct (H i ltac:(lia)) as (-> & ->).
  unfold andthen, emit. rewrite (IH (S i)); [reflexivity|].
  intros j Hj. apply H. lia.
Qed.

(** X8: when the page opens but neither the download button nor a captcha
    shows during the 150 polls, [download_track] sleeps 150 times a tenth of
    a second, then fails with "Download button never appeared."; it does
    nothing else: no click, no file saved. *)
Theorem download_gives_up_after_150_polls :
  forall (self : LucidaClient) (download_dir url : string)
         (output_path : option string) (s : DownloadScript),
    makedirs_raises s = None ->
    goto_raises s = None ->
    (forall i, (i < 150)%nat ->
       button_visible s i = false /\ captcha_visible s i = false) ->
    download_track self download_dir url output_path true s
    = (Returned (DownloadFailed "Download button never appeared."),
       [MakeDirs download_dir; Print (MsgNavigating url);
        Goto (base_url self ++ "?url=" ++ url); Print MsgWaitingForButton]
       ++ repeat (AsyncSleep (1 # 10)) 150).
Proof.
  intros self download_dir url output_path s Hmk Hgo Hnever.
  unfold download_track, _perform_download_async.
  rewrite Hmk, Hgo.
  rewrite (poll_button_never s 150 0) by (intros j Hj; apply Hnever; lia).
  generalize (repeat (AsyncSleep (1 # 10)) 150). intro l.
  cbn. rewrite app_nil_r. reflexivity.
Qed.

Lemma download_gives_up_after_150_polls_witness :
  download_track Scripts.a_client "dl" "https://music.amazon.com/x" None true
    {| makedirs_raises := None;
       goto_raises := None;
       button_visible := fun _ => false;
       captcha_visible := fun _ => false;
       captcha_wait_raises := None;
       selector_wait_raises := None;
       click_raises := None;
       suggested_filename := "a.flac";
       parent_makedirs_raises := None;
       save_raises := None;
       file_exists := false;
       getsize_raises := None;
       file_size := 0;
       own_start_raises := None;
       own_launch_raises := None;
       own_new_page_raises := None;
       own_close_raises := None |}
  = (Returned (DownloadFailed "Download button never appeared."),
     [MakeDirs "dl"; Print (MsgNavigating "https://music.amazon.com/x");
      Goto (base_url Scripts.a_client ++ "?url=" ++ "https://music.amazon.com/x");
      Print MsgWaitingForButton]
     ++ repeat (AsyncSleep (1 # 10)) 150).
Proof.
  apply (download_gives_up_after_150_polls Scripts.a_client "dl"
           "https://music.amazon.com/x" None).
  - reflexivity.
  - reflexivity.
  - intros i _. split; reflexivity.
Defined.

(** What the polling loop does: it reports a captcha, waits for the button,
    or sleeps a tenth of a second. *)
Lemma poll_button_events (s : DownloadScript) (n i : nat) :
  Forall (fun e => e = Print MsgCaptcha \/ e = WaitForSelector
                   \/ e = AsyncSleep (1 # 10))
         (snd (poll_button s n i)).
Proof.
  revert i. induction n as [|n IH]; intro i; simpl; [constructor|].
  destruct (button_visible s i); [constructor|].
  destruct (captcha_visible s i).
  - destruct (captcha_wait_raises s); simpl;
      repeat (apply Forall_cons || apply Forall_nil); auto.
  - specialize (IH (S i)). unfold andthen, emit.
    destruct (poll_button s n (S i)) as [r evs]. simpl in *.
    apply Forall_cons; auto.
Qed.

Lemma count_events_none (p : event -> bool) (P : event -> Prop) (tr : list event) :
  (forall e, P e -> p e = false) -> Forall P tr -> count_events p tr = 0%nat.
Proof.
  intros Hp H. unfold count_events.
  induction H as [|e tr He Htr IH]; [reflexivity|].
  simpl. now rewrite (Hp e He).
Qed.



(** X10: without a page, [download_track] starts Playwright, launches a
    browser, opens a page, does exactly what it does on a given page, closes
    the browser and returns the same result, as long as these four steps
    succeed.  None of them is guarded: when one raises, [download_track]
    raises.  A page that cannot be opened leaves the launched browser without
    its [close], and a [close] that raises loses the result of the download.
    Playwright is stopped whenever it was started. *)
Theorem download_with_its_own_browser :
  forall (self : LucidaClient) (download_dir url : string)
         (output_path : option string) (s : DownloadScript),
    exists r evs,
      download_track self download_dir url output_path true s
      = (Returned r, evs) /\
      (own_start_raises s = None -> own_launch_raises s = None ->
       own_new_page_raises s = None -> own_close_raises s = None ->
       download_track self download_dir url output_path false s
       = (Returned r,
          [PlaywrightStart; BrowserLaunch; NewPage] ++ evs
          ++ [BrowserClose; PlaywrightStop])) /\
      (forall e, own_start_raises s = Some e ->
       download_track self download_dir url output_path false s
       = (Raised e, [PlaywrightStart])) /\
      (forall e, own_start_raises s = None -> own_launch_raises s = Some e ->
       download_track self download_dir url output_path false s
       = (Raised e, [PlaywrightStart; BrowserLaunch; PlaywrightStop])) /\
      (forall e, own_start_raises s = None -> own_launch_raises s = None ->
       own_new_page_raises s = Some e ->
       download_track self download_dir url output_path false s
       = (Raised e,
          [PlaywrightStart; BrowserLaunch; NewPage; PlaywrightStop])) /\
      (forall e, own_start_raises s = None -> own_launch_raises s = None ->
       own_new_page_raises s = None -> own_close_raises s = Some e ->
       download_track self download_dir url output_path false s
       = (Raised e,
          [PlaywrightStart; BrowserLaunch; NewPage] ++ evs
          ++ [BrowserClose; PlaywrightStop])).
Proof.
  intros self download_dir url output_path s.
  destruct (download_track_shape self download_dir url output_path s)
    as (r & rest & E & _).
  exists r, (MakeDirs download_dir :: rest). split; [exact E|].
  unfold download_track in *.
  repeat split.
  - intros H1 H2 H3 H4. rewrite H1, H2, H3, H4.
    unfold external, try_finally, andthen, emit, done. rewrite E.
    cbn [app snd]. rewrite <- !app_assoc. reflexivity.
  - intros e H1. rewrite H1. reflexivity.
  - intros e H1 H2. rewrite H1, H2. reflexivity.
  - intros e H1 H2 H3. rewrite H1, H2, H3. reflexivity.
  - intros e H1 H2 H3 H4. rewrite H1, H2, H3, H4.
    unfold external, try_finally, andthen, emit, done, raise. rewrite E.
    cbn [app snd]. rewrite <- !app_assoc. reflexivity.
Qed.


(** ** File names *)

Lemma lstrip_split (l : list Ascii.ascii) :
  exists pre, l = pre ++ lstrip l /\ Forall (fun c => is_space c = true) pre.
Proof.
  induction l as [|c l IH]; simpl.
  - exists []. split; [reflexivity | constructor].
  - destruct (is_space c) eqn:E.
    + destruct IH as (pre & Hl & Hp). exists (c :: pre). split.
      * simpl. now rewrite <- Hl.
      * now constructor.
    + exists []. split; [reflexivity | constructor].
Qed.

Lemma lstrip_head (l : list Ascii.ascii) (c : Ascii.ascii) :
  hd_error (lstrip l) = Some c -> is_space c = false.
Proof.
  induction l as [|a l IH]; simpl; [discriminate|].
  destruct (is_space a) eqn:E; [exact IH|].
  simpl. intro H. now inversion H; subst.
Qed.

Lemma lstrip_fixed (l : list Ascii.ascii) :
  (forall c, hd_error l = Some c -> is_space c = false) -> lstrip l = l.
Proof.
  destruct l as [|a l]; [reflexivity|]. simpl. intro H.
  now rewrite (H a eq_refl).
Qed.

Lemma lstrip_in (l : list Ascii.ascii) (c : Ascii.ascii) :
  In c (lstrip l) -> In c l.
Proof.
  destruct (lstrip_split l) as (pre & Hl & _). intro H.
  rewrite Hl. apply in_or_app. now right.
Qed.

Lemma lstrip_length (l : list Ascii.ascii) :
  (List.length (lstrip l) <= List.length l)%nat.
Proof.
  destruct (lstrip_split l) as (pre & Hl & _).
  rewrite Hl at 2. rewrite length_app. lia.
Qed.

(** Stripping the end of a list leaves its first item in place. *)
Lemma rstrip_head (l : list Ascii.ascii) (c : Ascii.ascii) :
  (forall a, hd_error l = Some a -> is_space a = false) ->
  hd_error (rev (lstrip (rev l))) = Some c -> is_space c = false.
Proof.
  intros Hl Hc. destruct (lstrip_split (rev l)) as (pre & Hr & Hp).
  assert (E : l = rev (lstrip (rev l)) ++ rev pre).
  { rewrite <- rev_app_distr, <- Hr. now rewrite rev_involutive. }
  remember (rev (lstrip (rev l))) as z eqn:Hz. clear Hz Hr.
  destruct z as [|a z]; [discriminate|].
  simpl in Hc. inversion Hc; subst. apply Hl. reflexivity.
Qed.

Lemma strip_clean (l : list Ascii.ascii) :
  let out := rev (lstrip (rev (lstrip l))) in
  (forall c, hd_error out = Some c -> is_space c = false) /\
  (forall c, hd_error (rev out) = Some c -> is_space c = false).
Proof.
  cbv zeta. split.
  - intros c. apply rstrip_head. intros a. apply lstrip_head.
  - intros c. rewrite rev_involutive. apply lstrip_head.
Qed.

Lemma strip_fixed (l : list Ascii.ascii) :
  (forall c, hd_error l = Some c -> is_space c = false) ->
  (forall c, hd_error (rev l) = Some c -> is_space c = false) ->
  rev (lstrip (rev (lstrip l))) = l.
Proof.
  intros H1 H2. rewrite (lstrip_fixed l H1), (lstrip_fixed (rev l) H2).
  apply rev_involutive.
Qed.

Lemma strip_in (l : list Ascii.ascii) (c : Ascii.ascii) :
  In c (rev (lstrip (rev (lstrip l)))) -> In c l.
Proof.
  intro H. apply in_rev in H. apply lstrip_in in H.
  apply in_rev in H. now apply lstrip_in in H.
Qed.

Lemma filter_fixed {A} (f : A -> bool) (l : list A) :
  Forall (fun x => f x = true) l -> filter f l = l.
Proof.
  intro H. induction H as [|x l Hx Hl IH]; [reflexivity|].
  simpl. now rewrite Hx, IH.
Qed.

Lemma sanitize_chars (name : string) :
  list_ascii_of_string (_sanitize_filename name)
  = rev (lstrip (rev (lstrip
      (filter (fun c => negb (removed_char c)) (list_ascii_of_string name))))).
Proof.
  unfold _sanitize_filename. apply list_ascii_of_string_of_list_ascii.
Qed.

Lemma sanitize_kept (name : string) :
  Forall (fun c => negb (removed_char c) = true)
         (list_ascii_of_string (_sanitize_filename name)).
Proof.
  rewrite sanitize_chars. apply Forall_forall. intros c Hc.
  apply strip_in in Hc. apply filter_In in Hc. now destruct Hc.
Qed.

(** X11: the name that [_sanitize_filename] returns holds none of the nine
    characters it removes, so in particular no slash and no backslash; it
    neither starts nor ends with white space; it is not longer than the name
    given; and sanitizing it again changes nothing. *)
Theorem sanitized_name_is_clean :
  forall (name : string),
    let out := list_ascii_of_string (_sanitize_filename name) in
    Forall (fun c => removed_char c = false) out /\
    ~ In (Ascii.ascii_of_nat 47) out /\ ~ In (Ascii.ascii_of_nat 92) out /\
    (forall c, hd_error out = Some c -> is_space c = false) /\
    (forall c, hd_error (rev out) = Some c -> is_space c = false) /\
    (List.length out <= String.length name)%nat /\
    _sanitize_filename (_sanitize_filename name) = _sanitize_filename name.
Proof.
  intro name. cbv zeta.
  pose proof (sanitize_kept name) as Hk.
  assert (Hr : Forall (fun c => removed_char c = false)
                 (list_ascii_of_string (_sanitize_filename name))).
  { eapply Forall_impl; [|exact Hk]. simpl. intros c Hc.
    now apply negb_true_iff in Hc. }
  split; [exact Hr|]. rewrite Forall_forall in Hr.
  split; [intro H; apply Hr in H; discriminate H|].
  split; [intro H; apply Hr in H; discriminate H|].
  rewrite sanitize_chars.
  destruct (strip_clean (filter (fun c => negb (removed_char c))
                           (list_ascii_of_string name))) as (H1 & H2).
  split; [exact H1|]. split; [exact H2|]. split.
  - rewrite length_rev.
    eapply Nat.le_trans; [apply lstrip_length|]. rewrite length_rev.
    eapply Nat.le_trans; [apply lstrip_length|].
    eapply Nat.le_trans; [apply filter_length_le|].
    rewrite <- (string_of_list_ascii_of_string name) at 2.
    generalize (list_ascii_of_string name). intro l.
    induction l as [|a l IH]; simpl; lia.
  - unfold _sanitize_filename at 1.
    rewrite (filter_fixed _ _ Hk). rewrite sanitize_chars.
    rewrite (strip_fixed _ H1 H2). reflexivity.
Qed.

(** X12: a name that holds none of the removed characters and neither starts
    nor ends with white space, as [is_space] lists it for the characters
    below 256, is returned as it is. *)
Theorem clean_name_is_unchanged :
  forall (name : string),
    Forall (fun c => removed_char c = false) (list_ascii_of_string name) ->
    (forall c, hd_error (list_ascii_of_string name) = Some c ->
       is_space c = false) ->
    (forall c, hd_error (rev (list_ascii_of_string name)) = Some c ->
       is_space c = false) ->
    _sanitize_filename name = name.
Proof.
  intros name Hk H1 H2. unfold _sanitize_filename.
  rewrite filter_fixed.
  - rewrite (strip_fixed _ H1 H2). apply string_of_list_ascii_of_string.
  - eapply Forall_impl; [|exact Hk]. simpl. intros c Hc. now rewrite Hc.
Qed.

Lemma clean_name_is_unchanged_witness :
  _sanitize_filename "Jake Cornell - Back To You.flac"
  = "Jake Cornell - Back To You.flac"%string.
Proof.
  apply (clean_name_is_unchanged "Jake Cornell - Back To You.flac").
  - repeat constructor.
  - intros c H. inversion H; subst. reflexivity.
  - intros c H. inversion H; subst. reflexivity.
Defined.

(** A name with characters to remove and white space around it. *)
Example sanitize_example :
  _sanitize_filename "  AC/DC: Who Made Who? .flac "
  = "ACDC Who Made Who .flac"%string.
Proof. reflexivity. Qed.

(** ** What a worker reports and gives back *)

Lemma count_notable (p : event -> bool) (tr : list event) :
  (forall e, p e = true -> notable e = true) ->
  count_events p tr = count_events p (filter notable tr).
Proof.
  intro Hp. unfold count_events.
  induction tr as [|e tr IH]; [reflexivity|]. simpl.
  destruct (p e) eqn:E.
  - rewrite (Hp e E). simpl. rewrite E. simpl. now rewrite IH.
  - destruct (notable e); simpl; rewrite ?E; exact IH.
Qed.

Lemma notable_cons (e : event) (tr : list event) :
  filter notable (e :: tr) = (if notable e then [e] else []) ++ filter notable tr.
Proof. simpl. now destruct (notable e). Qed.

Lemma stagger_not_notable (index : nat) :
  notable (AsyncSleep (inject_Z (Z.of_nat index) * 5)) = false.
Proof.
  unfold notable. rewrite stagger_not_landmark. reflexivity.
Qed.

Lemma notable_of_landmark e : landmark e = true -> notable e = true.
Proof. unfold notable. now intros ->. Qed.

Lemma poll_button_quiet (s : DownloadScript) (n i : nat) :
  filter notable (snd (poll_button s n i)) = [].
Proof.
  pose proof (poll_button_events s n i) as H.
  induction H as [|e tr He Htr IH]; [reflexivity|].
  simpl. destruct He as [-> | [-> | ->]]; exact IH.
Qed.

Lemma download_track_quiet (self : LucidaClient) (download_dir url : string)
    (output_path : option string) (s : DownloadScript) :
  exists r rest,
    download_track self download_dir url output_path true s
    = (Returned r, MakeDirs download_dir :: rest) /\
    filter notable rest = [].
Proof.
  unfold download_track, _perform_download_async.
  pose proof (poll_button_quiet s 150 0) as Hp.
  destruct (poll_button s 150 0) as [[b|e] evs]; simpl in Hp;
    destruct s as [mk gt bv cv cw sw ck fn pm sv fe gs fs os ol op oc];
    cbn [makedirs_raises goto_raises selector_wait_raises click_raises
         suggested_filename parent_makedirs_raises save_raises file_exists
         getsize_raises file_size];
    destruct mk, gt; try destruct b; simpl;
    try (destruct sw; simpl; try (destruct ck; simpl;
         try (destruct pm; simpl;
         try (destruct sv; simpl; try (destruct fe; simpl;
         try (destruct gs; simpl))))));
    do 2 eexists; (split; [reflexivity|]);
    simpl; rewrite ?filter_app; simpl; rewrite ?Hp; reflexivity.
Qed.

Lemma search_quiet (q : string) (s : SearchScript) :
  exists o rest,
    get_direct_amazon_link_async q s
    = (Returned o, Print (MsgSearching q) :: rest) /\
    filter notable rest = [].
Proof.
  unfold get_direct_amazon_link_async.
  destruct s as [g l]; cbn [search_goto_raises links].
  destruct g; [do 2 eexists; split; reflexivity|].
  destruct l as [err|hrefs]; [do 2 eexists; split; reflexivity|].
  simpl. destruct (find (contains "trackAsin=") hrefs).
  - do 2 eexists; split; reflexivity.
  - destruct (find (contains "/tracks/") hrefs);
      do 2 eexists; split; reflexivity.
Qed.

Lemma notable_completed e : is_completed e = true -> notable e = true.
Proof. destruct e as [| | | | | | | | | | | | | |m| | | |]; try discriminate.
       destruct m; try discriminate. reflexivity. Qed.

Lemma notable_skipped e : is_skipped e = true -> notable e = true.
Proof. destruct e as [| | | | | | | | | | | | | |m| | | |]; try discriminate.
       destruct m; try discriminate. reflexivity. Qed.

Lemma notable_permanent_failure e :
  is_permanent_failure e = true -> notable e = true.
Proof. destruct e as [| | | | | | | | | | | | | |m| | | |]; try discriminate.
       destruct m; try discriminate. reflexivity. Qed.

Lemma notable_worker_error e : is_worker_error e = true -> notable e = true.
Proof. destruct e as [| | | | | | | | | | | | | |m| | | |]; try discriminate.
       destruct m; try discriminate. reflexivity. Qed.

Lemma notable_worker_start e : is_worker_start e = true -> notable e = true.
Proof. destruct e; try discriminate. reflexivity. Qed.

Lemma notable_new_page e : is_new_page e = true -> notable e = true.
Proof. destruct e; try discriminate. reflexivity. Qed.

Lemma notable_close_page e : is_close_page e = true -> notable e = true.
Proof. destruct e; try discriminate. reflexivity. Qed.

Lemma notable_semaphore_exit e : is_semaphore_exit e = true -> notable e = true.
Proof. destruct e; try discriminate. reflexivity. Qed.

Lemma notable_download e : is_download e = true -> notable e = true.
Proof. destruct e; try discriminate. reflexivity. Qed.

Section WorkerReport.

Variables (client : LucidaClient) (download_dir : string) (t : Track)
          (index : nat) (s : TrackScript).

Local Opaque get_direct_amazon_link_async download_track.

Ltac search_attempt a :=
  let o := fresh "o" in
  let r := fresh "r" in
  let E := fresh "E" in
  let Q := fresh "Q" in
  destruct (search_quiet (query t) (searches s a)) as (o & r & E & Q);
  rewrite E; destruct o as [?u|]; simpl.

Ltac download_attempt a :=
  match goal with
  | |- context [download_track client download_dir ?u ?o true (downloads s a)] =>
      let res := fresh "res" in
      let d := fresh "d" in
      let D := fresh "D" in
      let QD := fresh "QD" in
      destruct (download_track_quiet client download_dir u o (downloads s a))
        as (res & d & D & QD);
      rewrite D; destruct res; simpl
  end.

Ltac blank_attempt a :=
  let Eb := fresh "Eb" in
  destruct (blank_raises s a) eqn:Eb; simpl.

Ltac close_page :=
  destruct (close_raises s); simpl.

Ltac read_notable Hst :=
  eexists; split; [reflexivity|];
  match goal with
  | |- context [count_events is_completed ?tr] =>
      rewrite (count_notable is_completed tr notable_completed),
              (count_notable is_skipped tr notable_skipped),
              (count_notable is_permanent_failure tr
                 notable_permanent_failure),
              (count_notable is_worker_error tr notable_worker_error),
              (count_notable is_worker_start tr notable_worker_start),
              (count_notable is_new_page tr notable_new_page),
              (count_notable is_close_page tr notable_close_page),
              (count_notable is_semaphore_exit tr notable_semaphore_exit),
              (count_notable is_download tr notable_download)
  end;
  repeat (rewrite notable_cons || rewrite filter_app || rewrite Hst);
  repeat match goal with Q : filter notable _ = [] |- _ => rewrite Q; clear Q end;
  unfold count_events; simpl.

Ltac settle_report :=
  repeat match goal with |- _ /\ _ => split end;
  try solve [ reflexivity | lia | intros; lia | intros; discriminate
            | intros; congruence ].

Ltac download_phase Hst :=
  download_attempt 0%nat;
  [ close_page; read_notable Hst; settle_report
  | blank_attempt 0%nat;
    [ close_page; read_notable Hst; settle_report
    | download_attempt 1%nat;
      [ close_page; read_notable Hst; settle_report
      | blank_attempt 1%nat; close_page; read_notable Hst; settle_report ] ] ].

Lemma process_track_report :
  exists evs,
    process_track_async client download_dir t index s = (Returned tt, evs) /\
    (count_events is_completed evs + count_events is_skipped evs
     + count_events is_permanent_failure evs
     + count_events is_worker_error evs = 1)%nat /\
    (count_events is_completed evs = 1%nat ->
     (1 <= count_events is_download evs)%nat) /\
    count_events is_worker_start evs = 1%nat /\
    count_events is_semaphore_exit evs = 1%nat /\
    count_events is_new_page evs = 1%nat /\
    (new_page_raises s = None -> count_events is_close_page evs = 1%nat) /\
    (new_page_raises s <> None -> count_events is_close_page evs = 0%nat).
Proof.
  pose proof (stagger_not_notable index) as Hst.
  unfold process_track_async. cbv zeta.
  set (safe_name := _sanitize_filename _).
  set (output_path := path_join _ _).
  destruct (new_page_raises s) eqn:Enp.
  { simpl. read_notable Hst. settle_report. }
  destruct (page_setup_raises s) eqn:Eps.
  { simpl. close_page; read_notable Hst; settle_report. }
  simpl.
  search_attempt 0%nat;
    [ download_phase Hst
    | search_attempt 1%nat;
      [ download_phase Hst
      | search_attempt 2%nat;
        [ download_phase Hst
        | close_page; read_notable Hst; settle_report ] ] ].
Qed.

End WorkerReport.

Lemma gather_cons (client : LucidaClient) (download_dir : string) (t : Track)
    (tracks : list Track) (i : nat) (scripts : nat -> TrackScript)
    (e1 e2 : list event) :
  process_track_async client download_dir t i (scripts i) = (Returned tt, e1) ->
  gather client download_dir tracks (S i) scripts = (Returned tt, e2) ->
  gather client download_dir (t :: tracks) i scripts = (Returned tt, e1 ++ e2).
Proof.
  intros E1 E2. cbn [gather]. unfold andthen. now rewrite E1, E2.
Qed.


(** A worker is its staggered sleep, the entry into the semaphore, a body,
    and the exit from the semaphore. *)
Lemma process_track_shape (client : LucidaClient) (download_dir : string)
    (t : Track) (index : nat) (s : TrackScript) :
  exists body,
    process_track_async client download_dir t index s
    = (Returned tt,
       AsyncSleep (inject_Z (Z.of_nat index) * 5) :: SemaphoreEnter
       :: body ++ [SemaphoreExit]).
Proof.
  destruct (process_track_report client download_dir t index s)
    as (evs & E & _).
  unfold process_track_async in *. unfold andthen at 1 2 3 in E.
  unfold andthen at 1 2 3. unfold emit in *.
  match type of E with
  | context [try_finally ?a ?b] =>
      destruct (try_finally a b) as [[u|err] body]
  end; [|discriminate E].
  exists body. reflexivity.
Qed.

(** X14: a worker starts with its staggered sleep of [5 * index] seconds,
    then enters the semaphore, and leaving the semaphore is the last thing it
    does, whatever happened in between.  It asks for one page; when it got
    the page it closes it exactly once, and otherwise never.  Over a whole
    run the semaphore is left as often as it is entered. *)
Theorem worker_gives_back_what_it_takes :
  forall (client : LucidaClient) (download_dir : string),
    (forall (t : Track) (index : nat) (s : TrackScript),
       exists body,
         process_track_async client download_dir t index s
         = (Returned tt,
            AsyncSleep (inject_Z (Z.of_nat index) * 5) :: SemaphoreEnter
            :: body ++ [SemaphoreExit]) /\
         count_events is_worker_start body = 0%nat /\
         count_events is_semaphore_exit body = 0%nat /\
         count_events is_new_page body = 1%nat /\
         (new_page_raises s = None ->
          count_events is_close_page body = 1%nat) /\
         (new_page_raises s <> None ->
          count_events is_close_page body = 0%nat)) /\
    (forall (tracks : list Track) (first : nat) (scripts : nat -> TrackScript),
       exists evs,
         gather client download_dir tracks first scripts = (Returned tt, evs) /\
         count_events is_worker_start evs = List.length tracks /\
         count_events is_semaphore_exit evs = List.length tracks).
Proof.
  intros client download_dir. split.
  - intros t index s.
    destruct (process_track_report client download_dir t index s)
      as (evs & E & _ & _ & W & X & N & C1 & C0).
    destruct (process_track_shape client download_dir t index s) as (body & S).
    rewrite S in E. inversion E as [Hevs]. clear E. subst evs.
    exists body. split; [exact S|].
    unfold count_events in *. simpl in W, X, N, C1, C0.
    rewrite filter_app, length_app in W, X, N, C1, C0.
    simpl in W, X, N, C1, C0.
    repeat split; try lia.
    + intro H. specialize (C1 H). lia.
    + intro H. specialize (C0 H). lia.
  - intros tracks. induction tracks as [|t tracks IH]; intros first scripts.
    + exists []. repeat split.
    + destruct (process_track_report client download_dir t first (scripts first))
        as (e1 & E1 & _ & _ & W1 & X1 & _).
      destruct (IH (S first) scripts) as (e2 & E2 & W2 & X2).
      exists (e1 ++ e2). split; [now apply gather_cons|].
      rewrite !count_events_app. simpl List.length. lia.
Qed.

(** * Further properties of the governor, continued *)

(** ** Construction *)

(** X15: what the constructor does depends on [requests_per_hour] alone,
    which becomes the [maxlen] of the log: outside the range of a C
    [ssize_t] construction raises [OverflowError], from [-2**63] to [-1] it
    raises the [ValueError] of the deque, and from 0 to [2**63 - 1] it
    succeeds, for the governor and for the client alike.  No other argument is
    checked, and the governor of a client always has a [min_delay] of 2
    seconds whatever the caller passes. *)
Theorem construction_depends_on_capacity :
  forall (rpm rph : option Z) (md : option Q)
         (url : option string) (t : option Z),
    ((with_default 500%Z rph < - 2 ^ 63 \/ 2 ^ 63 <= with_default 500%Z rph)%Z ->
     RateLimiter_init rpm rph md
       = Raise (OverflowError "Python int too large to convert to C ssize_t") /\
     LucidaClient_init url t rpm rph
       = Raise (OverflowError "Python int too large to convert to C ssize_t")) /\
    ((- 2 ^ 63 <= with_default 500%Z rph < 0)%Z ->
     RateLimiter_init rpm rph md
       = Raise (ValueError "maxlen must be non-negative") /\
     LucidaClient_init url t rpm rph
       = Raise (ValueError "maxlen must be non-negative")) /\
    ((0 <= with_default 500%Z rph < 2 ^ 63)%Z ->
     RateLimiter_init rpm rph md
       = Ok (fresh (with_default 30%Z rpm) (with_default 500%Z rph)
               (with_default 2 md)) /\
     LucidaClient_init url t rpm rph
       = Ok {| base_url := with_default "https://lucida.to"%string url;
               timeout := with_default 30%Z t;
               rate_limiter := fresh (with_default 30%Z rpm)
                                 (with_default 500%Z rph) 2 |}).
Proof.
  intros rpm rph md url t. unfold LucidaClient_init, RateLimiter_init, deque_new.
  cbn [with_default]. set (n := with_default 500%Z rph).
  split; [|split]; intro H.
  - assert (E : ssize_t_fits n = false).
    { unfold ssize_t_fits. apply andb_false_iff.
      destruct H as [H|H]; [left; apply Z.leb_gt | right; apply Z.ltb_ge]; lia. }
    rewrite E. split; reflexivity.
  - assert (E : ssize_t_fits n = true).
    { unfold ssize_t_fits. apply andb_true_iff.
      split; [apply Z.leb_le | apply Z.ltb_lt]; lia. }
    assert (E' : (n <? 0)%Z = true) by (apply Z.ltb_lt; lia).
    rewrite E, E'. split; reflexivity.
  - assert (E : ssize_t_fits n = true).
    { unfold ssize_t_fits. apply andb_true_iff.
      split; [apply Z.leb_le | apply Z.ltb_lt]; lia. }
    assert (E' : (n <? 0)%Z = false) by (apply Z.ltb_ge; lia).
    rewrite E, E'. split; reflexivity.
Qed.

(** ** A capacity of zero *)

Lemma run_empty_log (cs : list call) (self self' : RateLimiter) (w w' : World) :
  maxlen (request_times self) = 0%Z -> items (request_times self) = [] ->
  run cs self w = Ok (self', w') ->
  maxlen (request_times self') = 0%Z /\ items (request_times self') = [].
Proof.
  revert self w. induction cs as [|c cs IH]; intros self w Hm Hi H.
  - inversion H; subst. split; assumption.
  - rewrite run_cons in H.
    destruct (step c self w) as [[self1 w1]|e] eqn:E; [|discriminate].
    apply (IH self1 w1); try assumption; destruct c; simpl in E;
      try (inversion E; subst; assumption).
    + apply wait_records in E. subst. exact Hm.
    + apply wait_records in E. subst. cbn [record_request request_times].
      unfold deque_append. rewrite Hm, Hi. reflexivity.
Qed.

Lemma after_window_no_room (span : Q) (self : RateLimiter) (w : World) :
  world_ok w -> items (request_times self) = [] ->
  clock w + 1 <= clock (after_window 0 span self w) /\
  (List.length (sleeps w)
   < List.length (sleeps (after_window 0 span self w)))%nat.
Proof.
  intros Hw Hi. unfold after_window. cbv zeta. rewrite Hi.
  unfold count_newer. simpl filter. simpl py_min.
  change (0 <=? Z.of_nat (List.length (@nil Q)))%Z with true. cbv iota.
  pose proof (slept_clock (span - (clock w - (clock w - span)) + 1) w Hw).
  split; [lra|]. unfold slept. cbn [sleeps]. rewrite length_app. simpl. lia.
Qed.

(** X17: with [requests_per_hour = 0] the log has no room: it stays empty
    whatever is called, [get_stats] never counts a request, and the per-hour
    check makes every [wait] sleep, so that a [wait] that returns has taken
    at least one second. *)
Theorem zero_capacity_delays_every_wait :
  forall (rpm : option Z) (md : option Q) (self0 self self' : RateLimiter)
         (cs : list call) (w0 w w' : World),
    RateLimiter_init rpm (Some 0%Z) md = Ok self0 ->
    world_ok w0 -> Forall call_ok cs ->
    run cs self0 w0 = Ok (self, w) ->
    wait self w = Ok (self', w') ->
    items (request_times self) = [] /\
    items (request_times self') = [] /\
    last_request_time self' = clock w' /\
    clock w + 1 <= clock w' /\
    (List.length (sleeps w) < List.length (sleeps w'))%nat /\
    exists d, get_stats self' w' = Ok ((d, self'), w') /\
              stat "requests_last_minute" d = Some 0%Z /\
              stat "requests_last_hour" d = Some 0%Z /\
              stat "total_requests" d = Some 0%Z.
Proof.
  intros rpm md self0 self self' cs w0 w w' Hinit Hw Hcs Hrun Hwait.
  destruct (init_fresh _ _ _ _ Hinit) as (Hf & _).
  assert (Hinv0 : governor_inv self0 w0).
  { rewrite Hf. apply fresh_inv; [simpl; lia | exact Hw]. }
  destruct (run_inv _ _ _ _ _ Hinv0 Hcs Hrun) as (Hinv & (_ & S2 & _) & _).
  pose proof (inv_world _ _ Hinv) as Hw1.
  assert (Hrph : requests_per_hour self = 0%Z)
    by (rewrite <- S2, Hf; reflexivity).
  destruct (run_empty_log cs self0 self w0 w) as (Hm & Hi);
    [rewrite Hf; reflexivity | rewrite Hf; reflexivity | exact Hrun |].
  destruct (wait_result _ _ _ _ Hw1 Hwait) as (Hs & _ & Hclk).
  assert (Hi' : items (request_times self') = []).
  { rewrite Hs. cbn [record_request request_times]. unfold deque_append.
    rewrite Hm, Hi. reflexivity. }
  unfold after_windows in Hclk.
  destruct (after_min_delay_ok self w Hw1) as (K1 & C1 & _).
  destruct (after_window_ok (requests_per_minute self) 60 self _ K1)
    as (K2 & C2).
  set (w2 := after_window (requests_per_minute self) 60 self
               (after_min_delay self w)) in *.
  assert (Hhour : clock w2 + 1 <= clock (after_window (requests_per_hour self)
                                           3600 self w2) /\
                  (List.length (sleeps w2)
                   < List.length (sleeps (after_window (requests_per_hour self)
                                            3600 self w2)))%nat).
  { rewrite Hrph. apply after_window_no_room; assumption. }
  destruct Hhour as (Hh1 & Hh2).
  assert (Hlen : (List.length (sleeps w) <= List.length (sleeps w2))%nat).
  { unfold w2.
    destruct (after_window_sleeps (requests_per_minute self) 60 self
                (after_min_delay self w)) as (d1 & ->).
    rewrite length_app.
    destruct (after_min_delay_cases self w) as [(_ & ->)|(_ & ->)]; lia. }
  assert (Hlen' : (List.length (sleeps (after_window (requests_per_hour self)
                                          3600 self w2))
                   <= List.length (sleeps w'))%nat).
  { rewrite wait_eq in Hwait. cbv zeta in Hwait.
    change (after_windows self w)
      with (after_window (requests_per_hour self) 3600 self w2) in Hwait.
    destruct (0 <? consecutive_errors self)%Z.
    - destruct (Z.abs _ <? float_int_limit)%Z; [|discriminate].
      destruct (Qltb (backoff_of self) 0); [discriminate|].
      inversion Hwait; subst. simpl sleeps. rewrite length_app. lia.
    - inversion Hwait; subst. lia. }
  split; [exact Hi|]. split; [exact Hi'|].
  split; [rewrite Hs; reflexivity|]. split; [lra|]. split; [lia|].
  unfold get_stats, bind, time_time, ret. cbv beta iota zeta.
  eexists. split; [reflexivity|]. rewrite Hi'. unfold deque_len. rewrite Hi'.
  repeat split.
Qed.

Lemma zero_capacity_delays_every_wait_witness :
  exists self w self' w',
    run [CallWait; Elapse 10] (fresh 30 0 2) (mkWorld 1000 [] [])
    = Ok (self, w) /\
    wait self w = Ok (self', w') /\
    items (request_times self) = [] /\
    items (request_times self') = [] /\
    last_request_time self' = clock w' /\
    clock w + 1 <= clock w' /\
    (List.length (sleeps w) < List.length (sleeps w'))%nat /\
    exists d, get_stats self' w' = Ok ((d, self'), w') /\
              stat "requests_last_minute" d = Some 0%Z /\
              stat "requests_last_hour" d = Some 0%Z /\
              stat "total_requests" d = Some 0%Z.
Proof.
  do 4 eexists. split; [reflexivity|]. split; [reflexivity|].
  eapply (zero_capacity_delays_every_wait None None (fresh 30 0 2) _ _
            [CallWait; Elapse 10] (mkWorld 1000 [] [])).
  - reflexivity.
  - constructor.
  - repeat constructor. simpl. lra.
  - reflexivity.
  - reflexivity.
Defined.

(** * Properties of the playlist and the prompt loop *)

Import Driver.

(** ** The playlist id *)

Lemma before_first_none (sep : Ascii.ascii) (l : list Ascii.ascii) :
  ~ In sep l -> before_first sep l = l.
Proof.
  induction l as [|c l IH]; intro H; [reflexivity|]. simpl.
  destruct (Ascii.eqb c sep) eqn:E.
  - apply Ascii.eqb_eq in E. exfalso. apply H. left. exact E.
  - f_equal. apply IH. intro K. apply H. now right.
Qed.

Lemma before_first_app (sep : Ascii.ascii) (l r : list Ascii.ascii) :
  ~ In sep l -> before_first sep (l ++ sep :: r) = l.
Proof.
  induction l as [|c l IH]; intro H.
  - simpl. now rewrite Ascii.eqb_refl.
  - simpl. destruct (Ascii.eqb c sep) eqn:E.
    + apply Ascii.eqb_eq in E. exfalso. apply H. left. exact E.
    + f_equal. apply IH. intro K. apply H. now right.
Qed.

Lemma after_last_app (sep : Ascii.ascii) (l r : list Ascii.ascii) :
  ~ In sep r -> after_last sep (l ++ sep :: r) = r.
Proof.
  intro H. unfold after_last. rewrite rev_app_distr. simpl.
  rewrite <- app_assoc. simpl. rewrite before_first_app.
  - apply rev_involutive.
  - intro K. apply H. now apply in_rev.
Qed.

Lemma list_ascii_of_string_app (a b : string) :
  list_ascii_of_string (a ++ b)
  = list_ascii_of_string a ++ list_ascii_of_string b.
Proof.
  induction a as [|c a IH]; [reflexivity|]. simpl. now rewrite IH.
Qed.

(** X18: the playlist id is what follows the last slash of the whole URL, up
    to its first question mark.  For a share URL whose id holds neither
    character and whose query holds no slash this is the id, with or without
    the query; a URL that ends in a slash gives the empty id, and a slash in
    the query makes the id start behind that slash. *)
Theorem playlist_id_of_share_url :
  forall base id q : string,
    ~ In slash (list_ascii_of_string id) ->
    ~ In question_mark (list_ascii_of_string id) ->
    ~ In slash (list_ascii_of_string q) ->
    playlist_id (base ++ "/" ++ id) = id /\
    playlist_id (base ++ "/" ++ id ++ "?" ++ q) = id.
Proof.
  intros base id q Hs Hq Hsq. unfold playlist_id. split.
  - rewrite list_ascii_of_string_app.
    change (list_ascii_of_string ("/" ++ id))
      with (slash :: list_ascii_of_string id).
    rewrite (after_last_app slash _ _ Hs), (before_first_none _ _ Hq).
    apply string_of_list_ascii_of_string.
  - rewrite list_ascii_of_string_app.
    change (list_ascii_of_string ("/" ++ id ++ "?" ++ q))
      with (slash :: list_ascii_of_string (id ++ "?" ++ q)).
    rewrite list_ascii_of_string_app.
    change (list_ascii_of_string ("?" ++ q))
      with (question_mark :: list_ascii_of_string q).
    rewrite after_last_app.
    + rewrite (before_first_app _ _ _ Hq).
      apply string_of_list_ascii_of_string.
    + intro K. apply in_app_or in K. destruct K as [K|[K|K]].
      * now apply Hs.
      * discriminate K.
      * now apply Hsq.
Qed.

Lemma playlist_id_of_share_url_witness :
  playlist_id ("https://open.spotify.com/playlist" ++ "/" ++ "37i9dQZF1DX")
  = "37i9dQZF1DX"%string /\
  playlist_id ("https://open.spotify.com/playlist" ++ "/" ++ "37i9dQZF1DX"
               ++ "?" ++ "si=abc")
  = "37i9dQZF1DX"%string.
Proof.
  apply (playlist_id_of_share_url "https://open.spotify.com/playlist"
           "37i9dQZF1DX" "si=abc");
    intro H; vm_compute in H;
    repeat (destruct H as [H|H]; [discriminate H|]); exact H.
Defined.

Example playlist_id_edge_cases :
  playlist_id "https://open.spotify.com/playlist/37i9dQZF1DX/" = ""%string /\
  playlist_id "https://open.spotify.com/playlist/37i9dQZF1DX?si=a/b"
  = "b"%string.
Proof. split; reflexivity. Qed.

(** ** The tracks of a playlist *)

Lemma collect_tracks_all (items : list (option SpotifyTrack)) :
  Forall (fun t => artist_names t <> []) (present items) ->
  exists tracks,
    collect_tracks items = Returned tracks /\
    Forall2 (fun t tr =>
               exists a others,
                 artist_names t = a :: others /\
                 tr = mkTrack (a ++ " " ++ track_name t) (track_name t) a)
      (present items) tracks.
Proof.
  induction items as [|[t|] items IH]; intro H.
  - exists []. split; [reflexivity | constructor].
  - cbn [present] in H. inversion H as [|? ? Ht Hrest]; subst.
    destruct (IH Hrest) as (tracks & E & F).
    cbn [collect_tracks present].
    destruct (artist_names t) as [|a others] eqn:Ea; [congruence|].
    rewrite E. eexists. split; [reflexivity|].
    constructor; [|exact F]. exists a, others. split; [exact Ea | reflexivity].
  - cbn [present collect_tracks] in *. now apply IH.
Qed.

Lemma collect_tracks_none (items : list (option SpotifyTrack)) :
  Exists (fun t => artist_names t = []) (present items) ->
  exists err, collect_tracks items = Raised err.
Proof.
  induction items as [|[t|] items IH]; intro H.
  - inversion H.
  - cbn [present] in H. cbn [collect_tracks].
    destruct (artist_names t) as [|a others] eqn:Ea; [eexists; reflexivity|].
    inversion H as [? ? Ht|? ? Hrest]; subst; [congruence|].
    destruct (IH Hrest) as (err & ->). eexists. reflexivity.
  - cbn [present collect_tracks] in *. now apply IH.
Qed.

(** X19: [get_playlist_tracks] asks Spotify once, for the id of the URL, and
    gives all or nothing.  When every track of the answer names an artist, it
    returns one entry per item that holds a track, in playlist order, with the
    first artist as the artist and the query made of that artist, a space and
    the track name.  When Spotify raises, or when one track has no artist, it
    returns the empty list, whatever the other tracks are. *)
Theorem playlist_tracks_all_or_nothing :
  forall (sp : string -> string + list (option SpotifyTrack)) (url : string),
    count_actions is_fetch (snd (get_playlist_tracks sp url)) = 1%nat /\
    In (PlaylistItems (playlist_id url)) (snd (get_playlist_tracks sp url)) /\
    (forall err, sp (playlist_id url) = inl err ->
                 fst (get_playlist_tracks sp url) = []) /\
    (forall items,
       sp (playlist_id url) = inr items ->
       (Forall (fun t => artist_names t <> []) (present items) ->
        Forall2 (fun t tr =>
                   exists a others,
                     artist_names t = a :: others /\
                     tr = mkTrack (a ++ " " ++ track_name t) (track_name t) a)
          (present items) (fst (get_playlist_tracks sp url))) /\
       (Exists (fun t => artist_names t = []) (present items) ->
        fst (get_playlist_tracks sp url) = [])).
Proof.
  intros sp url. unfold get_playlist_tracks. cbv zeta.
  split; [|split; [|split]].
  - destruct (sp (playlist_id url)) as [err|items]; [reflexivity|].
    destruct (collect_tracks items); reflexivity.
  - destruct (sp (playlist_id url)) as [err|items]; [simpl; auto|].
    destruct (collect_tracks items); simpl; auto.
  - intros err ->. reflexivity.
  - intros items ->. split; intro H.
    + destruct (collect_tracks_all items H) as (tracks & -> & F). exact F.
    + destruct (collect_tracks_none items H) as (err & ->). reflexivity.
Qed.

Example playlist_with_a_removed_track :
  (get_playlist_tracks
     (fun _ => inr [Some (mkSpotifyTrack "Song" ["Ann"; "Bob"]); None;
                    Some (mkSpotifyTrack "Tune" ["Cy"])])
     "https://open.spotify.com/playlist/abc?si=1"
   = ([mkTrack "Ann Song" "Song" "Ann"; mkTrack "Cy Tune" "Tune" "Cy"],
      [PrintFetching "abc"; PlaylistItems "abc"]))%string.
Proof. reflexivity. Qed.

Example playlist_with_an_artistless_track :
  (get_playlist_tracks
     (fun _ => inr [Some (mkSpotifyTrack "Song" ["Ann"]);
                    Some (mkSpotifyTrack "Tune" [])])
     "https://open.spotify.com/playlist/abc"
   = ([], [PrintFetching "abc"; PlaylistItems "abc";
           PrintPlaylistError "list index out of range"]))%string.
Proof. reflexivity. Qed.

(** ** The prompt loop *)





Lemma count_actions_app (f : action -> bool) (a b : list action) :
  count_actions f (a ++ b) = (count_actions f a + count_actions f b)%nat.
Proof. unfold count_actions. now rewrite filter_app, length_app. Qed.

Lemma count_actions_in_browser (f : action -> bool) (evs : list event) :
  (forall e, f (InBrowser e) = false) ->
  count_actions f (map InBrowser evs) = 0%nat.
Proof.
  intro H. unfold count_actions. induction evs as [|e evs IH]; [reflexivity|].
  simpl. now rewrite H.
Qed.

Lemma end_phase_app (p : phase) (a b : list action) :
  end_phase p (a ++ b)
  = match end_phase p a with
    | Some p' => end_phase p' b
    | None => None
    end.
Proof.
  revert p. induction a as [|x a IH]; intro p; [reflexivity|].
  simpl. destruct (next_phase p x); [apply IH | reflexivity].
Qed.

Lemma end_phase_in_browser (evs : list event) :
  end_phase ContextOpen (map InBrowser evs) = Some ContextOpen.
Proof. induction evs as [|e evs IH]; [reflexivity | exact IH]. Qed.

Lemma fetched_events (sp : string -> string + list (option SpotifyTrack))
    (url : string) :
  end_phase AtPrompt (snd (get_playlist_tracks sp url)) = Some AtPrompt /\
  Forall (fun a => is_ask a = false /\ is_start a = false /\ is_stop a = false
                   /\ is_launch a = false /\ is_context_close a = false)
    (snd (get_playlist_tracks sp url)).
Proof.
  unfold get_playlist_tracks. cbv zeta.
  destruct (sp (playlist_id url)) as [err|items];
    [|destruct (collect_tracks items)];
    (split; [reflexivity | repeat constructor]).
Qed.

Lemma count_actions_none (f : action -> bool) (tr : list action) :
  Forall (fun a => f a = false) tr -> count_actions f tr = 0%nat.
Proof.
  unfold count_actions. induction 1 as [|a tr Ha _ IH]; [reflexivity|].
  simpl. now rewrite Ha.
Qed.

(** The [async with] block on all its paths. *)
Lemma sync_batch_cases (client : LucidaClient) (download_dir : string)
    (tracks : list Track) (s : RoundScript) :
  exists evs,
    gather client download_dir tracks 0 (workers s) = (Returned tt, evs) /\
    count_events is_worker_start evs = List.length tracks /\
    governor_calls evs = [] /\
    sync_batch client download_dir tracks s
    = match start_raises s with
      | Some err => (Some err, [StartPlaywright])
      | None =>
          match launch_raises s with
          | Some err => (Some err, [StartPlaywright; LaunchContext; StopPlaywright])
          | None =>
              match context_close_raises s with
              | Some err =>
                  (Some err,
                   StartPlaywright :: LaunchContext
                   :: PrintSyncing (List.length tracks)
                   :: map InBrowser evs ++ [CloseContext; StopPlaywright])
              | None =>
                  (None,
                   StartPlaywright :: LaunchContext
                   :: PrintSyncing (List.length tracks)
                   :: map InBrowser evs
                      ++ [CloseContext; PrintComplete; StopPlaywright])
              end
          end
      end.
Proof.
  destruct (gather_runs_all client download_dir tracks 0 (workers s))
    as (evs & E & W & G).
  exists evs. split; [exact E|]. split; [exact W|]. split; [exact G|].
  unfold sync_batch. rewrite E.
  destruct (start_raises s); [reflexivity|].
  destruct (launch_raises s); [reflexivity|].
  destruct (context_close_raises s); cbn [app]; rewrite <- app_assoc;
    reflexivity.
Qed.

Lemma sync_playlist_async_cons (client : LucidaClient) (download_dir : string)
    (outside : nat -> RoundScript) (playlist_url : string)
    (rest : list string) (round : nat) :
  sync_playlist_async client download_dir outside (playlist_url :: rest) round
  = let again :=
      sync_playlist_async client download_dir outside rest (S round) in
    if String.eqb (lower playlist_url) "q" then (Quit, [Ask])
    else if negb (contains "spotify.com/playlist" playlist_url) then
      (fst again, Ask :: PrintInvalidUrl :: snd again)
    else
      let (tracks, fetched) :=
        get_playlist_tracks (playlist_items (outside round)) playlist_url in
      match tracks with
      | [] => (fst again, Ask :: fetched ++ snd again)
      | _ :: _ =>
          let (e, acts) :=
            sync_batch client download_dir tracks (outside round) in
          match e with
          | Some err => (Crashed err, Ask :: fetched ++ acts)
          | None => (fst again, Ask :: fetched ++ acts ++ snd again)
          end
      end.
Proof. reflexivity. Qed.




(** In every round the requests to Spotify and the use of the browser come in
    the order of [next_phase]. *)
Lemma round_phases (client : LucidaClient) (download_dir : string)
    (outside : nat -> RoundScript) (a : string) (rest : list string)
    (round : nat) :
  let r := sync_playlist_async client download_dir outside (a :: rest) round in
  let again :=
    sync_playlist_async client download_dir outside rest (S round) in
  (r = (Quit, [Ask])) \/
  (exists acts,
     r = (fst again, acts ++ snd again) /\
     end_phase AtPrompt acts = Some AtPrompt /\
     count_actions is_stop acts = count_actions is_start acts /\
     count_actions is_context_close acts = count_actions is_launch acts) \/
  (exists err acts,
     r = (Crashed err, acts) /\
     (start_raises (outside round) = Some err \/
      launch_raises (outside round) = Some err \/
      context_close_raises (outside round) = Some err) /\
     (end_phase AtPrompt acts = Some AtPrompt \/
      end_phase AtPrompt acts = Some Started /\
      start_raises (outside round) = Some err)).
Proof.
  cbv zeta. rewrite sync_playlist_async_cons. cbv zeta.
  destruct (String.eqb (lower a) "q"); [left; reflexivity|]. right.
  destruct (negb (contains "spotify.com/playlist" a)).
  { left. exists [Ask; PrintInvalidUrl]. repeat split. }
  destruct (fetched_events (playlist_items (outside round)) a) as (P & F).
  destruct (get_playlist_tracks (playlist_items (outside round)) a)
    as [tracks fetched]. cbn [snd] in P, F.
  assert (C : count_actions is_start fetched = 0%nat /\
              count_actions is_stop fetched = 0%nat /\
              count_actions is_launch fetched = 0%nat /\
              count_actions is_context_close fetched = 0%nat).
  { repeat split; apply count_actions_none;
      (eapply Forall_impl; [|exact F]); intros x Hx; apply Hx. }
  destruct C as (C1 & C2 & C3 & C4).
  destruct tracks as [|t tracks].
  { left. exists (Ask :: fetched). split; [reflexivity|].
    split; [exact P|].
    change (Ask :: fetched) with ([Ask] ++ fetched).
    rewrite !count_actions_app, C1, C2, C3, C4. split; reflexivity. }
  destruct (sync_batch_cases client download_dir (t :: tracks) (outside round))
    as (evs & _ & _ & _ & ->).
  set (n := List.length (t :: tracks)).
  assert (B : forall tl,
             end_phase AtPrompt
               (fetched ++ StartPlaywright :: LaunchContext :: PrintSyncing n
                :: map InBrowser evs ++ tl)
             = end_phase ContextOpen tl).
  { intro tl. rewrite end_phase_app, P. cbn [end_phase next_phase].
    rewrite end_phase_app, end_phase_in_browser. reflexivity. }
  assert (K : forall f tl,
             (forall e, f (InBrowser e) = false) ->
             count_actions f
               (Ask :: fetched ++ StartPlaywright :: LaunchContext
                :: PrintSyncing n :: map InBrowser evs ++ tl)
             = (count_actions f [Ask] + count_actions f fetched
                + count_actions f [StartPlaywright; LaunchContext;
                                   PrintSyncing n]
                + count_actions f tl)%nat).
  { intros f tl Hf.
    change (Ask :: fetched ++ StartPlaywright :: LaunchContext
            :: PrintSyncing n :: map InBrowser evs ++ tl)
      with ([Ask] ++ fetched ++ [StartPlaywright; LaunchContext;
                                  PrintSyncing n]
            ++ map InBrowser evs ++ tl).
    rewrite !count_actions_app, (count_actions_in_browser f evs Hf). lia. }
  destruct (start_raises (outside round)) as [err|] eqn:Hs.
  { right. exists err. eexists. split; [reflexivity|]. split; [auto|].
    right. split; [|reflexivity].
    cbn [end_phase next_phase]. rewrite end_phase_app, P. reflexivity. }
  destruct (launch_raises (outside round)) as [err|] eqn:Hl.
  { right. exists err. eexists. split; [reflexivity|]. split; [auto|].
    left. cbn [end_phase next_phase]. rewrite end_phase_app, P. reflexivity. }
  destruct (context_close_raises (outside round)) as [err|] eqn:Hc.
  { right. exists err. eexists. split; [reflexivity|]. split; [auto|].
    left. cbn [end_phase next_phase]. rewrite B. reflexivity. }
  left.
  exists (Ask :: fetched ++ StartPlaywright :: LaunchContext :: PrintSyncing n
          :: map InBrowser evs
             ++ [CloseContext; PrintComplete; StopPlaywright]).
  split.
  { cbn [app]. rewrite <- !app_assoc. cbn [app]. rewrite <- !app_assoc.
    reflexivity. }
  split.
  { cbn [end_phase next_phase]. rewrite B. reflexivity. }
  rewrite !K by (intro; reflexivity). rewrite C1, C2, C3, C4.
  split; reflexivity.
Qed.

(** X21: whatever is typed and whatever fails, the loop uses Spotify and the
    browser in one order: Playwright is started only from the prompt, the
    workers run only between the launch of a context and its closing, and
    Playwright is stopped before the next prompt.  The loop is back at the
    prompt when it ends, unless starting Playwright itself failed; and when
    the loop does not end in an exception, every context that was launched was
    closed and every start of Playwright was followed by its stop. *)
Theorem browser_is_used_in_order :
  forall (client : LucidaClient) (download_dir : string)
         (outside : nat -> RoundScript) (answers : list string) (round : nat),
    (end_phase AtPrompt
       (snd (sync_playlist_async client download_dir outside answers round))
     = Some AtPrompt \/
     end_phase AtPrompt
       (snd (sync_playlist_async client download_dir outside answers round))
     = Some Started /\
     exists err k,
       fst (sync_playlist_async client download_dir outside answers round)
       = Crashed err /\
       start_raises (outside k) = Some err) /\
    ((forall err,
        fst (sync_playlist_async client download_dir outside answers round)
        <> Crashed err) ->
     count_actions is_stop
       (snd (sync_playlist_async client download_dir outside answers round))
     = count_actions is_start
         (snd (sync_playlist_async client download_dir outside answers round))
     /\
     count_actions is_context_close
       (snd (sync_playlist_async client download_dir outside answers round))
     = count_actions is_launch
         (snd (sync_playlist_async client download_dir outside answers round))).
Proof.
  intros client download_dir outside answers. 
  induction answers as [|a rest IH]; intro round.
  - split; [left; reflexivity | intros _; split; reflexivity].
  - destruct (IH (S round)) as (IH1 & IH2).
    destruct (round_phases client download_dir outside a rest round)
      as [E|[(acts & E & P & C1 & C2)|(err & acts & E & Hr & P)]];
      cbv zeta in E; rewrite E; cbn [fst snd].
    + split; [left; reflexivity | intros _; split; reflexivity].
    + split.
      * rewrite end_phase_app, P. exact IH1.
      * intro Hn. destruct (IH2 Hn) as (D1 & D2).
        rewrite !count_actions_app. lia.
    + split.
      * destruct P as [P|(P & Hs)]; [left; exact P|].
        right. split; [exact P|]. exists err, round. split; [reflexivity|exact Hs].
      * intro Hn. exfalso. apply (Hn err). reflexivity.
Qed.




(** X23: an answer without [spotify.com/playlist] in it reaches nothing: the
    loop prints that the URL is invalid and asks again, without a request to
    Spotify and without a browser; such answers cannot end it in an
    exception. *)
Theorem invalid_answers_reach_nothing :
  forall (client : LucidaClient) (download_dir : string)
         (outside : nat -> RoundScript) (answers : list string) (round : nat),
    Forall (fun a => contains "spotify.com/playlist" a = false) answers ->
    Forall (fun act => act = Ask \/ act = PrintInvalidUrl)
      (snd (sync_playlist_async client download_dir outside answers round)) /\
    (forall err,
       fst (sync_playlist_async client download_dir outside answers round)
       <> Crashed err).
Proof.
  intros client download_dir outside answers round H. revert round.
  induction H as [|a rest Ha _ IH]; intro round.
  - split; [repeat constructor; auto | discriminate].
  - rewrite sync_playlist_async_cons. cbv zeta. rewrite Ha. cbn [negb].
    destruct (String.eqb (lower a) "q").
    + split; [repeat constructor; auto | discriminate].
    + destruct (IH (S round)) as (F & N). cbn [fst snd].
      split; [|exact N]. constructor; [auto|]. constructor; [auto | exact F].
Qed.

Lemma invalid_answers_reach_nothing_witness :
  let outside := fun _ : nat =>
    mkRoundScript (fun _ => inl "not found"%string) None None
      (fun _ => Scripts.smooth_track) None in
  Forall (fun act => act = Ask \/ act = PrintInvalidUrl)
    (snd (sync_playlist_async Scripts.a_client "music" outside
            ["hello"; "spotify.com"; "Q"; "later"]%string 0)) /\
  (forall err,
     fst (sync_playlist_async Scripts.a_client "music" outside
            ["hello"; "spotify.com"; "Q"; "later"]%string 0)
     <> Crashed err).
Proof.
  intro outside.
  apply (invalid_answers_reach_nothing Scripts.a_client "music" outside
           ["hello"; "spotify.com"; "Q"; "later"]%string 0).
  repeat constructor.
Defined.

(** * Where a track is saved *)

Section TraceInvariant.

Variable Q : list event -> Prop.
Hypothesis Q_nil : Q [].
Hypothesis Q_app : forall a b, Q a -> Q b -> Q (a ++ b).

Lemma inv_done {A} (a : A) : Q (snd (done a)).
Proof. exact Q_nil. Qed.

Lemma inv_raise {A} (err : string) : Q (snd (@raise A err)).
Proof. exact Q_nil. Qed.

Lemma inv_andthen {A B} (m : Task A) (k : A -> Task B) :
  Q (snd m) -> (forall a, Q (snd (k a))) -> Q (snd (andthen m k)).
Proof.
  intros Hm Hk. unfold andthen. destruct m as [[a|err] evs]; [|exact Hm].
  specialize (Hk a). destruct (k a) as [r evs']. now apply Q_app.
Qed.

Lemma inv_try_except {A} (m : Task A) (h : string -> Task A) :
  Q (snd m) -> (forall e, Q (snd (h e))) -> Q (snd (try_except m h)).
Proof.
  intros Hm Hh. unfold try_except. destruct m as [[a|err] evs]; [exact Hm|].
  specialize (Hh err). destruct (h err) as [r evs']. now apply Q_app.
Qed.

Lemma inv_try_finally {A} (m : Task A) (f : Task unit) :
  Q (snd m) -> Q (snd f) -> Q (snd (try_finally m f)).
Proof.
  intros Hm Hf. unfold try_finally. destruct m as [r evs]. now apply Q_app.
Qed.

Lemma inv_external (e : event) (answer : option string) :
  Q [e] -> Q (snd (external e answer)).
Proof.
  intro H. unfold external, andthen, emit. destruct answer; simpl;
    rewrite ?app_nil_r; exact H.
Qed.

End TraceInvariant.

Lemma saves_in_place_nil (p safe : string) : saves_in_place p safe [].
Proof. split; [constructor | reflexivity]. Qed.

Lemma saves_in_place_app (p safe : string) (a b : list event) :
  saves_in_place p safe a -> saves_in_place p safe b ->
  saves_in_place p safe (a ++ b).
Proof.
  intros (Fa & Ca) (Fb & Cb). split.
  - apply Forall_app. split; assumption.
  - rewrite !count_events_app. lia.
Qed.

(** Events that neither save nor report a file. *)
Lemma saves_in_place_other (p safe : string) (e : event) :
  is_save e = false -> is_completed e = false ->
  is_permanent_failure e = false ->
  saves_in_place p safe [e].
Proof.
  intros H1 H2 H3. split.
  - constructor; [|constructor].
    destruct e as [| | | | | | | | | | | |q| |m| | | |]; try exact I;
      [discriminate H1|]. destruct m; try exact I; discriminate.
  - unfold count_events. simpl. rewrite H2. simpl. lia.
Qed.

Ltac quiet_event := apply saves_in_place_other; reflexivity.

Ltac in_place_step p safe :=
  first
    [ apply (inv_done _ (saves_in_place_nil p safe))
    | apply (inv_raise _ (saves_in_place_nil p safe))
    | apply (inv_external (saves_in_place p safe)); quiet_event
    | quiet_event
    | apply (inv_andthen _ (saves_in_place_app p safe)); [|intro]
    | apply (inv_try_except _ (saves_in_place_app p safe)); [|intro]
    | apply (inv_try_finally _ (saves_in_place_app p safe))
    | match goal with
      | |- saves_in_place _ _ (snd (match ?x with _ => _ end)) => destruct x
      end ].

Ltac in_place p safe := repeat in_place_step p safe.

Lemma poll_button_in_place (p safe : string) (s : DownloadScript) (n i : nat) :
  saves_in_place p safe (snd (poll_button s n i)).
Proof.
  revert i. induction n as [|n IH]; intro i; cbn [poll_button].
  - apply saves_in_place_nil.
  - repeat first [apply IH | in_place_step p safe].
Qed.

Lemma search_in_place (p safe query : string) (s : SearchScript) :
  saves_in_place p safe (snd (get_direct_amazon_link_async query s)).
Proof. unfold get_direct_amazon_link_async. in_place p safe. Qed.

Lemma search_loop_in_place (p safe : string) (t : Track) (s : TrackScript)
    (n attempt : nat) :
  saves_in_place p safe (snd (search_loop t s n attempt)).
Proof.
  revert attempt. induction n as [|n IH]; intro attempt; cbn [search_loop].
  - apply saves_in_place_nil.
  - repeat first [apply IH | apply search_in_place | in_place_step p safe].
Qed.

(** One download attempt saves nowhere but at the output path, and an attempt
    that succeeds has saved. *)
Lemma download_track_in_place (self : LucidaClient)
    (download_dir url p safe : string) (s : DownloadScript) :
  exists r evs,
    download_track self download_dir url (Some p) true s = (Returned r, evs) /\
    Forall (saved_as p safe) evs /\
    count_events is_completed evs = 0%nat /\
    (success r = true -> (1 <= count_events is_save evs)%nat).
Proof.
  unfold download_track, _perform_download_async.
  pose proof (poll_button_in_place p safe s 150 0) as (Hp & _).
  pose proof (poll_button_events s 150 0) as He.
  assert (Hc : count_events is_completed (snd (poll_button s 150 0)) = 0%nat).
  { eapply count_events_none; [|exact He].
    intros e [-> | [-> | ->]]; reflexivity. }
  clear He.
  destruct (poll_button s 150 0) as [[b|e] evs]; simpl in Hp, Hc;
    destruct s as [mk gt bv cv cw sw ck fn pm sv fe gs fs os ol op oc];
    cbn [makedirs_raises goto_raises selector_wait_raises click_raises
         suggested_filename parent_makedirs_raises save_raises file_exists
         getsize_raises file_size];
    destruct mk, gt; try destruct b; simpl;
    try (destruct sw; simpl; try (destruct ck; simpl;
         try (destruct pm; simpl;
         try (destruct sv; simpl; try (destruct fe; simpl;
         try (destruct gs; simpl))))));
    do 2 eexists; (split; [reflexivity|]);
    (split; [repeat (apply Forall_cons || apply Forall_nil
                     || (apply Forall_app; split));
             try exact I; try reflexivity; try exact Hp|]);
    (split; [unfold count_events in *; simpl;
             rewrite ?filter_app, ?length_app; simpl; lia|]);
    intro H; try discriminate H;
    unfold count_events; simpl; rewrite ?filter_app, ?length_app; simpl; lia.
Qed.

Lemma download_loop_in_place (client : LucidaClient)
    (download_dir amazon_url p safe : string) (s : TrackScript)
    (n attempt : nat) :
  saves_in_place p safe
    (snd (download_loop client download_dir amazon_url p safe s n attempt)).
Proof.
  revert attempt. induction n as [|n IH]; intro attempt; cbn [download_loop].
  - apply saves_in_place_nil.
  - apply (inv_andthen _ (saves_in_place_app p safe)).
    { in_place p safe. }
    intros _.
    destruct (download_track_in_place client download_dir amazon_url p safe
                (downloads s attempt)) as (r & evs & E & F & C & S).
    unfold andthen at 1. rewrite E.
    destruct (success r) eqn:Er.
    + simpl. split.
      * apply Forall_app. split; [exact F|]. constructor; [reflexivity|constructor].
      * specialize (S eq_refl). rewrite !count_events_app, C.
        unfold count_events at 1. simpl. lia.
    + match goal with
      | |- saves_in_place _ _ (snd (let (r0, evs') := ?k in _)) =>
          assert (K : saves_in_place p safe (snd k))
      end.
      { repeat first [apply IH | in_place_step p safe]. }
      match goal with
      | K : saves_in_place _ _ (snd ?k) |- _ => destruct k as [r0 evs']
      end.
      cbn [snd] in *. apply saves_in_place_app; [|exact K].
      split; [exact F | rewrite C; lia].
Qed.

Lemma string_append_assoc (a b c : string) :
  ((a ++ b) ++ c = a ++ b ++ c)%string.
Proof. induction a as [|x a IH]; [reflexivity|]. simpl. now rewrite IH. Qed.

Lemma string_of_list_ascii_app (a b : list Ascii.ascii) :
  string_of_list_ascii (a ++ b)
  = (string_of_list_ascii a ++ string_of_list_ascii b)%string.
Proof. induction a as [|c a IH]; [reflexivity|]. simpl. now rewrite IH. Qed.

Lemma lstrip_before (k ext : list Ascii.ascii) :
  (forall c, hd_error ext = Some c -> is_space c = false) ->
  exists k', lstrip (k ++ ext) = k' ++ ext.
Proof.
  intro H. induction k as [|c k IH].
  - exists []. simpl. now apply lstrip_fixed.
  - simpl. destruct (is_space c); [exact IH|].
    exists (c :: k). reflexivity.
Qed.

(** The extension survives the cleaning. *)
Lemma sanitize_keeps_flac (x : string) :
  exists stem, _sanitize_filename (x ++ ".flac") = (stem ++ ".flac")%string.
Proof.
  unfold _sanitize_filename. cbv zeta.
  rewrite list_ascii_of_string_app, filter_app.
  set (k := filter _ (list_ascii_of_string x)).
  change (filter (fun c => negb (removed_char c)) (list_ascii_of_string ".flac"))
    with (list_ascii_of_string ".flac").
  destruct (lstrip_before k (list_ascii_of_string ".flac")) as (k' & ->).
  { intros c H. inversion H. reflexivity. }
  rewrite rev_app_distr.
  change (lstrip (rev (list_ascii_of_string ".flac") ++ rev k'))
    with (rev (list_ascii_of_string ".flac") ++ rev k').
  rewrite rev_app_distr, !rev_involutive.
  exists (string_of_list_ascii k'). apply string_of_list_ascii_app.
Qed.

(** X24: whatever the outside answers, a worker saves nowhere but at the one
    path made of the download directory and the safe name of its track, and
    reports no other name; it never reports a track as completed without
    having saved it.  The safe name keeps the extension [.flac] and holds no
    slash and no backslash, so the file lies in the download directory
    itself. *)
Theorem completed_track_is_saved_in_place :
  forall (client : LucidaClient) (download_dir : string) (t : Track)
         (index : nat) (s : TrackScript),
    let safe_name :=
      _sanitize_filename (artist t ++ " - " ++ name t ++ ".flac") in
    let evs := snd (process_track_async client download_dir t index s) in
    (exists stem, safe_name = (stem ++ ".flac")%string) /\
    ~ In (Ascii.ascii_of_nat 47) (list_ascii_of_string safe_name) /\
    ~ In (Ascii.ascii_of_nat 92) (list_ascii_of_string safe_name) /\
    Forall (saved_as (path_join download_dir safe_name) safe_name) evs /\
    (count_events is_completed evs <= count_events is_save evs)%nat.
Proof.
  intros client download_dir t index s safe_name evs.
  split; [|split; [|split]].
  - unfold safe_name.
    replace (artist t ++ " - " ++ name t ++ ".flac")%string
      with ((artist t ++ " - " ++ name t) ++ ".flac")%string.
    + apply sanitize_keeps_flac.
    + rewrite !string_append_assoc. reflexivity.
  - intro H. unfold safe_name in H. rewrite sanitize_chars in H.
    apply in_rev, lstrip_in, in_rev, lstrip_in, filter_In in H.
    destruct H as (_ & H). discriminate H.
  - intro H. unfold safe_name in H. rewrite sanitize_chars in H.
    apply in_rev, lstrip_in, in_rev, lstrip_in, filter_In in H.
    destruct H as (_ & H). discriminate H.
  - change (saves_in_place (path_join download_dir safe_name) safe_name evs).
    unfold evs, process_track_async.
    set (p := path_join download_dir safe_name).
    repeat first
      [ apply search_loop_in_place
      | apply download_loop_in_place
      | match goal with
        | |- saves_in_place _ _ (snd (emit (Print (MsgPermanentFailure _)))) =>
            split; [repeat constructor | reflexivity]
        end
      | in_place_step p safe_name ].
Qed.
